(** * WfCommons: the synthetic workflow recipe engine

    A shallow embedding of [wfcommons/wfgen/abstract_recipe.py]
    ([WorkflowRecipe] and its helper methods) together with the properties
    of the engine that the specification states about it.

    Conventions of the embedding.
    - In the engine model Python [float]s are idealised as rationals ([Q])
      and [int(x)] is truncation toward zero: the properties of the engine
      proved on it (which files exist, under which names, in which lists)
      do not depend on how a product is rounded.  The one line whose result
      is the rounded product itself, the size computed by [_generate_file],
      is embedded a second time on IEEE 754 binary64 values in
      [Module Float64], with the exceptions [int] raises on an infinity and
      on a NaN.
    - Python [dict]s are [gmap]s, except the per-task file recipes whose
      iteration order matters in [_generate_files]: those are association
      lists (in key insertion order).
    - Python [list] objects that are shared (aliased) live in an object
      store: [task.files = self.tasks_files[task.name]] makes two names
      refer to one list, and later appends are visible through both.
    - [uuid.uuid4()] and [generate_rvs] draw from the outside world; they are
      streams indexed by the number of draws made so far.
    - A raised exception aborts the computation; recursion depth is bounded
      by a fuel argument that plays the role of the interpreter's recursion
      limit ([RecursionError]). *)

From Stdlib Require Import ZArith QArith Qround String Ascii List Lia Lqa.
From Stdlib Require Import PrimFloat SpecFloat FloatOps.
From stdpp Require Import base gmap strings list fin_maps.


(** ** Python string primitives used by the engine *)

Module PyStr.

(** [c in s] for a one-character needle. *)
Fixpoint contains_char (c : ascii) (s : string) : bool :=
  match s with
  | EmptyString => false
  | String d s' => if Ascii.eqb c d then true else contains_char c s'
  end.

(** [s[n:]]. *)
Fixpoint drop (n : nat) (s : string) : string :=
  match n, s with
  | O, _ => s
  | S n', EmptyString => EmptyString
  | S n', String _ s' => drop n' s'
  end.

(** [s.split(sep)] for a non-empty separator: a left-to-right scan for
    non-overlapping occurrences.  [skip] counts the characters of a matched
    separator still to be consumed and [cur] is the piece being built. *)
Fixpoint split_go (sep : string) (skip : nat) (cur : string) (s : string)
  : list string :=
  match s with
  | EmptyString => [cur]
  | String c s' =>
      match skip with
      | S k => split_go sep k cur s'
      | O =>
          if String.prefix sep s
          then cur :: split_go sep (String.length sep - 1) EmptyString s'
          else split_go sep 0 (cur +:+ String c EmptyString) s'
      end
  end.

Definition split (sep s : string) : list string := split_go sep 0 EmptyString s.

(** The text after the last ['/'] of a path ([p[p.rfind('/')+1:]]). *)
Fixpoint basename_go (cur : string) (p : string) : string :=
  match p with
  | EmptyString => cur
  | String c p' =>
      if Ascii.eqb c "/"%char then basename_go p' p' else basename_go cur p'
  end.

Definition basename (p : string) : string := basename_go p p.

(** The suffix of [s] starting at its last ['.'], when there is one. *)
Fixpoint last_dot_suffix (s : string) : option string :=
  match s with
  | EmptyString => None
  | String c s' =>
      match last_dot_suffix s' with
      | Some e => Some e
      | None => if Ascii.eqb c "."%char then Some s else None
      end
  end.

Fixpoint all_dots (s : string) : bool :=
  match s with
  | EmptyString => true
  | String c s' => Ascii.eqb c "."%char && all_dots s'
  end.

(** [os.path.splitext(p)[1]] (POSIX): the extension starts at the last dot
    of the last path component, unless only dots precede it there. *)
Definition splitext_ext (p : string) : string :=
  let b := basename p in
  match last_dot_suffix b with
  | None => EmptyString
  | Some e =>
      let stem_len := String.length b - String.length e in
      if all_dots (String.substring 0 stem_len b) then EmptyString else e
  end.

Definition digit_char (d : N) : ascii :=
  Ascii.ascii_of_N (48 + d).

(** Decimal digits of a natural number, most significant first. *)
Fixpoint digits_go (fuel : nat) (n : N) (acc : string) : string :=
  match fuel with
  | O => acc
  | S f =>
      let acc' := String (digit_char (n mod 10)) acc in
      if (n <? 10)%N then acc' else digits_go f (n / 10) acc'
  end.

Definition digits (n : N) : string :=
  digits_go (S (N.to_nat (N.log2 n))) n EmptyString.

Fixpoint zeros (k : nat) : string :=
  match k with
  | O => EmptyString
  | S k' => String "0"%char (zeros k')
  end.

(** ["{:08d}".format(n)]: sign, then zeros, then digits, eight characters at
    least. *)
Definition format_08d (n : Z) : string :=
  if (n <? 0)%Z
  then let d := digits (Z.to_N (- n)) in
       String "-"%char (zeros (7 - String.length d) +:+ d)
  else let d := digits (Z.to_N n) in
       zeros (8 - String.length d) +:+ d.

End PyStr.

(** ** Data model *)

(** [wfcommons.common.file] *)
Inductive FileLink := INPUT | OUTPUT.

#[global] Instance FileLink_eq_dec : EqDecision FileLink.
Proof. solve_decision. Defined.

Module File.
Record t := mk { name : string; link : FileLink; size : Z }.
End File.

#[global] Instance File_eq_dec : EqDecision File.t.
Proof. solve_decision. Defined.

(** Addresses of list objects and of the [files] attribute slot of a task
    object. *)
Definition loc := nat.
Definition slot := nat.

(** [wfcommons.common.task]; [COMPUTE] is the only task type the engine
    uses. *)
Inductive TaskType := COMPUTE.

(** The keyword arguments of the [Task(...)] call of [_generate_task].
    Every attribute but [files] is never assigned again; [files] is
    mutable, so the record holds the address of the attribute slot, whose
    current content (a list object) is found in the store. *)
Module Task.
Record t := mk {
    name : string;
    task_id : string;
    category : string;
    task_type : TaskType;
    runtime : Q;
    machine : option string;
    program : string;
    args : list string;
    cores : Z;
    avg_cpu : option Q;
    bytes_read : option Z;
    bytes_written : option Z;
    memory : option Z;
    energy : option Z;
    avg_power : option Q;
    priority : option Z;
    files : slot
}.
End Task.

(** One [{distribution, min, max}] entry of a recipe; the distribution is
    opaque to the engine and only forwarded to the sampler. *)
Module Dist.
Record t := mk { distribution : string; min : Q; max : Q }.
End Dist.

(** The recipe of a task category.  The [input] and [output] tables are
    dictionaries that [_generate_files] iterates over, hence kept in key
    order. *)
Module Recipe.
Record t := mk {
    runtime : Dist.t;
    input : list (string * Dist.t);
    output : list (string * Dist.t)
}.
End Recipe.

(** The attributes of a [WorkflowRecipe] instance, the object store and the
    number of draws made from the two outside sources.  The [logger] and the
    [workflow_recipe] attribute (set to [None] and never read by the methods
    embedded here) are left out. *)
Record Engine := mkEngine {
  name : string;
  data_footprint : option Z;
  num_tasks : option Z;
  runtime_factor : Q;
  input_file_size_factor : Q;
  output_file_size_factor : Q;
  tasks_files : gmap string loc;
  tasks_files_names : gmap string (list string);
  task_id_counter : Z;
  tasks_map : gmap string Task.t;
  tasks_children : gmap string (list string);
  tasks_parents : gmap string (list string);
  tasks_output_files : gmap string (list File.t);
  lists : gmap loc (list File.t);
  slots : gmap slot loc;
  rvs_drawn : nat;
  uuid_drawn : nat
}.

Definition set_tasks_files (v : gmap string loc) (s : Engine) : Engine :=
  mkEngine (name s) (data_footprint s) (num_tasks s) (runtime_factor s)
    (input_file_size_factor s) (output_file_size_factor s)
    v (tasks_files_names s) (task_id_counter s) (tasks_map s)
    (tasks_children s) (tasks_parents s) (tasks_output_files s)
    (lists s) (slots s) (rvs_drawn s) (uuid_drawn s).

Definition set_tasks_files_names (v : gmap string (list string)) (s : Engine)
  : Engine :=
  mkEngine (name s) (data_footprint s) (num_tasks s) (runtime_factor s)
    (input_file_size_factor s) (output_file_size_factor s)
    (tasks_files s) v (task_id_counter s) (tasks_map s)
    (tasks_children s) (tasks_parents s) (tasks_output_files s)
    (lists s) (slots s) (rvs_drawn s) (uuid_drawn s).

Definition set_task_id_counter (v : Z) (s : Engine) : Engine :=
  mkEngine (name s) (data_footprint s) (num_tasks s) (runtime_factor s)
    (input_file_size_factor s) (output_file_size_factor s)
    (tasks_files s) (tasks_files_names s) v (tasks_map s)
    (tasks_children s) (tasks_parents s) (tasks_output_files s)
    (lists s) (slots s) (rvs_drawn s) (uuid_drawn s).

Definition set_tasks_map (v : gmap string Task.t) (s : Engine) : Engine :=
  mkEngine (name s) (data_footprint s) (num_tasks s) (runtime_factor s)
    (input_file_size_factor s) (output_file_size_factor s)
    (tasks_files s) (tasks_files_names s) (task_id_counter s) v
    (tasks_children s) (tasks_parents s) (tasks_output_files s)
    (lists s) (slots s) (rvs_drawn s) (uuid_drawn s).

Definition set_tasks_children (v : gmap string (list string)) (s : Engine)
  : Engine :=
  mkEngine (name s) (data_footprint s) (num_tasks s) (runtime_factor s)
    (input_file_size_factor s) (output_file_size_factor s)
    (tasks_files s) (tasks_files_names s) (task_id_counter s) (tasks_map s)
    v (tasks_parents s) (tasks_output_files s)
    (lists s) (slots s) (rvs_drawn s) (uuid_drawn s).

Definition set_tasks_parents (v : gmap string (list string)) (s : Engine)
  : Engine :=
  mkEngine (name s) (data_footprint s) (num_tasks s) (runtime_factor s)
    (input_file_size_factor s) (output_file_size_factor s)
    (tasks_files s) (tasks_files_names s) (task_id_counter s) (tasks_map s)
    (tasks_children s) v (tasks_output_files s)
    (lists s) (slots s) (rvs_drawn s) (uuid_drawn s).

Definition set_tasks_output_files (v : gmap string (list File.t)) (s : Engine)
  : Engine :=
  mkEngine (name s) (data_footprint s) (num_tasks s) (runtime_factor s)
    (input_file_size_factor s) (output_file_size_factor s)
    (tasks_files s) (tasks_files_names s) (task_id_counter s) (tasks_map s)
    (tasks_children s) (tasks_parents s) v
    (lists s) (slots s) (rvs_drawn s) (uuid_drawn s).

Definition set_lists (v : gmap loc (list File.t)) (s : Engine) : Engine :=
  mkEngine (name s) (data_footprint s) (num_tasks s) (runtime_factor s)
    (input_file_size_factor s) (output_file_size_factor s)
    (tasks_files s) (tasks_files_names s) (task_id_counter s) (tasks_map s)
    (tasks_children s) (tasks_parents s) (tasks_output_files s)
    v (slots s) (rvs_drawn s) (uuid_drawn s).

Definition set_slots (v : gmap slot loc) (s : Engine) : Engine :=
  mkEngine (name s) (data_footprint s) (num_tasks s) (runtime_factor s)
    (input_file_size_factor s) (output_file_size_factor s)
    (tasks_files s) (tasks_files_names s) (task_id_counter s) (tasks_map s)
    (tasks_children s) (tasks_parents s) (tasks_output_files s)
    (lists s) v (rvs_drawn s) (uuid_drawn s).

Definition set_rvs_drawn (v : nat) (s : Engine) : Engine :=
  mkEngine (name s) (data_footprint s) (num_tasks s) (runtime_factor s)
    (input_file_size_factor s) (output_file_size_factor s)
    (tasks_files s) (tasks_files_names s) (task_id_counter s) (tasks_map s)
    (tasks_children s) (tasks_parents s) (tasks_output_files s)
    (lists s) (slots s) v (uuid_drawn s).

Definition set_uuid_drawn (v : nat) (s : Engine) : Engine :=
  mkEngine (name s) (data_footprint s) (num_tasks s) (runtime_factor s)
    (input_file_size_factor s) (output_file_size_factor s)
    (tasks_files s) (tasks_files_names s) (task_id_counter s) (tasks_map s)
    (tasks_children s) (tasks_parents s) (tasks_output_files s)
    (lists s) (slots s) (rvs_drawn s) v.

(** ** Exceptions and the engine monad *)

(** The dictionary whose subscript raised a [KeyError]. *)
Inductive dict_id :=
  | RecipeTable | FileRecipe | TasksFiles | TasksFilesNames | TasksMap.

Inductive exn :=
  | KeyError (d : dict_id) (key : string)
  | IndexError
  | ValueError (msg : string)
  | OverflowError
  | RecursionError.

(** [KeyError] and [IndexError] are the subclasses of [LookupError]. *)
Definition is_LookupError (e : exn) : bool :=
  match e with
  | KeyError _ _ | IndexError => true
  | _ => false
  end.

Inductive result (A : Type) :=
  | Ok (a : A) (s : Engine)
  | Raise (e : exn).
Arguments Ok {A} a s.
Arguments Raise {A} e.

Definition M (A : Type) : Type := Engine → result A.

Definition ret {A} (a : A) : M A := λ s, Ok a s.
Definition raise {A} (e : exn) : M A := λ _, Raise e.
Definition bind {A B} (m : M A) (k : A → M B) : M B :=
  λ s, match m s with
       | Ok a s' => k a s'
       | Raise e => Raise e
       end.
Definition get : M Engine := λ s, Ok s s.
Definition modify (f : Engine → Engine) : M unit := λ s, Ok tt (f s).

Declare Scope eng_scope.
Delimit Scope eng_scope with eng.
Notation "x <- m ;; k" := (bind m (λ x, k))
  (at level 100, m at next level, right associativity) : eng_scope.
Notation "m ;;; k" := (bind m (λ _, k))
  (at level 100, right associativity) : eng_scope.
Local Open Scope eng_scope.

(** [d[k]] on a dictionary attribute of the engine. *)
Definition subscript {A} (d : dict_id) (proj : Engine → gmap string A)
    (k : string) : M A :=
  λ s, match proj s !! k with
       | Some a => Ok a s
       | None => Raise (KeyError d k)
       end.

(** [recipe[extension]] on a file recipe. *)
Fixpoint assoc (recipe : list (string * Dist.t)) (k : string) : option Dist.t :=
  match recipe with
  | [] => None
  | (k', d) :: r => if decide (k' = k) then Some d else assoc r k
  end.

(** Reading a list object, and [list.append] on it. *)
Definition read_list (l : loc) (s : Engine) : list File.t :=
  default [] (lists s !! l).

Definition list_append (l : loc) (f : File.t) : M unit :=
  modify (λ s, set_lists (<[l := read_list l s ++ [f]]> (lists s)) s).

(** [int(x)] on the idealised floats: truncation toward zero.  On a
    double, [int] is this truncation of the exact value of the double and
    raises on an infinity and on a NaN ([Float64.int_of_double]). *)
Definition int_of_float (x : Q) : Z := Z.quot (Qnum x) (Zpos (Qden x)).

(** [float(format(x, '.3f'))] on the idealised floats: the nearest number
    of thousandths.  The runtime of a task is read by no other line of the
    engine, and nothing is proved here of its value. *)
Definition round3 (x : Q) : Q :=
  let r := (x * (1000 # 1))%Q in
  let n := Qfloor r in
  let twice_frac := ((r - inject_Z n) * (2 # 1))%Q in
  let up :=
    match (twice_frac ?= 1)%Q with
    | Lt => false
    | Gt => true
    | Eq => Z.odd n
    end in
  ((if up then n + 1 else n)%Z # 1000)%Q.

(** ** The engine *)

Section WorkflowRecipe.

(** The collaborators of the engine: the statistical sampler
    [wfcommons.utils.generate_rvs(distribution, min, max)] and
    [str(uuid.uuid4())], each a stream of outcomes indexed by the draw, and
    the recipe table that the abstract method [_workflow_recipe] of a
    concrete recipe returns. *)
Variable generate_rvs : nat → string → Q → Q → Q.
Variable uuid4 : nat → string.
Variable _workflow_recipe : gmap string Recipe.t.

(** [WorkflowRecipe.__init__]: the three sanity checks come first, the
    attributes are set afterwards. *)
Definition __init__ (name : string) (data_footprint num_tasks : option Z)
    (runtime_factor input_file_size_factor output_file_size_factor : Q)
  : exn + Engine :=
  if Qle_bool runtime_factor 0 then
    inl (ValueError "The runtime factor should be a number higher than 0.0.")
  else if Qle_bool input_file_size_factor 0 then
    inl (ValueError
           "The input file size factor should be a number higher than 0.0.")
  else if Qle_bool output_file_size_factor 0 then
    inl (ValueError
           "The output file size factor should be a number higher than 0.0.")
  else
    inr {| name := name;
           data_footprint := data_footprint;
           num_tasks := num_tasks;
           runtime_factor := runtime_factor;
           input_file_size_factor := input_file_size_factor;
           output_file_size_factor := output_file_size_factor;
           tasks_files := ∅;
           tasks_files_names := ∅;
           task_id_counter := 1;
           tasks_map := ∅;
           tasks_children := ∅;
           tasks_parents := ∅;
           tasks_output_files := ∅;
           lists := ∅;
           slots := ∅;
           rvs_drawn := 0;
           uuid_drawn := 0 |}.

(** One call of the sampler, and one of [str(uuid.uuid4())]. *)
Definition draw_rvs (d : Dist.t) : M Q :=
  λ s, Ok (generate_rvs (rvs_drawn s) (Dist.distribution d) (Dist.min d)
             (Dist.max d))
          (set_rvs_drawn (S (rvs_drawn s)) s).

Definition draw_uuid : M string :=
  λ s, Ok (uuid4 (uuid_drawn s)) (set_uuid_drawn (S (uuid_drawn s)) s).

(** A new, empty list object. *)
Definition new_list : M loc :=
  λ s, let l := fresh (dom (lists s)) in
       Ok l (set_lists (<[l := []]> (lists s)) s).

(** A new task object: its [files] slot, holding [fl]. *)
Definition new_slot (fl : loc) : M slot :=
  λ s, let c := fresh (dom (slots s)) in
       Ok c (set_slots (<[c := fl]> (slots s)) s).

(** [self.tasks_files[task_id].append(file)] and
    [self.tasks_files_names[task_id].append(name)]. *)
Definition append_file (task_id : string) (file : File.t) : M unit :=
  l <- subscript TasksFiles tasks_files task_id ;;
  list_append l file.

Definition append_name (task_id : string) (n : string) : M unit :=
  ns <- subscript TasksFilesNames tasks_files_names task_id ;;
  modify (λ s, set_tasks_files_names
                 (<[task_id := ns ++ [n]]> (tasks_files_names s)) s).

Definition _generate_task (task_name task_id : string) : M Task.t :=
  task_recipe <- subscript RecipeTable (λ _, _workflow_recipe) task_name ;;
  x <- draw_rvs (Recipe.runtime task_recipe) ;;
  s <- get ;;
  let runtime := round3 (runtime_factor s * x) in
  l <- new_list ;;
  modify (λ s, set_tasks_files (<[task_id := l]> (tasks_files s)) s) ;;;
  modify (λ s, set_tasks_files_names
                 (<[task_id := []]> (tasks_files_names s)) s) ;;;
  match PyStr.split "_0" task_id !! 1%nat with
  | None => raise IndexError
  | Some rest =>
      fl <- new_list ;;
      c <- new_slot fl ;;
      let task :=
        {| Task.name := task_id;
           Task.task_id := String "0"%char rest;
           Task.category := task_name;
           Task.task_type := COMPUTE;
           Task.runtime := runtime;
           Task.machine := None;
           Task.program := task_name;
           Task.args := [];
           Task.cores := 1;
           Task.avg_cpu := None;
           Task.bytes_read := None;
           Task.bytes_written := None;
           Task.memory := None;
           Task.energy := None;
           Task.avg_power := None;
           Task.priority := None;
           Task.files := c |} in
      modify (λ s, set_tasks_map (<[task_id := task]> (tasks_map s)) s) ;;;
      ret task
  end.

Definition _generate_task_name (prefix : string) : M string :=
  s <- get ;;
  let task_name := (prefix +:+ "_" +:+ PyStr.format_08d (task_id_counter s)) in
  modify (set_task_id_counter (task_id_counter s + 1)) ;;;
  ret task_name.

(** The size is computed on the idealised floats, where the product is
    exact and [int] cannot raise.  What is proved of the engine with this
    definition does not rest on the value of the product beyond its sign;
    the size itself, and the exceptions of [int], are the matter of
    [Float64._generate_file]. *)
Definition _generate_file (extension : string)
    (recipe : list (string * Dist.t)) (link : FileLink) : M File.t :=
  s <- get ;;
  let factor := match link with
                | INPUT => input_file_size_factor s
                | OUTPUT => output_file_size_factor s
                end in
  match assoc recipe extension with
  | None => raise (KeyError FileRecipe extension)
  | Some d =>
      x <- draw_rvs d ;;
      let size := int_of_float (factor * x) in
      u <- draw_uuid ;;
      ret {| File.name := u +:+ extension; File.link := link;
             File.size := size |}
  end.

(** What a file already in the list stands for in [extension_list]. *)
Definition file_extension (f : File.t) : string :=
  if PyStr.contains_char "."%char (File.name f)
  then PyStr.splitext_ext (File.name f)
  else File.name f.

Definition has_link (link : FileLink) (f : File.t) : bool :=
  bool_decide (File.link f = link).

(** The second loop of [_generate_files]; the result is what it appends to
    [files_list]. *)
Fixpoint generate_missing (task_id : string) (recipe : list (string * Dist.t))
    (link : FileLink) (extension_list : list string)
    (extensions : list string) : M (list File.t) :=
  match extensions with
  | [] => ret []
  | extension :: rest =>
      if bool_decide (extension ∈ extension_list)
      then generate_missing task_id recipe link extension_list rest
      else
        file <- _generate_file extension recipe link ;;
        append_file task_id file ;;;
        append_name task_id (File.name file) ;;;
        more <- generate_missing task_id recipe link extension_list rest ;;
        ret (file :: more)
  end.

Definition _generate_files (task_id : string)
    (recipe : list (string * Dist.t)) (link : FileLink) : M (list File.t) :=
  l <- subscript TasksFiles tasks_files task_id ;;
  s <- get ;;
  let files_list := filter (λ f, has_link link f = true) (read_list l s) in
  let extension_list := file_extension <$> files_list in
  new <- generate_missing task_id recipe link extension_list (recipe.*1) ;;
  ret (files_list ++ new).

(** The loop over the parents of a task; [resolve] is the recursive call.
    The result is [input_files]. *)
Fixpoint resolve_parents (resolve : Task.t → M (list File.t))
    (parents : list string) : M (list File.t) :=
  match parents with
  | [] => ret []
  | parent_task_name :: rest =>
      parent <- subscript TasksMap tasks_map parent_task_name ;;
      output_files <- resolve parent ;;
      modify (λ s, set_tasks_output_files
                     (<[parent_task_name := output_files]>
                        (tasks_output_files s)) s) ;;;
      more <- resolve_parents resolve rest ;;
      ret (output_files ++ more)
  end.

(** The loop that links the candidate input files, skipping names already
    recorded for the task. *)
Fixpoint link_inputs (task_name : string) (input_files : list File.t)
  : M unit :=
  match input_files with
  | [] => ret tt
  | input_file :: rest =>
      ns <- subscript TasksFilesNames tasks_files_names task_name ;;
      (if bool_decide (File.name input_file ∈ ns)
       then ret tt
       else
         append_file task_name
           {| File.name := File.name input_file; File.link := INPUT;
              File.size := File.size input_file |} ;;;
         append_name task_name (File.name input_file)) ;;;
      link_inputs task_name rest
  end.

Fixpoint _generate_task_files (fuel : nat) (task : Task.t) : M (list File.t) :=
  match fuel with
  | O => raise RecursionError
  | S fuel' =>
      s <- get ;;
      match tasks_output_files s !! Task.name task with
      | Some cached => ret cached
      | None =>
          task_recipe <-
            subscript RecipeTable (λ _, _workflow_recipe) (Task.category task) ;;
          output_files_list <-
            _generate_files (Task.name task) (Recipe.output task_recipe) OUTPUT ;;
          l <- subscript TasksFiles tasks_files (Task.name task) ;;
          modify (λ s, set_slots (<[Task.files task := l]> (slots s)) s) ;;;
          s <- get ;;
          input_files <-
            resolve_parents (_generate_task_files fuel')
              (default [] (tasks_parents s !! Task.name task)) ;;
          link_inputs (Task.name task) input_files ;;;
          _ <- _generate_files (Task.name task) (Recipe.input task_recipe)
                 INPUT ;;
          ret output_files_list
      end
  end.

Definition _get_files_by_task_and_link (task_id : string) (link : FileLink)
  : M (list File.t) :=
  l <- subscript TasksFiles tasks_files task_id ;;
  s <- get ;;
  ret (filter (λ f, has_link link f = true) (read_list l s)).

(** The list a task object's [files] attribute refers to. *)
Definition task_files (s : Engine) (task : Task.t) : list File.t :=
  match slots s !! Task.files task with
  | Some l => read_list l s
  | None => []
  end.

End WorkflowRecipe.


(** ** Notions used to state the properties *)

(** The state a successful construction leaves: the arguments stored, every
    dictionary empty, the counter at one. *)
Definition fresh_engine (name : string) (data_footprint num_tasks : option Z)
    (runtime_factor input_file_size_factor output_file_size_factor : Q)
  : Engine :=
  mkEngine name data_footprint num_tasks runtime_factor
    input_file_size_factor output_file_size_factor
    ∅ ∅ 1 ∅ ∅ ∅ ∅ ∅ ∅ 0 0.

(** The factor the specification pairs with each link direction. *)
Definition size_factor (s : Engine) (link : FileLink) : Q :=
  match link with
  | INPUT => input_file_size_factor s
  | OUTPUT => output_file_size_factor s
  end.

(** The sample the next call of the sampler returns for an entry. *)
Definition next_sample (generate_rvs : nat → string → Q → Q → Q)
    (s : Engine) (d : Dist.t) : Q :=
  generate_rvs (rvs_drawn s) (Dist.distribution d) (Dist.min d) (Dist.max d).

(** The number a string of decimal digits denotes. *)
Definition digit_value (c : ascii) : N := (N_of_ascii c - 48)%N.

Fixpoint decimal_value (s : string) : N :=
  match s with
  | EmptyString => 0%N
  | String c s' =>
      (digit_value c * 10 ^ N.of_nat (String.length s') + decimal_value s')%N
  end.

(** Successive calls of [_generate_task_name], one per prefix, collecting
    the names returned. *)
Fixpoint generate_task_names (prefixes : list string) : M (list string) :=
  match prefixes with
  | [] => ret []
  | prefix :: rest =>
      n <- _generate_task_name prefix ;;
      ns <- generate_task_names rest ;;
      ret (n :: ns)
  end.

(** [sep in s]. *)
Definition occurs (sep s : string) : Prop := ∃ x y, s = x +:+ sep +:+ y.

(** Appending a file and its name to the tracking state of a task. *)
Definition add_file (task_id : string) (l : loc) (ns : list string)
    (f : File.t) (s : Engine) : Engine :=
  set_tasks_files_names (<[task_id := ns ++ [File.name f]]> (tasks_files_names s))
    (set_lists (<[l := read_list l s ++ [f]]> (lists s)) s).


(** What every engine operation on files respects: the task registry, the
    adjacency maps, the configuration and the list assigned to each task stay
    as they are; lists and name lists only get longer; the memo keeps its
    keys. *)
Record grows (s s' : Engine) : Prop := mk_grows {
  grows_tasks_files : tasks_files s' = tasks_files s;
  grows_tasks_map : tasks_map s' = tasks_map s;
  grows_tasks_parents : tasks_parents s' = tasks_parents s;
  grows_tasks_children : tasks_children s' = tasks_children s;
  grows_task_id_counter : task_id_counter s' = task_id_counter s;
  grows_input_factor : input_file_size_factor s' = input_file_size_factor s;
  grows_output_factor : output_file_size_factor s' = output_file_size_factor s;
  grows_memo : ∀ k,
    is_Some (tasks_output_files s !! k) → is_Some (tasks_output_files s' !! k);
  grows_lists : ∀ l fs,
    lists s !! l = Some fs → ∃ more, lists s' !! l = Some (fs ++ more);
  grows_names : ∀ k ns,
    tasks_files_names s !! k = Some ns →
    ∃ more, tasks_files_names s' !! k = Some (ns ++ more);
  grows_uuid : (uuid_drawn s ≤ uuid_drawn s')%nat
}.

(** The parents listed for a task name in the adjacency map (none when the
    name is not a key). *)
Definition parents_of (s : Engine) (k : string) : list string :=
  default [] (tasks_parents s !! k).

(** [p] is reached from [k] by following parent links. *)
Definition ancestor (s : Engine) : relation string :=
  tc (λ k p, p ∈ parents_of s k).

(** A task object registered in [tasks_map] under its own name, as
    [_generate_task] registers the tasks it creates. *)
Definition registered (s : Engine) (t : Task.t) : Prop :=
  tasks_map s !! Task.name t = Some t.

(** Every entry of [tasks_map] holds a task of that name. *)
Definition names_agree (s : Engine) : Prop :=
  ∀ k t, tasks_map s !! k = Some t → Task.name t = k.

(** The parents of a task whose outputs are in the memo are in the memo
    too. *)
Definition memo_closed (s : Engine) : Prop :=
  ∀ k p, is_Some (tasks_output_files s !! k) → p ∈ parents_of s k →
         is_Some (tasks_output_files s !! p).

(** Inside a call with fuel [n] started in [s], a call on the task
    registered as [k] that missed the memo and returned. *)
Definition inner_call (run : nat → Task.t → M (list File.t)) (n : nat)
    (s : Engine) (k : string) : Prop :=
  ∃ m s1 kt r1 s1',
    (m < n)%nat ∧ grows s s1 ∧ names_agree s1 ∧ memo_closed s1 ∧
    tasks_map s !! k = Some kt ∧ tasks_output_files s1 !! k = None ∧
    run m kt s1 = Ok r1 s1'.

(** No call with fuel [n] on a task that lies on a cycle of the parent map
    returns. *)
Definition no_cycle_return (run : nat → Task.t → M (list File.t)) (n : nat)
  : Prop :=
  ∀ task s r s',
    names_agree s → memo_closed s → registered s task →
    tasks_output_files s !! Task.name task = None →
    ancestor s (Task.name task) (Task.name task) →
    run n task s = Ok r s' → False.

(** The uuid source never repeats itself: two names built on different
    draws differ.  (Tokens of [uuid.uuid4()] all have 36 characters, so the
    names built on two distinct tokens differ whatever is appended.)  The
    engine checks nothing of the kind: this is a proviso of the statements
    that name it, and the other statements hold whatever the source. *)
Definition tokens_fresh (uuid4 : nat → string) : Prop :=
  ∀ i j e e', uuid4 i +:+ e = uuid4 j +:+ e' → i = j.

(** The files of a task: the list [tasks_files] holds for its name. *)
Definition files_of (s : Engine) (k : string) : list File.t :=
  match tasks_files s !! k with
  | Some l => read_list l s
  | None => []
  end.

(** A file object held by some list of the store. *)
Definition in_heap (s : Engine) (f : File.t) : Prop :=
  ∃ l fs, lists s !! l = Some fs ∧ f ∈ fs.

(** [g] is the input that stands for the parent output [f]. *)
Definition links_to (g f : File.t) : Prop :=
  File.link g = INPUT ∧ File.name g = File.name f ∧ File.size g = File.size f.

(** The OUTPUT files of a task. *)
Definition outputs (s : Engine) (k : string) : list File.t :=
  filter (λ f, has_link OUTPUT f = true) (files_of s k).

(** What holds of a task [k] whose resolution returned [out]: it is
    registered, its [files] attribute is the list tracked for it, [out] is
    the list of the OUTPUT files of that list, and every output recorded
    for each of its parents has a file of its name in that list, which is
    its input when no two names built on different tokens coincide. *)
Definition resolved (uuid4 : nat → string) (s : Engine) (k : string)
    (out : list File.t) : Prop :=
  ∃ t l,
    tasks_map s !! k = Some t ∧ tasks_files s !! k = Some l ∧
    slots s !! Task.files t = Some l ∧
    out = outputs s k ∧
    (∀ p, p ∈ parents_of s k →
       ∃ pout, tasks_output_files s !! p = Some pout ∧
         ∀ f, f ∈ pout →
           ∃ g, g ∈ files_of s k ∧ File.name g = File.name f ∧
                (tokens_fresh uuid4 → links_to g f)).

(** The invariant of the engine.  Three of its clauses rest on the names
    of the files being distinct, and hold when no two names built on
    different tokens coincide. *)
Record engine_inv (uuid4 : nat → string) (s : Engine) : Prop := mk_engine_inv {
  inv_names_agree : names_agree s;
  inv_sync : ∀ k l, tasks_files s !! k = Some l →
    ∃ fs, lists s !! l = Some fs ∧
          tasks_files_names s !! k = Some (File.name <$> fs);
  inv_inj : ∀ k k' l,
    tasks_files s !! k = Some l → tasks_files s !! k' = Some l → k = k';
  inv_nodup : tokens_fresh uuid4 →
    ∀ l fs, lists s !! l = Some fs → NoDup (File.name <$> fs);
  inv_tok : ∀ f, in_heap s f →
    ∃ i ext, (i < uuid_drawn s)%nat ∧ File.name f = uuid4 i +:+ ext;
  inv_size : tokens_fresh uuid4 →
    ∀ f g, in_heap s f → in_heap s g →
    File.name f = File.name g → File.size f = File.size g;
  inv_own : tokens_fresh uuid4 →
    ∀ k k' f g,
    f ∈ files_of s k → g ∈ files_of s k' →
    File.link f = OUTPUT → File.link g = OUTPUT →
    File.name f = File.name g → k = k';
  inv_slots : ∀ k k' t t',
    tasks_map s !! k = Some t → tasks_map s !! k' = Some t' →
    Task.files t = Task.files t' → k = k';
  inv_slot_dom : ∀ k t, tasks_map s !! k = Some t →
    is_Some (slots s !! Task.files t);
  inv_memo : ∀ k out,
    tasks_output_files s !! k = Some out → resolved uuid4 s k out
}.

(** The state changes a call of [_generate_task_files] is made of. *)
Inductive step (uuid4 : nat → string) : Engine → Engine → Prop :=
  | step_generate s k l ns ext lk sz b :
      tasks_files s !! k = Some l →
      tasks_files_names s !! k = Some ns →
      (lk = OUTPUT → tasks_output_files s !! k = None) →
      step uuid4 s
        (add_file k l ns (File.mk (uuid4 (uuid_drawn s) +:+ ext) lk sz)
           (set_uuid_drawn (S (uuid_drawn s)) (set_rvs_drawn b s)))
  | step_input s k l ns f :
      tasks_files s !! k = Some l →
      tasks_files_names s !! k = Some ns →
      File.name f ∉ ns → in_heap s f →
      step uuid4 s
        (add_file k l ns (File.mk (File.name f) INPUT (File.size f)) s)
  | step_slot s t l :
      registered s t → tasks_files s !! Task.name t = Some l →
      step uuid4 s (set_slots (<[Task.files t := l]> (slots s)) s)
  | step_memo s p out :
      resolved uuid4 s p out →
      (∀ c, tasks_output_files s !! p = Some c → out = c) →
      step uuid4 s
        (set_tasks_output_files (<[p := out]> (tasks_output_files s)) s).

(** The engine states a recipe can reach: the engine is constructed; task
    names and tasks are generated, each task under an identifier not used
    before; the assembler writes the adjacency maps, leaving the parents of
    the tasks already in the memo as they are; and the files of registered
    tasks are generated. *)
Inductive reachable (generate_rvs : nat → string → Q → Q → Q)
    (uuid4 : nat → string) (_workflow_recipe : gmap string Recipe.t)
  : Engine → Prop :=
  | reach_init name df nt rf inf outf e :
      __init__ name df nt rf inf outf = inr e →
      reachable generate_rvs uuid4 _workflow_recipe e
  | reach_task_name s prefix n s' :
      reachable generate_rvs uuid4 _workflow_recipe s →
      _generate_task_name prefix s = Ok n s' →
      reachable generate_rvs uuid4 _workflow_recipe s'
  | reach_task s task_name task_id t s' :
      reachable generate_rvs uuid4 _workflow_recipe s →
      tasks_files s !! task_id = None →
      _generate_task generate_rvs _workflow_recipe task_name task_id s =
        Ok t s' →
      reachable generate_rvs uuid4 _workflow_recipe s'
  | reach_parents s m :
      reachable generate_rvs uuid4 _workflow_recipe s →
      (∀ k, is_Some (tasks_output_files s !! k) →
            m !! k = tasks_parents s !! k) →
      reachable generate_rvs uuid4 _workflow_recipe (set_tasks_parents m s)
  | reach_children s m :
      reachable generate_rvs uuid4 _workflow_recipe s →
      reachable generate_rvs uuid4 _workflow_recipe (set_tasks_children m s)
  | reach_files s fuel t r s' :
      reachable generate_rvs uuid4 _workflow_recipe s →
      registered s t →
      _generate_task_files generate_rvs uuid4 _workflow_recipe fuel t s =
        Ok r s' →
      reachable generate_rvs uuid4 _workflow_recipe s'.

(** The input a task records for a candidate: same name and size, link
    INPUT. *)
Definition to_input (f : File.t) : File.t :=
  {| File.name := File.name f; File.link := INPUT; File.size := File.size f |}.

(** The rule of the specification for the candidates of a task (first seen
    wins): in encounter order, a candidate is kept when its name is neither
    among the names [seen] already recorded for the task nor that of a
    candidate kept before it. *)
Fixpoint first_seen (seen : list string) (candidates : list File.t)
  : list File.t :=
  match candidates with
  | [] => []
  | f :: rest =>
      if bool_decide (File.name f ∈ seen) then first_seen seen rest
      else f :: first_seen (seen ++ [File.name f]) rest
  end.

(** The INPUT files of a task object. *)
Definition inputs_of (s : Engine) (t : Task.t) : list File.t :=
  filter (λ f, has_link INPUT f = true) (task_files s t).

(** ** A small recipe to run the engine on *)

(** A sampler that returns the same value at every call, and a uuid source
    whose [i]-th token is [i] zeros and a dash, so that no name built on a
    token is built on another one. *)
Definition const_rvs (x : Q) : nat → string → Q → Q → Q := λ _ _ _ _, x.

Definition demo_uuid4 (i : nat) : string := PyStr.zeros i +:+ "-".

Definition demo_dist : Dist.t :=
  {| Dist.distribution := "uniform"; Dist.min := 1; Dist.max := 10 |}.

(** One category, whose tasks read a [.txt] file and write a [.tar.gz]
    file. *)
Definition demo_table : gmap string Recipe.t :=
  {[ "A" := {| Recipe.runtime := demo_dist;
               Recipe.input := [(".txt", demo_dist)];
               Recipe.output := [(".tar.gz", demo_dist)] |} ]}.

Definition demo_engine : Engine := fresh_engine "demo" None None 1 1 1.

(** The final state of a computation (the initial one if it raises). *)
Definition exec {A} (m : M A) (s : Engine) : Engine :=
  match m s with
  | Ok _ s' => s'
  | Raise _ => s
  end.

(** Two tasks, [c_01] with the single parent [p_01]. *)
Definition demo_tasks : Engine :=
  set_tasks_parents {[ "c_01" := ["p_01"] ]}
    (exec (_generate_task (const_rvs 5) demo_table "A" "c_01")
       (exec (_generate_task (const_rvs 5) demo_table "A" "p_01") demo_engine)).

Definition demo_task (name : string) (category : string) (files : slot)
  : Task.t :=
  {| Task.name := name; Task.task_id := "01"; Task.category := category;
     Task.task_type := COMPUTE; Task.runtime := (5000 # 1000)%Q;
     Task.machine := None; Task.program := category; Task.args := [];
     Task.cores := 1; Task.avg_cpu := None; Task.bytes_read := None;
     Task.bytes_written := None; Task.memory := None; Task.energy := None;
     Task.avg_power := None; Task.priority := None; Task.files := files |}.

Definition demo_parent : Task.t := demo_task "p_01" "A" 0.
Definition demo_child : Task.t := demo_task "c_01" "A" 1.

(** The state after the files of [c_01] (and so of [p_01]) are
    generated. *)
Definition demo_files : Engine :=
  exec (_generate_task_files (const_rvs 5) demo_uuid4 demo_table 2 demo_child)
    demo_tasks.

(** Modelled from the spec: the sampler ([generate_rvs] of
    [wfcommons.utils]) is not among the sources.  Its contract: the value
    returned is usable as a runtime in seconds or, once scaled, as a size in
    bytes, that is, it is not negative.  Nothing else is asked (the value
    need not lie between [min] and [max]). *)
Definition sampler_contract (generate_rvs : nat → string → Q → Q → Q) : Prop :=
  ∀ i d mn mx, (0 <= generate_rvs i d mn mx)%Q.

(** The two size factors are positive, as the constructor checks. *)
Definition factors_positive (s : Engine) : Prop :=
  (0 < input_file_size_factor s)%Q ∧ (0 < output_file_size_factor s)%Q.

(** No file object of the store or of the memo has a negative size. *)
Definition sizes_nonneg (s : Engine) : Prop :=
  (∀ l fs f, lists s !! l = Some fs → f ∈ fs → (0 ≤ File.size f)%Z) ∧
  (∀ k out f, tasks_output_files s !! k = Some out → f ∈ out →
              (0 ≤ File.size f)%Z).

(** What a call of [_generate_task_files] looks up for the tasks of the
    registry: each is registered under its name, its category is a key of
    the recipe table, and its two tracking entries exist. *)
Record tracked (table : gmap string Recipe.t) (s : Engine) : Prop := mk_tracked {
  tracked_names : names_agree s;
  tracked_category : ∀ k t,
    tasks_map s !! k = Some t → is_Some (table !! Task.category t);
  tracked_files : ∀ k t,
    tasks_map s !! k = Some t → is_Some (tasks_files s !! k);
  tracked_names_list : ∀ k t,
    tasks_map s !! k = Some t → is_Some (tasks_files_names s !! k)
}.

(** The obligations of the assembler on the parent map: it lists
    registered tasks only, and it has no cycle ([rank] decreases from a task
    to its parents). *)
Definition parents_registered (s : Engine) : Prop :=
  ∀ k p, p ∈ parents_of s k → is_Some (tasks_map s !! p).



(** A token that is not empty and has neither a dot nor a slash, as the
    tokens of [uuid.uuid4()] (hexadecimal digits and dashes). *)
Definition plain_token (t : string) : bool :=
  match t with
  | EmptyString => false
  | String _ _ =>
      negb (PyStr.contains_char "."%char t) &&
      negb (PyStr.contains_char "/"%char t)
  end.

(** An extension key made of one dot and characters that are neither dots
    nor slashes ([.txt], not [.tar.gz]). *)
Definition simple_extension (ext : string) : bool :=
  match ext with
  | EmptyString => false
  | String c rest =>
      Ascii.eqb c "."%char &&
      negb (PyStr.contains_char "."%char rest) &&
      negb (PyStr.contains_char "/"%char rest)
  end.

(** The extension scan of [_generate_files] gives [ext] back for the names
    built on it. *)
Definition recognised (uuid4 : nat → string) (ext : string) : Prop :=
  ∀ i lk sz, file_extension (File.mk (uuid4 i +:+ ext) lk sz) = ext.

(** Every extension of the recipe is that of a file of the task with the
    link asked for: [_generate_files] has nothing to generate. *)
Definition covered (s : Engine) (k : string) (link : FileLink)
    (recipe : list (string * Dist.t)) : Prop :=
  ∀ ext, ext ∈ recipe.*1 →
    ext ∈ file_extension <$>
            filter (λ f, has_link link f = true) (files_of s k).

(** A second recipe table, whose extensions are simple ones, and two tasks
    of it, [d_01] with the single parent [q_01]. *)
Definition plain_table : gmap string Recipe.t :=
  {[ "B" := {| Recipe.runtime := demo_dist;
               Recipe.input := [(".txt", demo_dist)];
               Recipe.output := [(".dat", demo_dist)] |} ]}.

Definition plain_tasks : Engine :=
  set_tasks_parents {[ "d_01" := ["q_01"] ]}
    (exec (_generate_task (const_rvs 5) plain_table "B" "d_01")
       (exec (_generate_task (const_rvs 5) plain_table "B" "q_01") demo_engine)).

Definition plain_parent : Task.t := demo_task "q_01" "B" 0.
Definition plain_child : Task.t := demo_task "d_01" "B" 1.

Definition plain_files : Engine :=
  exec (_generate_task_files (const_rvs 5) demo_uuid4 plain_table 2 plain_child)
    plain_tasks.

(** ** Further notions, for the properties of the helper methods *)

(** The files [_generate_files] appends when no extension of the recipe is
    found among the files of the task: one per entry, in the order of the
    recipe, the [i]-th on the [i]-th next sample and token. *)
Fixpoint fresh_files (generate_rvs : nat → string → Q → Q → Q)
    (uuid4 : nat → string) (factor : Q) (link : FileLink) (r u : nat)
    (recipe : list (string * Dist.t)) : list File.t :=
  match recipe with
  | [] => []
  | (ext, d) :: rest =>
      {| File.name := uuid4 u +:+ ext; File.link := link;
         File.size :=
           int_of_float
             (factor * generate_rvs r (Dist.distribution d) (Dist.min d)
                         (Dist.max d)) |}
      :: fresh_files generate_rvs uuid4 factor link (S r) (S u) rest
  end.

(** Their names: the successive tokens, each followed by its extension. *)
Fixpoint fresh_names (uuid4 : nat → string) (u : nat)
    (recipe : list (string * Dist.t)) : list string :=
  match recipe with
  | [] => []
  | (ext, _) :: rest => (uuid4 u +:+ ext) :: fresh_names uuid4 (S u) rest
  end.



(** A string without underscore, as a string of decimal digits is. *)
Definition no_underscore (s : string) : Prop :=
  PyStr.contains_char "_"%char s = false.

(** [_generate_task_name] followed by [_generate_task] on the name, as a
    recipe creates its tasks. *)
Definition generate_named_task (generate_rvs : nat → string → Q → Q → Q)
    (_workflow_recipe : gmap string Recipe.t) (prefix category : string)
  : M Task.t :=
  n <- _generate_task_name prefix ;;
  _generate_task generate_rvs _workflow_recipe category n.



Definition demo_files_again : Engine :=
  exec (_generate_task_files (const_rvs 5) demo_uuid4 demo_table 2 demo_child)
    demo_files.

(** The [files] attribute of every registered task holds either the list
    tracked for the task or an empty list that no task is tracked by (the
    list the task was created with). *)
Definition files_attribute_ok (s : Engine) : Prop :=
  ∀ k t, tasks_map s !! k = Some t →
    ∃ c, slots s !! Task.files t = Some c ∧
      (tasks_files s !! k = Some c ∨
       (lists s !! c = Some [] ∧ ∀ k', tasks_files s !! k' ≠ Some c)).

(** ** The sysbench wrapper

    A shallow embedding of [main] of [wfcommons/wfperf/wfperf_benchmark.py].
    What the script does to the outside world is recorded as a trace of
    actions, in the order of the calls: the renamings ([path.rename], of
    the file of that name in the directory globbed, to
    [path.parent.joinpath(target)]) and the processes started
    ([subprocess.Popen], with the name, in [save_dir], of the file its
    output goes to).  What the outside world answers is an argument of the model:
    the pair [(args.name, other)] that [parse_known_args] returns, the
    names that each of the two [glob("*test_file*")] calls yields, and
    [str(pathlib.Path(x))].  Failures of the file system and of the
    processes ([open], [rename] and [Popen] raising [OSError]) are not
    modelled: what is proved of a run that reaches its end, and of a run
    that stops before its first action on the outside world, holds of the
    script; a run of the script may also stop at any such action. *)

Module Benchmark.

(** [needle in s] on strings. *)
Fixpoint contains (needle s : string) : bool :=
  match s with
  | EmptyString => String.prefix needle EmptyString
  | String _ s' => String.prefix needle s || contains needle s'
  end.

(** [s.split(sep, 1)] for a non-empty separator that occurs in [s]: the
    text before the first occurrence and the text after it. *)
Fixpoint split_once_go (sep before s : string) : option (string * string) :=
  match s with
  | EmptyString => None
  | String c s' =>
      if String.prefix sep s
      then Some (before, PyStr.drop (String.length sep) s)
      else split_once_go sep (before +:+ String c EmptyString) s'
  end.

Definition split_once (sep s : string) : option (string * string) :=
  split_once_go sep EmptyString s.

(** [l.remove(x)]: the first element equal to [x] goes; [None] stands for
    the [ValueError] raised when there is none. *)
Fixpoint remove_first (x : string) (l : list string) : option (list string) :=
  match l with
  | [] => None
  | y :: l' =>
      if decide (y = x) then Some l' else cons y <$> remove_first x l'
  end.

Inductive action :=
  | Rename (old target : string)
  | Popen (out : string) (argv : list string).

Section Main.

(** [str(pathlib.Path(x))]. *)
Variable path_str : string → string.

(** [save_dir]: the text after the first ['='] of the first extra argument
    that contains ['save']. *)
Definition save_dir_of (other : list string) : exn + string :=
  match filter (λ item, contains "save" item = true) other with
  | [] => inl IndexError
  | item :: _ =>
      match PyStr.split "=" item !! 1%nat with
      | None => inl IndexError
      | Some d => inr (path_str d)
      end
  end.

(** The first loop: each file of [save_dir] whose name contains
    ['test_file'] loses what precedes it in its name. *)
Fixpoint strip_names (names : list string) : list action * option exn :=
  match names with
  | [] => ([], None)
  | n :: rest =>
      match split_once "test_file" n with
      | None =>
          ([], Some (ValueError
                       "not enough values to unpack (expected 2, got 1)"))
      | Some (_, r) =>
          let '(acts, e) := strip_names rest in
          (Rename n ("test_file" +:+ r) :: acts, e)
      end
  end.

(** [sysbench_file_input_args] after the [remove]. *)
Definition file_input_args (other : list string) : exn + list string :=
  let file_args := filter (λ arg, String.prefix "--file" arg = true) other in
  match filter (λ item, contains "num" item = true) file_args with
  | [] => inl IndexError
  | r :: _ =>
      match remove_first r file_args with
      | None => inl (ValueError "list.remove(x): x not in list")
      | Some l => inr l
      end
  end.

(** The five processes, each with the file that receives its output. *)
Definition commands (name : string) (other input_args : list string)
  : list action :=
  [ Popen (name +:+ "_fileio_run.txt")
      (["sysbench"; "fileio"] ++ input_args ++ ["run"]);
    Popen (name +:+ "_fileio_cleanup.txt")
      (["sysbench"; "fileio"] ++ input_args ++ ["cleanup"]);
    Popen (name +:+ "_cpu.txt")
      (["sysbench"; "cpu"; "run"] ++
       filter (λ arg, String.prefix "--cpu" arg = true) other);
    Popen (name +:+ "_memory.txt")
      (["sysbench"; "memory"; "run"] ++
       filter (λ arg, String.prefix "--memory" arg = true) other);
    Popen (name +:+ "_fileio_output.txt")
      (["sysbench"; "fileio"] ++
       filter (λ arg, String.prefix "--file" arg = true) other ++
       ["prepare"]) ].

(** The last loop: the test files of the directory of the script go to
    [save_dir], prefixed with the task name. *)
Definition save_names (save_dir name : string) (names : list string)
  : list action :=
  (λ n, Rename n (save_dir +:+ "/" +:+ name +:+ "_" +:+ n)) <$> names.

(** [main]: the actions performed and the exception that ended the run, if
    any.  [saved] and [here] are the names the two [glob] calls yield. *)
Definition main (name : string) (other saved here : list string)
  : list action * option exn :=
  match save_dir_of other with
  | inl e => ([], Some e)
  | inr save_dir =>
      match strip_names saved with
      | (acts, Some e) => (acts, Some e)
      | (acts, None) =>
          match file_input_args other with
          | inl e => (acts, Some e)
          | inr input_args =>
              (acts ++ commands name other input_args ++
                 save_names save_dir name here, None)
          end
      end
  end.

End Main.

(** The processes of a trace. *)
Definition popens (acts : list action) : list (string * list string) :=
  omap (λ a, match a with
             | Popen out argv => Some (out, argv)
             | Rename _ _ => None
             end) acts.

End Benchmark.

(** A command line of the wrapper and the trace of its run. *)
Definition benchmark_other : list string :=
  ["--save-dir=/tmp/out"; "--file-num=4"; "--file-total-size=1G";
   "--cpu-max-prime=100"].

Definition benchmark_trace : list Benchmark.action :=
  [ Benchmark.Rename "x_test_file.0" "test_file.0";
    Benchmark.Popen "t1_fileio_run.txt"
      ["sysbench"; "fileio"; "--file-total-size=1G"; "run"];
    Benchmark.Popen "t1_fileio_cleanup.txt"
      ["sysbench"; "fileio"; "--file-total-size=1G"; "cleanup"];
    Benchmark.Popen "t1_cpu.txt"
      ["sysbench"; "cpu"; "run"; "--cpu-max-prime=100"];
    Benchmark.Popen "t1_memory.txt" ["sysbench"; "memory"; "run"];
    Benchmark.Popen "t1_fileio_output.txt"
      ["sysbench"; "fileio"; "--file-num=4"; "--file-total-size=1G";
       "prepare"];
    Benchmark.Rename "test_file.1" "/tmp/out/t1_test_file.1" ].

(** ** [_generate_file] on binary64 floats

    [self.input_file_size_factor], [self.output_file_size_factor] and the
    value returned by [generate_rvs] are Python [float]s, that is IEEE 754
    binary64 values; their product is the correctly rounded double and
    [int] is applied to that double.  This module embeds lines 271-277 on
    Rocq's primitive binary64 floats.  The part of [self] that the method
    reads is the two factors; the two counters say how many samples and
    tokens have been drawn from the outside world. *)

Module Float64.

(** The exact value of a finite double, as the rational [m * 2^e]. *)
Definition exact_value (x : float) : option Q :=
  match Prim2SF x with
  | S754_zero _ => Some (0 # 1)
  | S754_finite sign m e =>
      let magnitude :=
        match e with
        | Z0 => Zpos m # 1
        | Zpos p => (Zpos m * 2 ^ Zpos p) # 1
        | Zneg p => Zpos m # (2 ^ p)
        end in
      Some (if sign then - magnitude else magnitude)%Q
  | S754_infinity _ | S754_nan => None
  end.

(** [int(x)] on a double: the integer part of its exact value, the
    fraction being dropped (so [-0.5] goes to [0]); [OverflowError] on an
    infinity and [ValueError] on a NaN. *)
Definition int_of_double (x : float) : exn + Z :=
  match Prim2SF x with
  | S754_zero _ => inr 0%Z
  | S754_finite sign m e =>
      let magnitude := Z.shiftl (Zpos m) e in
      inr (if sign then - magnitude else magnitude)%Z
  | S754_infinity _ => inl OverflowError
  | S754_nan => inl (ValueError "cannot convert float NaN to integer")
  end.

Record Self := mkSelf {
  input_file_size_factor : float;
  output_file_size_factor : float;
  rvs_drawn : nat;
  uuid_drawn : nat;
}.

Section GenerateFile.

Variable generate_rvs : nat → string → Q → Q → float.
Variable uuid4 : nat → string.

(** Lines 271-274: the factor is chosen, [recipe[extension]] is looked up
    and the sampler is called, in this order; the product is a double. *)
Definition size_factor (self : Self) (link : FileLink) : float :=
  match link with
  | INPUT => input_file_size_factor self
  | OUTPUT => output_file_size_factor self
  end.

Definition next_sample (self : Self) (d : Dist.t) : float :=
  generate_rvs (rvs_drawn self) (Dist.distribution d) (Dist.min d) (Dist.max d).

(** The state after one sample and one token have been drawn. *)
Definition drawn (self : Self) : Self :=
  mkSelf (input_file_size_factor self) (output_file_size_factor self)
         (S (rvs_drawn self)) (S (uuid_drawn self)).

Definition _generate_file (extension : string)
    (recipe : list (string * Dist.t)) (link : FileLink) (self : Self)
  : exn + (File.t * Self) :=
  let factor := size_factor self link in
  match assoc recipe extension with
  | None => inl (KeyError FileRecipe extension)
  | Some d =>
      let x := next_sample self d in
      match int_of_double (PrimFloat.mul factor x) with
      | inl e => inl e
      | inr size =>
          inr ({| File.name := uuid4 (uuid_drawn self) +:+ extension;
                  File.link := link;
                  File.size := size |},
               drawn self)
      end
  end.

End GenerateFile.

(** Doubles used in the examples: [0.3333333333333333], [4.7], [1e200] and
    [-0.5]. *)
Definition third : float := 0x1.5555555555555p-2%float.
Definition four_point_seven : float := 0x1.2cccccccccccdp+2%float.
Definition ten_to_200 : float := 0x1.4e718d7d7625ap+664%float.
Definition minus_half : float := (-0x1p-1)%float.

Definition demo_self : Self := mkSelf 3%float 2%float 0 0.

Definition const_sampler (x : float) : nat → string → Q → Q → float :=
  λ _ _ _ _, x.

End Float64.

(** ** A uuid source that repeats a token

    Nothing in the engine checks that two draws of [uuid.uuid4()] differ.
    The objects below assemble a small workflow on a source that returns
    the same token at every draw. *)

Definition same_uuid4 : nat → string := λ _, "same".







Example split_task_name :
  PyStr.split "_0" "task_00000001" = ["task"; "0000001"].
Proof. reflexivity. Qed.

Example split_two_seps : PyStr.split "_0" "a_0b_0c" = ["a"; "b"; "c"].
Proof. reflexivity. Qed.

Example split_no_sep : PyStr.split "_0" "task_1" = ["task_1"].
Proof. reflexivity. Qed.

Example splitext_simple : PyStr.splitext_ext "ab-cd.txt" = ".txt".
Proof. reflexivity. Qed.

Example splitext_two_dots : PyStr.splitext_ext "ab-cd.tar.gz" = ".gz".
Proof. reflexivity. Qed.

Example splitext_leading_dot : PyStr.splitext_ext ".bashrc" = "".
Proof. reflexivity. Qed.

Example splitext_slash : PyStr.splitext_ext "a.b/c" = "".
Proof. reflexivity. Qed.

Example format_08d_1 : PyStr.format_08d 1 = "00000001".
Proof. reflexivity. Qed.

Example format_08d_big : PyStr.format_08d 123456789 = "123456789".
Proof. reflexivity. Qed.

Example format_08d_neg : PyStr.format_08d (-5) = "-0000005".
Proof. reflexivity. Qed.

(** ** Construction *)


Lemma Qle_bool_false_lt (x : Q) : Qle_bool x 0 = false → (0 < x)%Q.
Proof.
  intros H. apply Qnot_le_lt. intros Hle.
  apply Qle_bool_iff in Hle. congruence.
Qed.

Lemma Qlt_Qle_bool_false (x : Q) : (0 < x)%Q → Qle_bool x 0 = false.
Proof.
  intros H. destruct (Qle_bool x 0) eqn:E; [|done].
  apply Qle_bool_iff in E. exfalso. exact (Qlt_not_le _ _ H E).
Qed.

Lemma Qle_lt_absurd (x : Q) : (x <= 0)%Q → (0 < x)%Q → False.
Proof. intros H1 H2. exact (Qlt_not_le _ _ H2 H1). Qed.

(** C5. [__init__] raises [ValueError] exactly when one of the three
    factors is at most 0.0, and then no engine exists (the checks precede
    every attribute assignment); with the three factors above 0.0 it
    succeeds and leaves the fresh engine. *)
Theorem init_validates_factors (name : string) (df nt : option Z)
    (rf inf outf : Q) :
  ((rf <= 0 ∨ inf <= 0 ∨ outf <= 0)%Q ↔
     ∃ msg, __init__ name df nt rf inf outf = inl (ValueError msg)) ∧
  ((0 < rf ∧ 0 < inf ∧ 0 < outf)%Q ↔
     __init__ name df nt rf inf outf =
       inr (fresh_engine name df nt rf inf outf)) ∧
  (∀ e, __init__ name df nt rf inf outf = inl e → ∃ msg, e = ValueError msg).
Proof.
  unfold __init__, fresh_engine.
  destruct (Qle_bool rf 0) eqn:E1;
    [|destruct (Qle_bool inf 0) eqn:E2;
      [|destruct (Qle_bool outf 0) eqn:E3]].
  - apply Qle_bool_iff in E1. split_and!.
    + split; eauto.
    + split; [|done]. intros (H & _ & _). exfalso. by eapply Qle_lt_absurd.
    + intros e [= <-]. eauto.
  - apply Qle_bool_iff in E2. split_and!.
    + split; eauto.
    + split; [|done]. intros (_ & H & _). exfalso. by eapply Qle_lt_absurd.
    + intros e [= <-]. eauto.
  - apply Qle_bool_iff in E3. split_and!.
    + split; eauto.
    + split; [|done]. intros (_ & _ & H). exfalso. by eapply Qle_lt_absurd.
    + intros e [= <-]. eauto.
  - apply Qle_bool_false_lt in E1, E2, E3. split_and!.
    + split.
      * intros [H|[H|H]]; exfalso; eapply Qle_lt_absurd; eassumption.
      * intros [msg [=]].
    + split; [done|]. auto.
    + intros e [=].
Qed.

Example init_rejects_zero :
  __init__ "wf" None (Some 10%Z) 0 1 1 =
    inl (ValueError "The runtime factor should be a number higher than 0.0.").
Proof. reflexivity. Qed.

Example init_rejects_negative_output :
  __init__ "wf" None (Some 10%Z) 1 1 (-1 # 2) =
    inl (ValueError
           "The output file size factor should be a number higher than 0.0.").
Proof. reflexivity. Qed.

Example init_accepts_half_and_two :
  __init__ "wf" None (Some 10%Z) (1 # 2) 2 2 =
    inr (fresh_engine "wf" None (Some 10%Z) (1 # 2) 2 2).
Proof. reflexivity. Qed.

(** ** Single file generation *)

Section FileGeneration.

Variable generate_rvs : nat → string → Q → Q → Q.
Variable uuid4 : nat → string.



Lemma generate_file_eq extension recipe link d s :
  assoc recipe extension = Some d →
  _generate_file generate_rvs uuid4 extension recipe link s =
    Ok {| File.name := uuid4 (uuid_drawn s) +:+ extension;
          File.link := link;
          File.size := int_of_float (size_factor s link * next_sample generate_rvs s d) |}
       (set_uuid_drawn (S (uuid_drawn s)) (set_rvs_drawn (S (rvs_drawn s)) s)).
Proof.
  intros H. unfold _generate_file, bind, get. rewrite H.
  destruct link; reflexivity.
Qed.

(** [int] truncates toward zero: the result lies between zero and the
    argument, less than one away from it. *)
Lemma int_of_float_nonneg (x : Q) :
  (0 <= x)%Q →
  (0 ≤ int_of_float x)%Z ∧
  (inject_Z (int_of_float x) <= x)%Q ∧ (x < inject_Z (int_of_float x + 1))%Q.
Proof.
  destruct x as [n d]. unfold Qle, Qlt, int_of_float, inject_Z. simpl.
  intros Hn. rewrite Z.mul_1_r in Hn.
  assert (Hd : (0 < Z.pos d)%Z) by lia.
  rewrite Z.quot_div_nonneg by lia.
  pose proof (Z.div_pos n (Z.pos d) Hn Hd).
  pose proof (Z.mul_div_le n (Z.pos d) Hd).
  pose proof (Z.mul_succ_div_gt n (Z.pos d) Hd).
  split_and!; [lia|lia|]. rewrite Z.mul_1_r. lia.
Qed.

Lemma int_of_float_nonpos (x : Q) :
  (x <= 0)%Q →
  (int_of_float x ≤ 0)%Z ∧
  (x <= inject_Z (int_of_float x))%Q ∧ (inject_Z (int_of_float x - 1) < x)%Q.
Proof.
  destruct x as [n d]. unfold Qle, Qlt, int_of_float, inject_Z. simpl.
  intros Hn. rewrite Z.mul_1_r in Hn.
  assert (Hd : (0 < Z.pos d)%Z) by lia.
  replace n with (- (- n))%Z by lia.
  rewrite Z.quot_opp_l by lia.
  rewrite Z.quot_div_nonneg by lia.
  assert (Hn' : (0 ≤ - n)%Z) by lia.
  pose proof (Z.div_pos (- n) (Z.pos d) Hn' Hd).
  pose proof (Z.mul_div_le (- n) (Z.pos d) Hd).
  pose proof (Z.mul_succ_div_gt (- n) (Z.pos d) Hd).
  split_and!; [lia|rewrite Z.mul_1_r; lia|rewrite Z.mul_1_r; lia].
Qed.

(** The size of a generated file is negative exactly when the scaled sample
    is at most [-1]. *)
Lemma int_of_float_neg_iff (x : Q) :
  (int_of_float x < 0)%Z ↔ (x <= inject_Z (-1))%Q.
Proof.
  destruct (Qlt_le_dec x 0) as [Hneg|Hpos].
  - destruct (int_of_float_nonpos x) as (H1 & H2 & H3); [by apply Qlt_le_weak|].
    split.
    + intros Hlt. eapply Qle_trans; [exact H2|].
      rewrite <- Zle_Qle. lia.
    + intros Hle. destruct (Z.eq_dec (int_of_float x) 0%Z) as [E|]; [|lia].
      rewrite E in H3. simpl in H3. exfalso.
      eapply Qlt_not_le; [exact H3|]. exact Hle.
  - destruct (int_of_float_nonneg x Hpos) as (H1 & _).
    split; [lia|]. intros Hle. exfalso.
    eapply (Qlt_not_le (inject_Z (-1)) 0); [reflexivity|].
    eapply Qle_trans; eauto.
Qed.

(** The sign of a generated size is that of the sample: with the factor
    positive (as the constructor guarantees) the size is non-negative
    exactly when [factor * S > -1], in particular whenever the sampler
    returns a non-negative value. *)
Lemma generate_file_size_sign extension recipe link d s f s' :
  (0 < size_factor s link)%Q →
  assoc recipe extension = Some d →
  _generate_file generate_rvs uuid4 extension recipe link s = Ok f s' →
  ((0 ≤ File.size f)%Z ↔
     (inject_Z (-1) < size_factor s link * next_sample generate_rvs s d)%Q) ∧
  ((0 <= next_sample generate_rvs s d)%Q → (0 ≤ File.size f)%Z).
Proof.
  intros Hf Hd Hrun. rewrite (generate_file_eq _ _ _ _ _ Hd) in Hrun.
  injection Hrun as <- <-. simpl.
  set (x := (size_factor s link * next_sample generate_rvs s d)%Q).
  pose proof (int_of_float_neg_iff x) as Hiff.
  split.
  - split.
    + intros Hge. apply Qnot_le_lt. intros Hle. apply Hiff in Hle. lia.
    + intros Hlt. destruct (Z_lt_le_dec (int_of_float x) 0%Z) as [Hn|]; [|done].
      apply Hiff in Hn. exfalso. eapply Qlt_not_le; eauto.
  - intros Hs. apply int_of_float_nonneg. subst x.
    apply Qmult_le_0_compat; [by apply Qlt_le_weak|done].
Qed.

End FileGeneration.

(** ** The size of a generated file, on binary64 floats *)



Section GenerateFileFloat64.

Variable generate_rvs : nat → string → Q → Q → float.
Variable uuid4 : nat → string.


(** An extension that is not a key of the recipe raises [KeyError] before
    the sampler is called. *)
Lemma generate_file_key_error extension recipe link self :
  assoc recipe extension = None →
  Float64._generate_file generate_rvs uuid4 extension recipe link self =
    inl (KeyError FileRecipe extension).
Proof. intros H. unfold Float64._generate_file. rewrite H. reflexivity. Qed.

End GenerateFileFloat64.

(** [3.0 * 0.3333333333333333] is the double [1.0], so the size is [1]; the
    exact product of the two values is below one. *)
Example generate_file_rounded_product :
  Float64._generate_file (Float64.const_sampler Float64.third) demo_uuid4 ".txt"
    [(".txt", demo_dist)] INPUT Float64.demo_self =
  inr ({| File.name := "-.txt"; File.link := INPUT; File.size := 1 |},
       Float64.drawn Float64.demo_self).
Proof. vm_compute. reflexivity. Qed.

Example third_exact_product_below_one :
  ∃ q, Float64.exact_value Float64.third = Some q ∧ (3 * q < 1)%Q ∧ int_of_float (3 * q) = 0%Z.
Proof. eexists. split; [vm_compute; reflexivity|]. split; reflexivity. Qed.

(** The exact values of [-0.5] and of [4.7], the latter being the double
    nearest to 47/10. *)
Example exact_value_minus_half :
  ∃ q, Float64.exact_value Float64.minus_half = Some q ∧ (q == - (1 # 2))%Q.
Proof. eexists. split; [vm_compute; reflexivity|reflexivity]. Qed.

Example exact_value_four_point_seven :
  ∃ q, Float64.exact_value Float64.four_point_seven = Some q ∧
       (q == 5291729562160333 # 1125899906842624)%Q ∧
       (47 # 10 < q)%Q ∧ (q < (47 # 10) + (1 # 1000000000000000))%Q.
Proof.
  eexists. split; [vm_compute; reflexivity|].
  split_and!; reflexivity.
Qed.

(** [2.0 * 4.7] is [9.4]: the fraction is dropped. *)
Example generate_file_drops_fraction :
  Float64._generate_file (Float64.const_sampler Float64.four_point_seven) demo_uuid4 ".dat"
    [(".dat", demo_dist)] OUTPUT Float64.demo_self =
  inr ({| File.name := "-.dat"; File.link := OUTPUT; File.size := 9 |},
       Float64.drawn Float64.demo_self).
Proof. vm_compute. reflexivity. Qed.

(** [3.0 * -0.5] is [-1.5]: truncation is toward zero. *)
Example generate_file_truncates_toward_zero :
  Float64._generate_file (Float64.const_sampler Float64.minus_half) demo_uuid4 ".txt"
    [(".txt", demo_dist)] INPUT Float64.demo_self =
  inr ({| File.name := "-.txt"; File.link := INPUT; File.size := -1 |},
       Float64.drawn Float64.demo_self).
Proof. vm_compute. reflexivity. Qed.

(** [1e200 * 1e200] overflows to an infinity, on which [int] raises. *)
Example generate_file_overflow :
  Float64._generate_file (Float64.const_sampler Float64.ten_to_200) demo_uuid4 ".txt"
    [(".txt", demo_dist)] INPUT (Float64.mkSelf Float64.ten_to_200 1%float 0 0) =
  inl OverflowError.
Proof. vm_compute. reflexivity. Qed.

Example generate_file_nan :
  Float64._generate_file (Float64.const_sampler PrimFloat.nan) demo_uuid4 ".txt"
    [(".txt", demo_dist)] INPUT Float64.demo_self =
  inl (ValueError "cannot convert float NaN to integer").
Proof. vm_compute. reflexivity. Qed.

(** ** Facts about the string primitives *)

Section DecimalFormat.

Local Open Scope N_scope.

Lemma digit_value_digit_char (d : N) : d < 10 → digit_value (PyStr.digit_char d) = d.
Proof.
  intros H. unfold digit_value, PyStr.digit_char.
  rewrite N_ascii_embedding by lia. lia.
Qed.

Lemma length_zeros (k : nat) : String.length (PyStr.zeros k) = k.
Proof. induction k; simpl; congruence. Qed.

Lemma string_length_app (a b : string) :
  String.length (a +:+ b) = (String.length a + String.length b)%nat.
Proof. induction a; simpl; [reflexivity|congruence]. Qed.

Lemma decimal_value_zeros (k : nat) (s : string) :
  decimal_value (PyStr.zeros k +:+ s) = decimal_value s.
Proof.
  induction k as [|k IH]; simpl; [done|].
  rewrite IH. unfold digit_value. simpl. lia.
Qed.

Lemma decimal_value_digits_go (f : nat) : ∀ (n : N) (acc : string),
  n < 2 ^ N.of_nat f →
  decimal_value (PyStr.digits_go f n acc) =
    n * 10 ^ N.of_nat (String.length acc) + decimal_value acc.
Proof.
  induction f as [|f IH]; intros n acc Hn.
  - simpl in *. assert (n = 0) as -> by lia. lia.
  - simpl PyStr.digits_go.
    assert (Hmod : n mod 10 < 10) by (apply N.mod_lt; lia).
    destruct (N.ltb_spec n 10) as [Hlt|Hge].
    + simpl. rewrite digit_value_digit_char by done.
      rewrite N.mod_small by done. done.
    + rewrite IH.
      * simpl. rewrite digit_value_digit_char by done.
        rewrite Nat2N.inj_succ, N.pow_succ_r'.
        pose proof (N.div_mod n 10 ltac:(lia)) as Hdm.
        set (p := 10 ^ N.of_nat (String.length acc)) in *.
        set (q := n / 10) in *. set (r := n mod 10) in *.
        clearbody p q r. rewrite Hdm. ring.
      * rewrite Nat2N.inj_succ, N.pow_succ_r' in Hn.
        apply N.Div0.div_lt_upper_bound. lia.
Qed.

Lemma lt_pow2_succ_log2 (n : N) : n < 2 ^ N.of_nat (S (N.to_nat (N.log2 n))).
Proof.
  rewrite Nat2N.inj_succ, N2Nat.id.
  destruct (N.eq_dec n 0) as [->|Hn]; [done|].
  apply N.log2_spec. lia.
Qed.

Lemma decimal_value_digits (n : N) : decimal_value (PyStr.digits n) = n.
Proof.
  unfold PyStr.digits. rewrite decimal_value_digits_go by apply lt_pow2_succ_log2.
  simpl. lia.
Qed.

Lemma pow10_pos (k : nat) : 0 < 10 ^ N.of_nat k.
Proof. pose proof (N.pow_nonzero 10 (N.of_nat k)). lia. Qed.

Lemma length_digits_go_le (f : nat) : ∀ (k : nat) (n : N) (acc : string),
  n < 10 ^ N.of_nat (S k) →
  (String.length (PyStr.digits_go f n acc) ≤ S k + String.length acc)%nat.
Proof.
  induction f as [|f IH]; intros k n acc Hn; simpl; [lia|].
  destruct (N.ltb_spec n 10) as [Hlt|Hge]; simpl; [lia|].
  destruct k as [|k].
  - simpl in Hn. lia.
  - etrans; [apply (IH k)|simpl; lia].
    rewrite Nat2N.inj_succ, N.pow_succ_r' in Hn.
    apply N.Div0.div_lt_upper_bound. lia.
Qed.

Lemma length_digits_go_ge (f : nat) : ∀ (k : nat) (n : N) (acc : string),
  n < 2 ^ N.of_nat f → 10 ^ N.of_nat k ≤ n →
  (S k + String.length acc ≤ String.length (PyStr.digits_go f n acc))%nat.
Proof.
  induction f as [|f IH]; intros k n acc Hf Hn.
  - simpl in Hf. pose proof (pow10_pos k). lia.
  - simpl PyStr.digits_go.
    assert (Hdiv : n / 10 < 2 ^ N.of_nat f).
    { rewrite Nat2N.inj_succ, N.pow_succ_r' in Hf.
      apply N.Div0.div_lt_upper_bound. lia. }
    destruct (N.ltb_spec n 10) as [Hlt|Hge].
    + destruct k as [|k]; [simpl; lia|].
      rewrite Nat2N.inj_succ, N.pow_succ_r' in Hn.
      pose proof (pow10_pos k). lia.
    + destruct k as [|k].
      * etrans; [|apply (IH 0%nat); [done|]].
        -- simpl. lia.
        -- simpl. apply N.div_le_lower_bound; lia.
      * etrans; [|apply (IH k); [done|]].
        -- simpl. lia.
        -- rewrite Nat2N.inj_succ, N.pow_succ_r' in Hn.
           apply N.div_le_lower_bound; lia.
Qed.

Lemma length_digits_le (k : nat) (n : N) :
  n < 10 ^ N.of_nat (S k) → (String.length (PyStr.digits n) ≤ S k)%nat.
Proof.
  intros H. unfold PyStr.digits.
  etrans; [by apply length_digits_go_le|]. simpl. lia.
Qed.

Lemma length_digits_ge (k : nat) (n : N) :
  10 ^ N.of_nat k ≤ n → (S k ≤ String.length (PyStr.digits n))%nat.
Proof.
  intros H. unfold PyStr.digits.
  etrans; [|apply length_digits_go_ge; [apply lt_pow2_succ_log2|exact H]].
  simpl. lia.
Qed.

(** ["{:08d}"] on a non-negative counter: the digits of the number, filled
    with zeros on the left up to eight characters, never cut. *)
Lemma format_08d_nonneg (n : Z) :
  (0 ≤ n)%Z →
  decimal_value (PyStr.format_08d n) = Z.to_N n ∧
  ((n < 10 ^ 8)%Z → String.length (PyStr.format_08d n) = 8%nat) ∧
  ((10 ^ 8 ≤ n)%Z →
     PyStr.format_08d n = PyStr.digits (Z.to_N n) ∧
     (9 ≤ String.length (PyStr.format_08d n))%nat).
Proof.
  intros Hn. unfold PyStr.format_08d.
  destruct (Z.ltb_spec n 0) as [?|_]; [lia|]. simpl.
  split_and!.
  - rewrite decimal_value_zeros. apply decimal_value_digits.
  - intros Hlt. rewrite string_length_app, length_zeros.
    assert (Hle : (String.length (PyStr.digits (Z.to_N n)) ≤ 8)%nat).
    { apply length_digits_le. change (10 ^ N.of_nat 8) with 100000000.
      change (10 ^ 8)%Z with 100000000%Z in Hlt. lia. }
    lia.
  - intros Hge.
    assert (Hle : (9 ≤ String.length (PyStr.digits (Z.to_N n)))%nat).
    { apply length_digits_ge. change (10 ^ N.of_nat 8) with 100000000.
      change (10 ^ 8)%Z with 100000000%Z in Hge. lia. }
    replace (8 - String.length (PyStr.digits (Z.to_N n)))%nat with 0%nat by lia.
    split; [reflexivity|exact Hle].
Qed.

End DecimalFormat.

(** ** What [splitext] returns for a token followed by an extension *)

Section ExtensionFacts.

Lemma contains_char_app c a b :
  PyStr.contains_char c (a +:+ b) =
    PyStr.contains_char c a || PyStr.contains_char c b.
Proof.
  induction a as [|x a IH]; [reflexivity|].
  change (String x a +:+ b) with (String x (a +:+ b)).
  cbn [PyStr.contains_char]. rewrite IH. by destruct (Ascii.eqb c x).
Qed.

Lemma basename_go_no_slash p : ∀ cur,
  PyStr.contains_char "/"%char p = false → PyStr.basename_go cur p = cur.
Proof.
  induction p as [|c p IH]; intros cur H; [reflexivity|].
  cbn [PyStr.contains_char PyStr.basename_go] in *.
  rewrite Ascii.eqb_sym. destruct (Ascii.eqb "/"%char c); [done|]. by apply IH.
Qed.

Lemma last_dot_suffix_no_dot s :
  PyStr.contains_char "."%char s = false → PyStr.last_dot_suffix s = None.
Proof.
  induction s as [|c s IH]; [reflexivity|].
  cbn [PyStr.contains_char PyStr.last_dot_suffix].
  rewrite (Ascii.eqb_sym c). destruct (Ascii.eqb "."%char c); [done|].
  intros H. by rewrite IH.
Qed.

Lemma last_dot_suffix_app t e x :
  PyStr.last_dot_suffix e = Some x → PyStr.last_dot_suffix (t +:+ e) = Some x.
Proof.
  intros H. induction t as [|c t IH]; [done|].
  change (String c t +:+ e) with (String c (t +:+ e)).
  cbn [PyStr.last_dot_suffix]. by rewrite IH.
Qed.

Lemma substring_app_prefix t e :
  String.substring 0 (String.length t) (t +:+ e) = t.
Proof.
  induction t as [|c t IH]; [by destruct e|].
  change (String c t +:+ e) with (String c (t +:+ e)).
  cbn [String.length String.substring]. by rewrite IH.
Qed.

Lemma length_app_sub t e :
  (String.length (t +:+ e) - String.length e = String.length t)%nat.
Proof. rewrite string_length_app. lia. Qed.

(** A simple extension after a plain token is what the scan finds. *)
Lemma simple_extension_recognised uuid4 ext :
  (∀ i, plain_token (uuid4 i) = true) →
  simple_extension ext = true → recognised uuid4 ext.
Proof.
  intros Htok Hext i lk sz. specialize (Htok i).
  destruct ext as [|c rest]; [done|]. cbn [simple_extension] in Hext.
  apply andb_prop in Hext as [Hext Hslash].
  apply andb_prop in Hext as [Hc Hdot].
  apply Ascii.eqb_eq in Hc as ->.
  apply negb_true_iff in Hslash, Hdot.
  destruct (uuid4 i) as [|x t] eqn:Ht; [done|]. cbn [plain_token] in Htok.
  apply andb_prop in Htok as [Htd Hts].
  apply negb_true_iff in Htd, Hts.
  unfold file_extension. cbn [File.name].
  set (e := String "."%char rest). set (tok := String x t) in *.
  assert (Hhas : PyStr.contains_char "."%char (tok +:+ e) = true).
  { rewrite contains_char_app. subst e. cbn [PyStr.contains_char].
    by rewrite orb_true_r. }
  rewrite Hhas. unfold PyStr.splitext_ext, PyStr.basename.
  rewrite basename_go_no_slash.
  2:{ rewrite contains_char_app, Hts. subst e. cbn [PyStr.contains_char].
      by rewrite Hslash. }
  assert (He : PyStr.last_dot_suffix e = Some e).
  { subst e. cbn [PyStr.last_dot_suffix].
    by rewrite (last_dot_suffix_no_dot _ Hdot). }
  rewrite (last_dot_suffix_app tok _ _ He).
  cbv zeta. rewrite length_app_sub, substring_app_prefix.
  subst tok. cbn [PyStr.all_dots]. cbn [PyStr.contains_char] in Htd.
  rewrite (Ascii.eqb_sym x). by destruct (Ascii.eqb "."%char x).
Qed.

End ExtensionFacts.

(** ** Task names and task identifiers *)

Lemma set_task_id_counter_twice (a b : Z) (s : Engine) :
  set_task_id_counter a (set_task_id_counter b s) = set_task_id_counter a s.
Proof. reflexivity. Qed.

Lemma set_task_id_counter_same (s : Engine) :
  set_task_id_counter (task_id_counter s) s = s.
Proof. by destruct s. Qed.

Lemma generate_task_name_eq (prefix : string) (s : Engine) :
  _generate_task_name prefix s =
    Ok (prefix +:+ "_" +:+ PyStr.format_08d (task_id_counter s))
       (set_task_id_counter (task_id_counter s + 1) s).
Proof. reflexivity. Qed.

Lemma generate_task_names_eq (prefixes : list string) : ∀ s : Engine,
  generate_task_names prefixes s =
    Ok (imap (λ i p, p +:+ "_" +:+
                     PyStr.format_08d (task_id_counter s + Z.of_nat i))
          prefixes)
       (set_task_id_counter (task_id_counter s + Z.of_nat (length prefixes)) s).
Proof.
  induction prefixes as [|p ps IH]; intros s.
  - simpl. unfold ret. f_equal.
    rewrite Z.add_0_r. by rewrite set_task_id_counter_same.
  - cbn [generate_task_names]. unfold bind at 1.
    rewrite generate_task_name_eq. unfold bind at 1. rewrite IH.
    unfold ret. cbn [imap length]. f_equal.
    + f_equal; [by rewrite Z.add_0_r|].
      apply imap_ext. intros i x _. simpl. do 3 f_equal. lia.
    + rewrite set_task_id_counter_twice. f_equal. simpl. lia.
Qed.

(** C9, as the code has it.  On an engine whose counter is 1 (a fresh one),
    successive calls of [_generate_task_name], whatever the prefixes, return
    for the [k]-th call the prefix, an underscore and the decimal digits of
    [k] filled with zeros to at least eight characters: exactly eight while
    [k < 10^8], and the unpadded digits (nine or more) from the [10^8]-th
    call on.  The numbers come from the one counter of the engine, which
    ends at one plus the number of calls, so the suffixes of two different
    calls differ. *)
Theorem task_names_follow_counter (prefixes : list string) (e : Engine) :
  task_id_counter e = 1%Z →
  ∃ names e',
    generate_task_names prefixes e = Ok names e' ∧
    task_id_counter e' = (1 + Z.of_nat (length prefixes))%Z ∧
    length names = length prefixes ∧
    ∀ (i : nat) (p : string), prefixes !! i = Some p →
      let k := Z.of_nat (S i) in
      names !! i = Some (p +:+ "_" +:+ PyStr.format_08d k) ∧
      decimal_value (PyStr.format_08d k) = N.of_nat (S i) ∧
      ((k < 10 ^ 8)%Z → String.length (PyStr.format_08d k) = 8%nat) ∧
      ((10 ^ 8 ≤ k)%Z →
         PyStr.format_08d k = PyStr.digits (Z.to_N k) ∧
         (9 ≤ String.length (PyStr.format_08d k))%nat) ∧
      ∀ j : nat, j ≠ i →
        PyStr.format_08d (Z.of_nat (S j)) ≠ PyStr.format_08d k.
Proof.
  intros He. eexists _, _. split; [apply generate_task_names_eq|].
  rewrite He. split_and!; [done|by rewrite length_imap|].
  intros i p Hp k.
  assert (Hdiff : ∀ j : nat, j ≠ i →
            PyStr.format_08d (Z.of_nat (S j)) ≠ PyStr.format_08d k).
  { intros j Hj Heq. apply (f_equal decimal_value) in Heq.
    destruct (format_08d_nonneg k) as (Hv & _); [subst k; lia|].
    destruct (format_08d_nonneg (Z.of_nat (S j))) as (Hw & _); [lia|].
    rewrite Hv, Hw in Heq. subst k. lia. }
  destruct (format_08d_nonneg k) as (Hv & H8 & H9); [subst k; lia|].
  split_and!; [|rewrite Hv; subst k; lia|done|done|done].
  rewrite list_lookup_imap, Hp. simpl. do 4 f_equal. subst k. lia.
Qed.

Section SplitFacts.

Lemma string_app_cons (x : ascii) (a b : string) :
  String x a +:+ b = String x (a +:+ b).
Proof. reflexivity. Qed.

Lemma string_app_nil_r (s : string) : s +:+ "" = s.
Proof.
  induction s as [|x s IH]; [reflexivity|].
  by rewrite string_app_cons, IH.
Qed.

Lemma string_app_assoc (a b c : string) : (a +:+ b) +:+ c = a +:+ b +:+ c.
Proof.
  induction a as [|x a IH]; [reflexivity|].
  by rewrite !string_app_cons, IH.
Qed.

Lemma prefix_sep_true (s : string) :
  String.prefix "_0" s = true → ∃ y, s = "_0" +:+ y.
Proof.
  destruct s as [|c [|d y]]; cbn [String.prefix]; try done.
  - by destruct (ascii_dec "_" c).
  - destruct (ascii_dec "_" c) as [<-|]; [|done].
    destruct (ascii_dec "0" d) as [<-|]; [|done]. eauto.
Qed.

Lemma prefix_sep_cons (rest : string) :
  String.prefix "_0" (String "_" (String "0" rest)) = true.
Proof. by destruct rest. Qed.

Lemma occurs_cons (c : ascii) (s : string) :
  occurs "_0" s → occurs "_0" (String c s).
Proof. intros (x & y & ->). by exists (String c x), y. Qed.

Lemma split_go_no_sep (s : string) : ∀ cur : string,
  ¬ occurs "_0" s → PyStr.split_go "_0" 0 cur s = [cur +:+ s].
Proof.
  induction s as [|c s IH]; intros cur Hno.
  - simpl. by rewrite string_app_nil_r.
  - cbn [PyStr.split_go].
    destruct (String.prefix "_0" (String c s)) eqn:Hp.
    + apply prefix_sep_true in Hp as [y Hy]. destruct Hno.
      by exists "", y.
    + rewrite IH by (intros H; apply Hno; by apply occurs_cons).
      by rewrite string_app_assoc.
Qed.

Lemma split_go_first_sep (a : string) : ∀ cur rest : string,
  ¬ occurs "_0" a →
  PyStr.split_go "_0" 0 cur (a +:+ "_0" +:+ rest) =
    (cur +:+ a) :: PyStr.split_go "_0" 0 "" rest.
Proof.
  induction a as [|c a IH]; intros cur rest Hno.
  - rewrite string_app_nil_r.
    change ("" +:+ "_0" +:+ rest) with (String "_" (String "0" rest)).
    cbn [PyStr.split_go]. rewrite prefix_sep_cons. reflexivity.
  - change (String c a +:+ "_0" +:+ rest)
      with (String c (a +:+ "_0" +:+ rest)).
    cbn [PyStr.split_go].
    destruct (String.prefix "_0" (String c (a +:+ "_0" +:+ rest))) eqn:Hp.
    + apply prefix_sep_true in Hp as [y Hy]. destruct Hno.
      destruct a as [|d a]; [by simplify_eq/=|].
      simpl in Hy. injection Hy as -> -> _. by exists "", a.
    + rewrite IH by (intros H; apply Hno; by apply occurs_cons).
      by rewrite string_app_assoc.
Qed.

Lemma split_second_piece (a m tail : string) :
  ¬ occurs "_0" a → ¬ occurs "_0" m →
  tail = "" ∨ (∃ r, tail = "_0" +:+ r) →
  PyStr.split "_0" (a +:+ "_0" +:+ m +:+ tail) !! 1%nat = Some m.
Proof.
  intros Ha Hm Htail. unfold PyStr.split.
  rewrite split_go_first_sep by done.
  destruct Htail as [->|[r ->]].
  - rewrite string_app_nil_r, split_go_no_sep by done. reflexivity.
  - rewrite split_go_first_sep by done. reflexivity.
Qed.

Lemma split_no_sep_single (s : string) :
  ¬ occurs "_0" s → PyStr.split "_0" s !! 1%nat = None.
Proof. intros H. unfold PyStr.split. by rewrite split_go_no_sep. Qed.

End SplitFacts.

Section TaskGeneration.

Variable generate_rvs : nat → string → Q → Q → Q.
Variable _workflow_recipe : gmap string Recipe.t.

Lemma generate_task_unknown_category task_name task_id s :
  _workflow_recipe !! task_name = None →
  _generate_task generate_rvs _workflow_recipe task_name task_id s =
    Raise (KeyError RecipeTable task_name).
Proof. intros H. unfold _generate_task, bind, subscript. by rewrite H. Qed.

Lemma generate_task_index_error task_name task_id s r :
  _workflow_recipe !! task_name = Some r →
  PyStr.split "_0" task_id !! 1%nat = None →
  _generate_task generate_rvs _workflow_recipe task_name task_id s =
    Raise IndexError.
Proof.
  intros H Hs. unfold _generate_task, bind, subscript. rewrite H.
  simpl. by rewrite Hs.
Qed.

Lemma generate_task_ok task_name task_id s r rest :
  _workflow_recipe !! task_name = Some r →
  PyStr.split "_0" task_id !! 1%nat = Some rest →
  ∃ t s',
    _generate_task generate_rvs _workflow_recipe task_name task_id s = Ok t s' ∧
    Task.name t = task_id ∧ Task.task_id t = String "0" rest ∧
    Task.category t = task_name ∧ tasks_map s' !! task_id = Some t.
Proof.
  intros H Hs. unfold _generate_task, bind, subscript. rewrite H.
  simpl. rewrite Hs. simpl. eexists _, _. split; [reflexivity|].
  simpl. split_and!; try done. by rewrite lookup_insert_eq.
Qed.

(** C10, as the code has it.  With the category in the recipe table,
    [_generate_task] raises [IndexError] when ['_0'] does not occur in
    [task_id]; when it does, the task is created under the name [task_id]
    and its [task_id] field is ['0'] followed by the text between the
    first occurrence of ['_0'] and the next one (or the end of the string
    when there is no other). *)
Theorem generate_task_id_field task_name task_id s r :
  _workflow_recipe !! task_name = Some r →
  (¬ occurs "_0" task_id →
     _generate_task generate_rvs _workflow_recipe task_name task_id s =
       Raise IndexError) ∧
  (∀ a m tail : string,
     task_id = a +:+ "_0" +:+ m +:+ tail →
     ¬ occurs "_0" a → ¬ occurs "_0" m →
     tail = "" ∨ (∃ r, tail = "_0" +:+ r) →
     ∃ t s',
       _generate_task generate_rvs _workflow_recipe task_name task_id s =
         Ok t s' ∧
       Task.task_id t = "0" +:+ m ∧
       Task.name t = task_id ∧ tasks_map s' !! task_id = Some t).
Proof.
  intros Hr. split.
  - intros Hno. eapply generate_task_index_error; [done|].
    by apply split_no_sep_single.
  - intros a m tail -> Ha Hm Htail.
    destruct (generate_task_ok task_name (a +:+ "_0" +:+ m +:+ tail) s r m Hr)
      as (t & s' & Hrun & Hn & Hid & _ & Hmap).
    { by apply split_second_piece. }
    exists t, s'. by rewrite Hid.
Qed.

End TaskGeneration.

(** ** Executions of the engine operations *)

Lemma bind_Ok {A B} (m : M A) (k : A → M B) (s s' : Engine) (b : B) :
  bind m k s = Ok b s' ↔ ∃ a s1, m s = Ok a s1 ∧ k a s1 = Ok b s'.
Proof.
  unfold bind. split.
  - destruct (m s) as [a s1|e]; [eauto|done].
  - by intros (a & s1 & -> & H).
Qed.

Lemma bind_Raise {A B} (m : M A) (k : A → M B) (s : Engine) (e : exn) :
  bind m k s = Raise e ↔
    m s = Raise e ∨ ∃ a s1, m s = Ok a s1 ∧ k a s1 = Raise e.
Proof.
  unfold bind. split.
  - destruct (m s) as [a s1|e']; [eauto|]. intros [= ->]. by left.
  - intros [->|(a & s1 & -> & H)]; done.
Qed.

Lemma subscript_Ok {A} d (proj : Engine → gmap string A) k s s' a :
  subscript d proj k s = Ok a s' ↔ proj s !! k = Some a ∧ s' = s.
Proof.
  unfold subscript. destruct (proj s !! k); split; try done.
  - by intros [= -> ->].
  - by intros [[= ->] ->].
  - by intros [? _].
Qed.

Lemma subscript_Raise {A} d (proj : Engine → gmap string A) k s e :
  subscript d proj k s = Raise e ↔ proj s !! k = None ∧ e = KeyError d k.
Proof.
  unfold subscript. destruct (proj s !! k); split; try done.
  - by intros [? _].
  - by intros [= <-].
  - by intros [_ ->].
Qed.

Lemma append_file_name_Ok task_id f n s s' :
  bind (append_file task_id f) (λ _, append_name task_id n) s = Ok tt s' ↔
  ∃ l ns, tasks_files s !! task_id = Some l ∧
          tasks_files_names s !! task_id = Some ns ∧
          s' = set_tasks_files_names
                 (<[task_id := ns ++ [n]]> (tasks_files_names s))
                 (set_lists (<[l := read_list l s ++ [f]]> (lists s)) s).
Proof.
  unfold append_file, append_name, list_append, modify.
  rewrite bind_Ok. split.
  - intros ([] & s1 & H1 & H2).
    apply bind_Ok in H1 as (l & s0 & Hl & H1).
    apply subscript_Ok in Hl as [Hl ->]. injection H1 as <-.
    apply bind_Ok in H2 as (ns & s0 & Hns & H2).
    apply subscript_Ok in Hns as [Hns ->]. injection H2 as <-.
    by exists l, ns.
  - intros (l & ns & Hl & Hns & ->).
    eexists tt, _. split.
    + apply bind_Ok. eexists l, s. split; [by apply subscript_Ok|done].
    + apply bind_Ok. eexists ns, _. split; [by apply subscript_Ok|done].
Qed.

Section Executions.

Variable generate_rvs : nat → string → Q → Q → Q.
Variable uuid4 : nat → string.
Variable _workflow_recipe : gmap string Recipe.t.

Abbreviation gen_file := (_generate_file generate_rvs uuid4).
Abbreviation gen_missing := (generate_missing generate_rvs uuid4).
Abbreviation gen_files := (_generate_files generate_rvs uuid4).
Abbreviation gen_task_files :=
  (_generate_task_files generate_rvs uuid4 _workflow_recipe).

Lemma assoc_fst (recipe : list (string * Dist.t)) (k : string) :
  k ∈ recipe.*1 → is_Some (assoc recipe k).
Proof.
  induction recipe as [|[k' d] r IH]; simpl; [by intros ?%elem_of_nil|].
  intros H. case_decide; [eauto|].
  apply elem_of_cons in H as [->|H]; [done|auto].
Qed.

(** A call on a task whose outputs are in the memo returns them and leaves
    the engine as it is. *)
Lemma generate_task_files_hit fuel task s cached :
  tasks_output_files s !! Task.name task = Some cached →
  gen_task_files (S fuel) task s = Ok cached s.
Proof. intros H. simpl. unfold bind, get. by rewrite H. Qed.

(** The other path, call by call. *)
Lemma generate_task_files_fresh fuel task s :
  tasks_output_files s !! Task.name task = None →
  gen_task_files (S fuel) task s =
    (task_recipe <-
       subscript RecipeTable (λ _, _workflow_recipe) (Task.category task) ;;
     output_files_list <-
       gen_files (Task.name task) (Recipe.output task_recipe) OUTPUT ;;
     l <- subscript TasksFiles tasks_files (Task.name task) ;;
     modify (λ s, set_slots (<[Task.files task := l]> (slots s)) s) ;;;
     s <- get ;;
     input_files <-
       resolve_parents (gen_task_files fuel)
         (default [] (tasks_parents s !! Task.name task)) ;;
     link_inputs (Task.name task) input_files ;;;
     _ <- gen_files (Task.name task) (Recipe.input task_recipe) INPUT ;;
     ret output_files_list) s.
Proof. intros H. simpl. unfold bind at 1, get at 1. by rewrite H. Qed.

Lemma generate_task_files_unknown_category fuel task s :
  tasks_output_files s !! Task.name task = None →
  _workflow_recipe !! Task.category task = None →
  gen_task_files (S fuel) task s =
    Raise (KeyError RecipeTable (Task.category task)).
Proof.
  intros Hm Hc. rewrite generate_task_files_fresh by done.
  unfold bind at 1, subscript. by rewrite Hc.
Qed.

(** One iteration of the loop over the parents. *)
Lemma resolve_parents_cons (resolve : Task.t → M (list File.t)) p ps s r s' :
  resolve_parents resolve (p :: ps) s = Ok r s' ↔
  ∃ pt out s1 more,
    tasks_map s !! p = Some pt ∧
    resolve pt s = Ok out s1 ∧
    resolve_parents resolve ps
      (set_tasks_output_files (<[p := out]> (tasks_output_files s1)) s1) =
      Ok more s' ∧
    r = out ++ more.
Proof.
  cbn [resolve_parents]. rewrite bind_Ok. split.
  - intros (pt & s0 & Hpt & H). apply subscript_Ok in Hpt as [Hpt ->].
    apply bind_Ok in H as (out & s1 & Hout & H).
    apply bind_Ok in H as ([] & s2 & Hmod & H). injection Hmod as <-.
    apply bind_Ok in H as (more & s3 & Hmore & H). injection H as <- <-.
    by exists pt, out, s1, more.
  - intros (pt & out & s1 & more & Hpt & Hout & Hmore & ->).
    exists pt, s. split; [by apply subscript_Ok|].
    apply bind_Ok. exists out, s1. split; [done|].
    apply bind_Ok. eexists tt, _. split; [done|].
    apply bind_Ok. eexists more, _. split; [done|]. done.
Qed.

Lemma resolve_parents_nil (resolve : Task.t → M (list File.t)) s r s' :
  resolve_parents resolve [] s = Ok r s' ↔ r = [] ∧ s' = s.
Proof. simpl. unfold ret. split; [by intros [= <- <-]|by intros [-> ->]]. Qed.

(** One iteration of the loop that links the candidate inputs. *)
Lemma link_inputs_cons task_name f fs s s' :
  link_inputs task_name (f :: fs) s = Ok tt s' ↔
  ∃ ns, tasks_files_names s !! task_name = Some ns ∧
    ((File.name f ∈ ns ∧ link_inputs task_name fs s = Ok tt s') ∨
     ((File.name f ∉ ns) ∧ ∃ l,
        tasks_files s !! task_name = Some l ∧
        link_inputs task_name fs
          (add_file task_name l ns
             (File.mk (File.name f) INPUT (File.size f)) s) = Ok tt s')).
Proof.
  cbn [link_inputs]. rewrite bind_Ok. split.
  - intros (ns & s0 & Hns & H). apply subscript_Ok in Hns as [Hns ->].
    exists ns. split; [done|].
    apply bind_Ok in H as ([] & s1 & Hstep & H).
    case_bool_decide as Hin.
    + injection Hstep as <-. by left.
    + right. split; [done|].
      apply append_file_name_Ok in Hstep as (l & ns' & Hl & Hns' & ->).
      rewrite Hns in Hns'. injection Hns' as <-. by exists l.
  - intros (ns & Hns & H). exists ns, s. split; [by apply subscript_Ok|].
    apply bind_Ok. destruct H as [[Hin H]|[Hin (l & Hl & H)]].
    + exists tt, s. split; [|done]. by rewrite bool_decide_eq_true_2.
    + eexists tt, _. split; [|exact H].
      rewrite bool_decide_eq_false_2 by done.
      apply append_file_name_Ok. by exists l, ns.
Qed.

(** One iteration of the generating loop of [_generate_files]. *)
Lemma generate_missing_cons task_id recipe link exts ext rest r s s' :
  gen_missing task_id recipe link exts (ext :: rest) s = Ok r s' ↔
  (ext ∈ exts ∧ gen_missing task_id recipe link exts rest s = Ok r s') ∨
  ((ext ∉ exts) ∧ ∃ d l ns more,
     assoc recipe ext = Some d ∧
     tasks_files s !! task_id = Some l ∧
     tasks_files_names s !! task_id = Some ns ∧
     (let f := File.mk (uuid4 (uuid_drawn s) +:+ ext) link
                 (int_of_float (size_factor s link *
                                next_sample generate_rvs s d)) in
      gen_missing task_id recipe link exts rest
        (add_file task_id l ns f
           (set_uuid_drawn (S (uuid_drawn s))
              (set_rvs_drawn (S (rvs_drawn s)) s))) = Ok more s' ∧
      r = f :: more)).
Proof.
  cbn [generate_missing]. case_bool_decide as Hin.
  { split; [by left|]. by intros [[_ ?]|[? _]]. }
  split.
  - intros H. right. split; [done|].
    apply bind_Ok in H as (f & s1 & Hf & H).
    destruct (assoc recipe ext) as [d|] eqn:Hd; cycle 1.
    { unfold _generate_file, bind, get in Hf. by rewrite Hd in Hf. }
    rewrite (generate_file_eq _ _ _ _ _ _ _ Hd) in Hf.
    injection Hf as <- <-.
    apply bind_Ok in H as ([] & s2 & H1 & H).
    apply bind_Ok in H as ([] & s3 & H2 & H).
    assert (Hstep : bind (append_file task_id
              {| File.name := uuid4 (uuid_drawn s) +:+ ext;
                 File.link := link;
                 File.size := int_of_float
                   (size_factor s link * next_sample generate_rvs s d) |})
              (λ _, append_name task_id (uuid4 (uuid_drawn s) +:+ ext))
              (set_uuid_drawn (S (uuid_drawn s))
                 (set_rvs_drawn (S (rvs_drawn s)) s)) = Ok tt s3).
    { apply bind_Ok. by exists tt, s2. }
    apply append_file_name_Ok in Hstep as (l & ns & Hl & Hns & ->).
    apply bind_Ok in H as (more & s4 & Hmore & H). injection H as <- <-.
    by exists d, l, ns, more.
  - intros [[? _]|[_ (d & l & ns & more & Hd & Hl & Hns & Hmore & ->)]]; [done|].
    apply bind_Ok. eexists _, _. split; [by apply generate_file_eq|].
    assert (Hstep : bind (append_file task_id
              {| File.name := uuid4 (uuid_drawn s) +:+ ext;
                 File.link := link;
                 File.size := int_of_float
                   (size_factor s link * next_sample generate_rvs s d) |})
              (λ _, append_name task_id (uuid4 (uuid_drawn s) +:+ ext))
              (set_uuid_drawn (S (uuid_drawn s))
                 (set_rvs_drawn (S (rvs_drawn s)) s)) =
            Ok tt (add_file task_id l ns
                     {| File.name := uuid4 (uuid_drawn s) +:+ ext;
                        File.link := link;
                        File.size := int_of_float
                          (size_factor s link * next_sample generate_rvs s d) |}
                     (set_uuid_drawn (S (uuid_drawn s))
                        (set_rvs_drawn (S (rvs_drawn s)) s)))).
    { apply append_file_name_Ok. by exists l, ns. }
    apply bind_Ok in Hstep as ([] & s2 & H1 & H2).
    apply bind_Ok. exists tt, s2. split; [done|].
    apply bind_Ok. eexists tt, _. split; [exact H2|].
    apply bind_Ok. eexists more, _. split; [exact Hmore|done].
Qed.

Lemma generate_files_Ok task_id recipe link r s s' :
  gen_files task_id recipe link s = Ok r s' ↔
  ∃ l new,
    tasks_files s !! task_id = Some l ∧
    (let files_list := filter (λ f, has_link link f = true) (read_list l s) in
     gen_missing task_id recipe link (file_extension <$> files_list)
       (recipe.*1) s = Ok new s' ∧
     r = files_list ++ new).
Proof.
  unfold _generate_files. rewrite bind_Ok. split.
  - intros (l & s0 & Hl & H). apply subscript_Ok in Hl as [Hl ->].
    apply bind_Ok in H as (s0 & s1 & [= <- <-] & H).
    apply bind_Ok in H as (new & s2 & Hnew & [= <- <-]).
    by exists l, new.
  - intros (l & new & Hl & Hnew & ->).
    exists l, s. split; [by apply subscript_Ok|].
    apply bind_Ok. exists s, s. split; [done|].
    apply bind_Ok. by exists new, s'.
Qed.

End Executions.

(** ** What a file-generating call leaves unchanged *)

#[global] Instance grows_refl : Reflexive grows.
Proof.
  intros s. split; try done.
  - intros l fs H. exists []. by rewrite app_nil_r.
  - intros k ns H. exists []. by rewrite app_nil_r.
Qed.

#[global] Instance grows_trans : Transitive grows.
Proof.
  intros s1 s2 s3 [] []. split; try congruence; try (by etrans).
  - auto.
  - intros l fs H. destruct (grows_lists0 l fs H) as [m1 H1].
    destruct (grows_lists1 l _ H1) as [m2 H2].
    exists (m1 ++ m2). by rewrite app_assoc.
  - intros k ns H. destruct (grows_names0 k ns H) as [m1 H1].
    destruct (grows_names1 k _ H1) as [m2 H2].
    exists (m1 ++ m2). by rewrite app_assoc.
Qed.

Lemma read_list_Some l s fs : lists s !! l = Some fs → read_list l s = fs.
Proof. unfold read_list. by intros ->. Qed.

Lemma grows_add_file task_id l ns f s :
  tasks_files_names s !! task_id = Some ns →
  grows s (add_file task_id l ns f s).
Proof.
  intros Hns. split; try done; simpl.
  - intros l' fs H. destruct (decide (l = l')) as [<-|Hne].
    + rewrite lookup_insert_eq, (read_list_Some _ _ _ H). eauto.
    + rewrite lookup_insert_ne by done. exists []. by rewrite app_nil_r.
  - intros k ns' H. destruct (decide (task_id = k)) as [<-|Hne].
    + rewrite lookup_insert_eq. rewrite Hns in H. injection H as <-. eauto.
    + rewrite lookup_insert_ne by done. exists []. by rewrite app_nil_r.
Qed.

Lemma grows_draws a b s :
  uuid_drawn s ≤ a → grows s (set_uuid_drawn a (set_rvs_drawn b s)).
Proof.
  intros H. split; try done; simpl.
  - intros l fs Hl. exists []. by rewrite app_nil_r.
  - intros k ns Hk. exists []. by rewrite app_nil_r.
Qed.

Lemma grows_set_slots v s : grows s (set_slots v s).
Proof.
  split; try done; simpl.
  - intros l fs Hl. exists []. by rewrite app_nil_r.
  - intros k ns Hk. exists []. by rewrite app_nil_r.
Qed.

Lemma grows_set_memo p out s :
  grows s (set_tasks_output_files (<[p := out]> (tasks_output_files s)) s).
Proof.
  split; try done; simpl.
  - intros k H. destruct (decide (p = k)) as [<-|Hne].
    + by rewrite lookup_insert_eq.
    + by rewrite lookup_insert_ne.
  - intros l fs Hl. exists []. by rewrite app_nil_r.
  - intros k ns Hk. exists []. by rewrite app_nil_r.
Qed.

Section Grows.

Variable generate_rvs : nat → string → Q → Q → Q.
Variable uuid4 : nat → string.
Variable _workflow_recipe : gmap string Recipe.t.

Abbreviation gen_missing := (generate_missing generate_rvs uuid4).
Abbreviation gen_files := (_generate_files generate_rvs uuid4).
Abbreviation gen_task_files :=
  (_generate_task_files generate_rvs uuid4 _workflow_recipe).

Lemma generate_missing_grows task_id recipe link exts todo : ∀ s r s',
  gen_missing task_id recipe link exts todo s = Ok r s' → grows s s'.
Proof.
  induction todo as [|ext rest IH]; intros s r s' H.
  - injection H as <- <-. reflexivity.
  - apply generate_missing_cons in H
      as [[_ H]|[_ (d & l & ns & more & Hd & Hl & Hns & H & ->)]]; [eauto|].
    apply IH in H. etrans; [|exact H].
    etrans; [apply (grows_draws (S (uuid_drawn s)) (S (rvs_drawn s))); lia|].
    by apply grows_add_file.
Qed.

Lemma generate_files_grows task_id recipe link s r s' :
  gen_files task_id recipe link s = Ok r s' → grows s s'.
Proof.
  intros (l & new & _ & H & _)%generate_files_Ok.
  by eapply generate_missing_grows.
Qed.

Lemma link_inputs_grows task_name inputs : ∀ s s',
  link_inputs task_name inputs s = Ok tt s' → grows s s'.
Proof.
  induction inputs as [|f fs IH]; intros s s' H.
  - injection H as <-. reflexivity.
  - apply link_inputs_cons in H
      as (ns & Hns & [[_ H]|[_ (l & Hl & H)]]); [eauto|].
    apply IH in H. etrans; [|exact H]. by apply grows_add_file.
Qed.

Lemma resolve_parents_grows (resolve : Task.t → M (list File.t)) :
  (∀ pt s r s', resolve pt s = Ok r s' → grows s s') →
  ∀ ps s r s', resolve_parents resolve ps s = Ok r s' → grows s s'.
Proof.
  intros Hres ps. induction ps as [|p ps IH]; intros s r s' H.
  - apply resolve_parents_nil in H as [_ ->]. reflexivity.
  - apply resolve_parents_cons in H
      as (pt & out & s1 & more & Hpt & Hout & Hmore & ->).
    etrans; [by eapply Hres|]. etrans; [|by eapply IH].
    apply grows_set_memo.
Qed.

(** The path of a call that misses the memo, with its intermediate
    states. *)
Lemma generate_task_files_fresh_Ok fuel task s r s' :
  tasks_output_files s !! Task.name task = None →
  gen_task_files (S fuel) task s = Ok r s' ↔
  ∃ task_recipe l s1 input_files s2 s3 extra,
    _workflow_recipe !! Task.category task = Some task_recipe ∧
    gen_files (Task.name task) (Recipe.output task_recipe) OUTPUT s = Ok r s1 ∧
    tasks_files s1 !! Task.name task = Some l ∧
    resolve_parents (gen_task_files fuel)
      (default [] (tasks_parents s1 !! Task.name task))
      (set_slots (<[Task.files task := l]> (slots s1)) s1) = Ok input_files s2 ∧
    link_inputs (Task.name task) input_files s2 = Ok tt s3 ∧
    gen_files (Task.name task) (Recipe.input task_recipe) INPUT s3 = Ok extra s'.
Proof.
  intros Hm. rewrite generate_task_files_fresh by done. rewrite bind_Ok. split.
  - intros (task_recipe & s0 & Hr & H). apply subscript_Ok in Hr as [Hr ->].
    apply bind_Ok in H as (out & s1 & Hout & H).
    apply bind_Ok in H as (l & s1' & Hl & H). apply subscript_Ok in Hl as [Hl ->].
    apply bind_Ok in H as ([] & s1' & [= <-] & H).
    apply bind_Ok in H as (s1' & s1'' & [= <- <-] & H).
    apply bind_Ok in H as (inputs & s2 & Hres & H).
    apply bind_Ok in H as ([] & s3 & Hlink & H).
    apply bind_Ok in H as (extra & s4 & Hextra & [= <- <-]).
    by exists task_recipe, l, s1, inputs, s2, s3, extra.
  - intros (task_recipe & l & s1 & inputs & s2 & s3 & extra &
            Hr & Hout & Hl & Hres & Hlink & Hextra).
    exists task_recipe, s. split; [by apply subscript_Ok|].
    apply bind_Ok. exists r, s1. split; [done|].
    apply bind_Ok. exists l, s1. split; [by apply subscript_Ok|].
    apply bind_Ok. eexists tt, _. split; [done|].
    apply bind_Ok. eexists _, _. split; [done|].
    apply bind_Ok. exists inputs, s2. split; [exact Hres|].
    apply bind_Ok. exists tt, s3. split; [done|].
    apply bind_Ok. exists extra, s'. split; [done|]. done.
Qed.

Lemma generate_task_files_grows fuel : ∀ task s r s',
  gen_task_files fuel task s = Ok r s' → grows s s'.
Proof.
  induction fuel as [|fuel IH]; intros task s r s' H; [done|].
  destruct (tasks_output_files s !! Task.name task) as [c|] eqn:Hm.
  - rewrite (generate_task_files_hit _ _ _ _ _ _ _ Hm) in H.
    injection H as <- <-. reflexivity.
  - apply generate_task_files_fresh_Ok in H
      as (task_recipe & l & s1 & inputs & s2 & s3 & extra &
          Hr & Hout & Hl & Hres & Hlink & Hextra); [|done].
    etrans; [by eapply generate_files_grows|].
    etrans; [apply grows_set_slots|].
    etrans; [eapply resolve_parents_grows; [apply IH|exact Hres]|].
    etrans; [by eapply link_inputs_grows|].
    by eapply generate_files_grows.
Qed.

End Grows.

(** ** The memo of output files *)

Lemma names_agree_grows s s' : grows s s' → names_agree s → names_agree s'.
Proof. intros Hg H k t. rewrite (grows_tasks_map _ _ Hg). apply H. Qed.

Lemma parents_of_grows s s' k : grows s s' → parents_of s' k = parents_of s k.
Proof. intros Hg. unfold parents_of. by rewrite (grows_tasks_parents _ _ Hg). Qed.

Lemma ancestor_grows s s' k p : grows s s' → ancestor s k p ↔ ancestor s' k p.
Proof.
  intros Hg. unfold ancestor.
  assert (Heq : ∀ a b, b ∈ parents_of s a ↔ b ∈ parents_of s' a).
  { intros a b. by rewrite (parents_of_grows _ _ _ Hg). }
  split; induction 1 as [a b H|a b c H _ IH].
  - apply tc_once. by apply Heq.
  - eapply tc_l; [|exact IH]. by apply Heq.
  - apply tc_once. by apply Heq.
  - eapply tc_l; [|exact IH]. by apply Heq.
Qed.

Lemma memo_closed_ancestor s k p :
  memo_closed s → is_Some (tasks_output_files s !! k) → ancestor s k p →
  is_Some (tasks_output_files s !! p).
Proof.
  intros Hc Hk Hanc. induction Hanc as [a b H|a b c H _ IH]; [by eapply Hc|].
  apply IH. by eapply Hc.
Qed.

Lemma memo_closed_same_memo s s' :
  grows s s' → tasks_output_files s' = tasks_output_files s →
  memo_closed s → memo_closed s'.
Proof.
  intros Hg Hm Hc k p. rewrite Hm, (parents_of_grows _ _ _ Hg). apply Hc.
Qed.

(** Writing the outputs of a task whose parents are all in the memo. *)
Lemma memo_closed_set_memo s p out :
  memo_closed s →
  (∀ q, q ∈ parents_of s p → is_Some (tasks_output_files s !! q)) →
  memo_closed (set_tasks_output_files (<[p := out]> (tasks_output_files s)) s).
Proof.
  intros Hc Hp k q. unfold parents_of. simpl. fold (parents_of s k).
  rewrite !lookup_insert_is_Some. intros [<-|[Hne Hk]] Hq.
  - destruct (decide (p = q)); [by left|right]. split; [done|]. by apply Hp.
  - destruct (decide (p = q)); [by left|right]. split; [done|]. by eapply Hc.
Qed.

Section Memo.

Variable generate_rvs : nat → string → Q → Q → Q.
Variable uuid4 : nat → string.
Variable _workflow_recipe : gmap string Recipe.t.

Abbreviation gen_missing := (generate_missing generate_rvs uuid4).
Abbreviation gen_files := (_generate_files generate_rvs uuid4).
Abbreviation gen_task_files :=
  (_generate_task_files generate_rvs uuid4 _workflow_recipe).

Lemma generate_missing_memo task_id recipe link exts todo : ∀ s r s',
  gen_missing task_id recipe link exts todo s = Ok r s' →
  tasks_output_files s' = tasks_output_files s.
Proof.
  induction todo as [|ext rest IH]; intros s r s' H.
  - by injection H as <- <-.
  - apply generate_missing_cons in H
      as [[_ H]|[_ (d & l & ns & more & Hd & Hl & Hns & H & ->)]]; [eauto|].
    by apply IH in H.
Qed.

Lemma generate_files_memo task_id recipe link s r s' :
  gen_files task_id recipe link s = Ok r s' →
  tasks_output_files s' = tasks_output_files s.
Proof.
  intros (l & new & _ & H & _)%generate_files_Ok.
  by eapply generate_missing_memo.
Qed.

Lemma link_inputs_memo task_name inputs : ∀ s s',
  link_inputs task_name inputs s = Ok tt s' →
  tasks_output_files s' = tasks_output_files s.
Proof.
  induction inputs as [|f fs IH]; intros s s' H.
  - by injection H as <-.
  - apply link_inputs_cons in H
      as (ns & Hns & [[_ H]|[_ (l & Hl & H)]]); [eauto|].
    by apply IH in H.
Qed.

(** After the loop over the parents every parent is in the memo, and the
    memo stays closed when each recursive call keeps it so and leaves the
    parents of its task in it. *)
Lemma resolve_parents_closed (resolve : Task.t → M (list File.t)) :
  (∀ pt s r s', resolve pt s = Ok r s' → grows s s') →
  (∀ pt s r s', resolve pt s = Ok r s' → names_agree s → memo_closed s →
     memo_closed s' ∧
     ∀ q, q ∈ parents_of s (Task.name pt) →
          is_Some (tasks_output_files s' !! q)) →
  ∀ ps s r s',
    resolve_parents resolve ps s = Ok r s' → names_agree s → memo_closed s →
    memo_closed s' ∧ ∀ p, p ∈ ps → is_Some (tasks_output_files s' !! p).
Proof.
  intros Hgrows Hres ps. induction ps as [|p ps IH]; intros s r s' H Hna Hc.
  - apply resolve_parents_nil in H as [_ ->].
    split; [done|]. by intros p ?%elem_of_nil.
  - apply resolve_parents_cons in H
      as (pt & out & s1 & more & Hpt & Hout & Hmore & ->).
    pose proof (Hgrows _ _ _ _ Hout) as Hg.
    destruct (Hres _ _ _ _ Hout Hna Hc) as [Hc1 Hp1].
    rewrite (Hna _ _ Hpt) in Hp1.
    pose proof (resolve_parents_grows _ Hgrows _ _ _ _ Hmore) as Hg2.
    destruct (IH _ _ _ Hmore) as [Hc2 Hp2].
    { eapply names_agree_grows; [|exact Hna].
      etrans; [exact Hg|apply grows_set_memo]. }
    { apply memo_closed_set_memo; [done|].
      intros q. rewrite (parents_of_grows _ _ _ Hg). apply Hp1. }
    split; [done|]. intros q [->|Hq]%elem_of_cons; [|by apply Hp2].
    apply (grows_memo _ _ Hg2). simpl. by rewrite lookup_insert_eq.
Qed.

Lemma generate_task_files_closed fuel : ∀ task s r s',
  gen_task_files fuel task s = Ok r s' → names_agree s → memo_closed s →
  memo_closed s' ∧
  ∀ q, q ∈ parents_of s (Task.name task) →
       is_Some (tasks_output_files s' !! q).
Proof.
  induction fuel as [|fuel IH]; intros task s r s' H Hna Hc; [done|].
  destruct (tasks_output_files s !! Task.name task) as [c|] eqn:Hm.
  - rewrite (generate_task_files_hit _ _ _ _ _ _ _ Hm) in H.
    injection H as <- <-. split; [done|]. intros q. by apply Hc.
  - apply generate_task_files_fresh_Ok in H
      as (task_recipe & l & s1 & inputs & s2 & s3 & extra &
          Hr & Hout & Hl & Hres & Hlink & Hextra); [|done].
    pose proof (generate_files_grows _ _ _ _ _ _ _ _ Hout) as Hg1.
    pose proof (generate_files_memo _ _ _ _ _ _ Hout) as Hm1.
    set (s1' := set_slots (<[Task.files task:=l]> (slots s1)) s1) in *.
    assert (Hg1' : grows s s1') by (etrans; [exact Hg1|apply grows_set_slots]).
    pose proof (generate_task_files_grows generate_rvs uuid4
                  _workflow_recipe fuel) as Hgrows.
    destruct (resolve_parents_closed (gen_task_files fuel) Hgrows IH
                _ _ _ _ Hres) as [Hc2 Hp2].
    { by eapply names_agree_grows. }
    { eapply memo_closed_same_memo; [exact Hg1'|exact Hm1|done]. }
    pose proof (resolve_parents_grows _ Hgrows _ _ _ _ Hres) as Hg2.
    pose proof (link_inputs_grows _ _ _ _ Hlink) as Hg3.
    pose proof (link_inputs_memo _ _ _ _ Hlink) as Hm3.
    pose proof (generate_files_grows _ _ _ _ _ _ _ _ Hextra) as Hg4.
    pose proof (generate_files_memo _ _ _ _ _ _ Hextra) as Hm4.
    split.
    + eapply memo_closed_same_memo; [exact Hg4|exact Hm4|].
      eapply memo_closed_same_memo; [exact Hg3|exact Hm3|done].
    + intros q Hq. rewrite Hm4, Hm3. apply Hp2.
      change (tasks_parents s1' !! Task.name task)
        with (tasks_parents s1 !! Task.name task).
      fold (parents_of s1 (Task.name task)).
      by rewrite (parents_of_grows _ _ _ Hg1).
Qed.

End Memo.

(** ** A call that returns never met a cycle *)

Section Acyclic.

Variable generate_rvs : nat → string → Q → Q → Q.
Variable uuid4 : nat → string.
Variable _workflow_recipe : gmap string Recipe.t.

Abbreviation gen_files := (_generate_files generate_rvs uuid4).
Abbreviation gen_task_files :=
  (_generate_task_files generate_rvs uuid4 _workflow_recipe).

Lemma inner_call_mono n n' s k :
  (n ≤ n')%nat → inner_call gen_task_files n s k →
  inner_call gen_task_files n' s k.
Proof.
  intros Hle (m & s1 & kt & r1 & s1' & Hm & H). exists m, s1, kt, r1, s1'.
  split; [lia|done].
Qed.

Lemma inner_call_grows n s0 s k :
  grows s0 s → inner_call gen_task_files n s k →
  inner_call gen_task_files n s0 k.
Proof.
  intros Hg (m & s1 & kt & r1 & s1' & Hm & Hg1 & Hna & Hc & Hk & Hk1 & H).
  exists m, s1, kt, r1, s1'. split_and!; try done.
  - by etrans.
  - by rewrite <- (grows_tasks_map _ _ Hg).
Qed.

(** The state after one iteration of the loop over the parents. *)
Lemma after_parent_wf fuel s p pt out s1 :
  names_agree s → memo_closed s → tasks_map s !! p = Some pt →
  gen_task_files fuel pt s = Ok out s1 →
  let s1' := set_tasks_output_files (<[p := out]> (tasks_output_files s1)) s1 in
  grows s s1' ∧ names_agree s1' ∧ memo_closed s1'.
Proof.
  intros Hna Hc Hpt Hout s1'.
  pose proof (generate_task_files_grows _ _ _ _ _ _ _ _ Hout) as Hg.
  destruct (generate_task_files_closed _ _ _ _ _ _ _ _ Hout Hna Hc)
    as [Hc1 Hp1].
  rewrite (Hna _ _ Hpt) in Hp1.
  assert (Hg' : grows s s1') by (etrans; [exact Hg|apply grows_set_memo]).
  split_and!; [done|by eapply names_agree_grows|].
  apply memo_closed_set_memo; [done|].
  intros q. rewrite (parents_of_grows _ _ _ Hg). apply Hp1.
Qed.

(** A key that enters the memo during the loop over the parents is one of
    the parents or an ancestor of one, and its own call returned inside. *)
Lemma resolve_parents_new_key fuel :
  (∀ task s r s' k,
     gen_task_files fuel task s = Ok r s' → names_agree s → memo_closed s →
     tasks_output_files s !! k = None →
     is_Some (tasks_output_files s' !! k) →
     ancestor s (Task.name task) k ∧ inner_call gen_task_files fuel s k) →
  ∀ ps s r s' k,
    resolve_parents (gen_task_files fuel) ps s = Ok r s' →
    names_agree s → memo_closed s →
    tasks_output_files s !! k = None →
    is_Some (tasks_output_files s' !! k) →
    (∃ p, p ∈ ps ∧ (p = k ∨ ancestor s p k)) ∧
    inner_call gen_task_files (S fuel) s k.
Proof.
  intros IHf ps. induction ps as [|p ps IH]; intros s r s' k H Hna Hc Hk Hk'.
  - apply resolve_parents_nil in H as [_ ->]. rewrite Hk in Hk'.
    by destruct Hk'.
  - apply resolve_parents_cons in H
      as (pt & out & s1 & more & Hpt & Hout & Hmore & ->).
    destruct (after_parent_wf _ _ _ _ _ _ Hna Hc Hpt Hout) as (Hg' & Hna' & Hc').
    destruct (tasks_output_files s1 !! k) as [v|] eqn:Hk1.
    { destruct (IHf _ _ _ _ k Hout) as [Ha Hi]; try done.
      rewrite (Hna _ _ Hpt) in Ha. split.
      - exists p. split; [left|by right].
      - eapply inner_call_mono; [|exact Hi]. lia. }
    destruct (decide (p = k)) as [->|Hne].
    { split; [exists k; split; [left|by left]|].
      exists fuel, s, pt, out, s1. split_and!; try done. lia. }
    destruct (IH _ _ _ k Hmore) as [(q & Hq & Ha) Hi]; try done.
    { simpl. by rewrite lookup_insert_ne. }
    split.
    + exists q. split; [by right|]. destruct Ha as [->|Ha]; [by left|right].
      by apply (ancestor_grows _ _ _ _ Hg').
    + by eapply inner_call_grows.
Qed.

Lemma generate_task_files_new_key fuel : ∀ task s r s' k,
  gen_task_files fuel task s = Ok r s' → names_agree s → memo_closed s →
  tasks_output_files s !! k = None →
  is_Some (tasks_output_files s' !! k) →
  ancestor s (Task.name task) k ∧ inner_call gen_task_files fuel s k.
Proof.
  induction fuel as [|fuel IH]; intros task s r s' k H Hna Hc Hk Hk'; [done|].
  destruct (tasks_output_files s !! Task.name task) as [c|] eqn:Hm.
  { rewrite (generate_task_files_hit _ _ _ _ _ _ _ Hm) in H.
    injection H as <- <-. rewrite Hk in Hk'. by destruct Hk'. }
  apply generate_task_files_fresh_Ok in H
    as (task_recipe & l & s1 & inputs & s2 & s3 & extra &
        Hr & Hout & Hl & Hres & Hlink & Hextra); [|done].
  pose proof (generate_files_grows _ _ _ _ _ _ _ _ Hout) as Hg1.
  pose proof (generate_files_memo _ _ _ _ _ _ _ _ Hout) as Hm1.
  set (s1' := set_slots (<[Task.files task:=l]> (slots s1)) s1) in *.
  assert (Hg1' : grows s s1') by (etrans; [exact Hg1|apply grows_set_slots]).
  rewrite (generate_files_memo _ _ _ _ _ _ _ _ Hextra),
    (link_inputs_memo _ _ _ _ Hlink) in Hk'.
  destruct (resolve_parents_new_key fuel IH _ _ _ _ k Hres)
    as [(q & Hq & Ha) Hi]; try done.
  { by eapply names_agree_grows. }
  { eapply memo_closed_same_memo; [exact Hg1'|exact Hm1|done]. }
  { change (tasks_output_files s1') with (tasks_output_files s1).
    by rewrite Hm1. }
  change (tasks_parents s1' !! Task.name task)
    with (tasks_parents s1 !! Task.name task) in Hq.
  fold (parents_of s1 (Task.name task)) in Hq.
  rewrite (parents_of_grows _ _ _ Hg1) in Hq.
  split; [|by eapply inner_call_grows].
  destruct Ha as [->|Ha]; [by apply tc_once|].
  eapply tc_l; [exact Hq|]. by apply (ancestor_grows _ _ _ _ Hg1').
Qed.

Lemma resolve_parents_cycle fuel :
  (∀ m, (m ≤ fuel)%nat → no_cycle_return gen_task_files m) →
  ∀ ps s r s' y,
    names_agree s → memo_closed s → y ∈ ps →
    tasks_output_files s !! y = None → ancestor s y y →
    resolve_parents (gen_task_files fuel) ps s = Ok r s' → False.
Proof.
  intros HW ps. induction ps as [|p ps IH]; intros s r s' y Hna Hc Hy Hmy Hcy H.
  - by apply elem_of_nil in Hy.
  - apply resolve_parents_cons in H
      as (pt & out & s1 & more & Hpt & Hout & Hmore & ->).
    assert (Hn : Task.name pt = p) by (by apply Hna).
    destruct (decide (p = y)) as [->|Hne].
    { eapply (HW fuel); [lia|exact Hna|exact Hc| | | |exact Hout].
      - unfold registered. by rewrite Hn.
      - by rewrite Hn.
      - by rewrite Hn. }
    apply elem_of_cons in Hy as [->|Hy]; [done|].
    destruct (after_parent_wf _ _ _ _ _ _ Hna Hc Hpt Hout) as (Hg' & Hna' & Hc').
    destruct (tasks_output_files s1 !! y) as [v|] eqn:Hy1.
    { destruct (generate_task_files_new_key _ _ _ _ _ y Hout)
        as [_ (m & sa & kt & ra & sa' & Hlt & Hga & Hnaa & Hca & Hkt & Hma & Hrun)];
        try done.
      assert (Hkn : Task.name kt = y) by (by apply Hna).
      eapply (HW m); [lia|exact Hnaa|exact Hca| | | |exact Hrun].
      - unfold registered. by rewrite Hkn, (grows_tasks_map _ _ Hga).
      - by rewrite Hkn.
      - rewrite Hkn. by apply (ancestor_grows _ _ _ _ Hga). }
    eapply (IH _ _ _ y Hna' Hc' Hy); [| |exact Hmore].
    + simpl. by rewrite lookup_insert_ne.
    + by apply (ancestor_grows _ _ _ _ Hg').
Qed.

(** No call on a task that lies on a cycle of the parent map returns. *)
Lemma generate_task_files_no_cycle (n : nat) :
  no_cycle_return gen_task_files n.
Proof.
  induction n as [n IHn] using lt_wf_ind.
  intros task s r s' Hna Hc Hreg Hm Hcy H.
  destruct n as [|fuel]; [done|].
  apply generate_task_files_fresh_Ok in H
    as (task_recipe & l & s1 & inputs & s2 & s3 & extra &
        Hr & Hout & Hl & Hres & Hlink & Hextra); [|done].
  pose proof (generate_files_grows _ _ _ _ _ _ _ _ Hout) as Hg1.
  pose proof (generate_files_memo _ _ _ _ _ _ _ _ Hout) as Hm1.
  set (s1' := set_slots (<[Task.files task:=l]> (slots s1)) s1) in *.
  assert (Hg1' : grows s s1') by (etrans; [exact Hg1|apply grows_set_slots]).
  assert (∃ y, y ∈ parents_of s (Task.name task) ∧ ancestor s y y ∧
               tasks_output_files s !! y = None) as (y & Hy & Hyy & Hmy).
  { assert (∃ y, y ∈ parents_of s (Task.name task) ∧
                 (y = Task.name task ∨ ancestor s y (Task.name task)))
      as (y & Hy & Hya).
    { unfold ancestor in Hcy. inversion Hcy as [? ? H1|? y ? H1 H2]; subst.
      - exists (Task.name task). split; [done|by left].
      - exists y. split; [done|by right]. }
    exists y. split; [done|].
    assert (Hyy : ancestor s y y).
    { destruct Hya as [->|Hya]; [done|]. eapply tc_r; [exact Hya|done]. }
    split; [done|].
    destruct (tasks_output_files s !! y) as [v|] eqn:Hv; [|done].
    assert (is_Some (tasks_output_files s !! Task.name task)) as [? Hs].
    { destruct Hya as [->|Hya]; [by rewrite Hv|].
      eapply memo_closed_ancestor; [done| |exact Hya]. by rewrite Hv. }
    congruence. }
  eapply (resolve_parents_cycle fuel); [| | | | | |exact Hres].
  - intros m Hmle. apply IHn. lia.
  - by eapply names_agree_grows.
  - eapply memo_closed_same_memo; [exact Hg1'|exact Hm1|done].
  - change (tasks_parents s1' !! Task.name task)
      with (tasks_parents s1 !! Task.name task).
    fold (parents_of s1 (Task.name task)).
    by rewrite (parents_of_grows _ _ _ Hg1).
  - change (tasks_output_files s1') with (tasks_output_files s1).
    by rewrite Hm1.
  - by apply (ancestor_grows _ _ _ _ Hg1').
Qed.

(** A call that misses the memo leaves its own task out of the memo: only
    the loop of a child writes the entry of a task. *)
Lemma generate_task_files_not_self fuel task s r s' :
  names_agree s → memo_closed s → registered s task →
  tasks_output_files s !! Task.name task = None →
  gen_task_files fuel task s = Ok r s' →
  tasks_output_files s' !! Task.name task = None.
Proof.
  intros Hna Hc Hreg Hm H.
  destruct (tasks_output_files s' !! Task.name task) as [v|] eqn:Hv; [|done].
  exfalso.
  destruct (generate_task_files_new_key _ _ _ _ _ (Task.name task) H)
    as [Ha _]; try done.
  by eapply generate_task_files_no_cycle.
Qed.

(** An entry of the memo keeps its value. *)
Lemma resolve_parents_memo_stable fuel :
  (∀ task s r s' k v,
     gen_task_files fuel task s = Ok r s' → names_agree s → memo_closed s →
     tasks_output_files s !! k = Some v →
     tasks_output_files s' !! k = Some v) →
  ∀ ps s r s' k v,
    resolve_parents (gen_task_files fuel) ps s = Ok r s' →
    names_agree s → memo_closed s →
    tasks_output_files s !! k = Some v →
    tasks_output_files s' !! k = Some v.
Proof.
  intros IHf ps. induction ps as [|p ps IH]; intros s r s' k v H Hna Hc Hk.
  - by apply resolve_parents_nil in H as [_ ->].
  - apply resolve_parents_cons in H
      as (pt & out & s1 & more & Hpt & Hout & Hmore & ->).
    destruct (after_parent_wf _ _ _ _ _ _ Hna Hc Hpt Hout) as (Hg' & Hna' & Hc').
    assert (Hn : Task.name pt = p) by (by apply Hna).
    eapply IH; [exact Hmore|done|done|]. simpl.
    pose proof (IHf _ _ _ _ _ _ Hout Hna Hc Hk) as Hk1.
    destruct (decide (p = k)) as [->|Hne]; [|by rewrite lookup_insert_ne].
    rewrite lookup_insert_eq. f_equal.
    destruct fuel as [|fuel]; [done|].
    rewrite <- Hn in Hk.
    rewrite (generate_task_files_hit _ _ _ _ _ _ _ Hk) in Hout.
    by injection Hout as <- <-.
Qed.

Lemma generate_task_files_memo_stable fuel : ∀ task s r s' k v,
  gen_task_files fuel task s = Ok r s' → names_agree s → memo_closed s →
  tasks_output_files s !! k = Some v →
  tasks_output_files s' !! k = Some v.
Proof.
  induction fuel as [|fuel IH]; intros task s r s' k v H Hna Hc Hk; [done|].
  destruct (tasks_output_files s !! Task.name task) as [c|] eqn:Hm.
  { rewrite (generate_task_files_hit _ _ _ _ _ _ _ Hm) in H.
    by injection H as <- <-. }
  apply generate_task_files_fresh_Ok in H
    as (task_recipe & l & s1 & inputs & s2 & s3 & extra &
        Hr & Hout & Hl & Hres & Hlink & Hextra); [|done].
  pose proof (generate_files_grows _ _ _ _ _ _ _ _ Hout) as Hg1.
  pose proof (generate_files_memo _ _ _ _ _ _ _ _ Hout) as Hm1.
  set (s1' := set_slots (<[Task.files task:=l]> (slots s1)) s1) in *.
  assert (Hg1' : grows s s1') by (etrans; [exact Hg1|apply grows_set_slots]).
  rewrite (generate_files_memo _ _ _ _ _ _ _ _ Hextra),
    (link_inputs_memo _ _ _ _ Hlink).
  eapply (resolve_parents_memo_stable fuel IH); [exact Hres| | |].
  - by eapply names_agree_grows.
  - eapply memo_closed_same_memo; [exact Hg1'|exact Hm1|done].
  - change (tasks_output_files s1') with (tasks_output_files s1).
    by rewrite Hm1.
Qed.

End Acyclic.

(** ** Where a [KeyError] on the recipe table can come from *)

Section Errors.

Variable generate_rvs : nat → string → Q → Q → Q.
Variable uuid4 : nat → string.
Variable _workflow_recipe : gmap string Recipe.t.

Abbreviation gen_file := (_generate_file generate_rvs uuid4).
Abbreviation gen_missing := (generate_missing generate_rvs uuid4).
Abbreviation gen_files := (_generate_files generate_rvs uuid4).
Abbreviation gen_task_files :=
  (_generate_task_files generate_rvs uuid4 _workflow_recipe).

Lemma generate_file_raise extension recipe link s e :
  gen_file extension recipe link s = Raise e →
  e = KeyError FileRecipe extension.
Proof.
  unfold _generate_file, bind, get.
  destruct (assoc recipe extension); [done|]. by intros [= <-].
Qed.

Lemma append_file_raise task_id f s e :
  append_file task_id f s = Raise e → e = KeyError TasksFiles task_id.
Proof.
  unfold append_file. intros [H|(l & s1 & _ & H)]%bind_Raise; [|done].
  by apply subscript_Raise in H as [_ ->].
Qed.

Lemma append_name_raise task_id n s e :
  append_name task_id n s = Raise e → e = KeyError TasksFilesNames task_id.
Proof.
  unfold append_name. intros [H|(l & s1 & _ & H)]%bind_Raise; [|done].
  by apply subscript_Raise in H as [_ ->].
Qed.

Lemma generate_missing_raise task_id recipe link exts todo : ∀ s e k,
  gen_missing task_id recipe link exts todo s = Raise e →
  e ≠ KeyError RecipeTable k.
Proof.
  induction todo as [|ext rest IH]; intros s e k H; [done|].
  cbn [generate_missing] in H. case_bool_decide; [by eapply IH|].
  apply bind_Raise in H as [H|(f & s1 & _ & H)].
  { apply generate_file_raise in H as ->. done. }
  apply bind_Raise in H as [H|([] & s2 & _ & H)].
  { apply append_file_raise in H as ->. done. }
  apply bind_Raise in H as [H|([] & s3 & _ & H)].
  { apply append_name_raise in H as ->. done. }
  apply bind_Raise in H as [H|(more & s4 & _ & H)]; [by eapply IH|done].
Qed.

Lemma generate_files_raise task_id recipe link s e k :
  gen_files task_id recipe link s = Raise e → e ≠ KeyError RecipeTable k.
Proof.
  unfold _generate_files. intros [H|(l & s1 & _ & H)]%bind_Raise.
  { by apply subscript_Raise in H as [_ ->]. }
  apply bind_Raise in H as [H|(s0 & s2 & _ & H)]; [done|].
  apply bind_Raise in H as [H|(new & s3 & _ & H)]; [|done].
  by eapply generate_missing_raise.
Qed.

Lemma link_inputs_raise task_name inputs : ∀ s e k,
  link_inputs task_name inputs s = Raise e → e ≠ KeyError RecipeTable k.
Proof.
  induction inputs as [|f fs IH]; intros s e k H; [done|].
  cbn [link_inputs] in H.
  apply bind_Raise in H as [H|(ns & s1 & _ & H)].
  { by apply subscript_Raise in H as [_ ->]. }
  apply bind_Raise in H as [H|([] & s2 & _ & H)]; [|by eapply IH].
  case_bool_decide; [done|].
  apply bind_Raise in H as [H|([] & s3 & _ & H)].
  - apply append_file_raise in H as ->. done.
  - apply append_name_raise in H as ->. done.
Qed.

Lemma resolve_parents_raise (resolve : Task.t → M (list File.t)) :
  (∀ pt s e k, resolve pt s = Raise e → e = KeyError RecipeTable k →
               _workflow_recipe !! k = None) →
  ∀ ps s e k,
    resolve_parents resolve ps s = Raise e → e = KeyError RecipeTable k →
    _workflow_recipe !! k = None.
Proof.
  intros Hres ps. induction ps as [|p ps IH]; intros s e k H He; [done|].
  cbn [resolve_parents] in H.
  apply bind_Raise in H as [H|(pt & s1 & _ & H)].
  { apply subscript_Raise in H as [_ ->]. done. }
  apply bind_Raise in H as [H|(out & s2 & _ & H)]; [by eapply Hres|].
  apply bind_Raise in H as [H|([] & s3 & _ & H)]; [done|].
  apply bind_Raise in H as [H|(more & s4 & _ & H)]; [by eapply IH|done].
Qed.

(** Whatever the depth at which it is raised, a [KeyError] on the recipe
    table names a category that is not a key of the table. *)
Lemma generate_task_files_raise fuel : ∀ task s e k,
  gen_task_files fuel task s = Raise e → e = KeyError RecipeTable k →
  _workflow_recipe !! k = None.
Proof.
  induction fuel as [|fuel IH]; intros task s e k H He.
  { injection H as <-. done. }
  destruct (tasks_output_files s !! Task.name task) as [c|] eqn:Hm.
  { by rewrite (generate_task_files_hit _ _ _ _ _ _ _ Hm) in H. }
  rewrite generate_task_files_fresh in H by done.
  apply bind_Raise in H as [H|(task_recipe & s1 & _ & H)].
  { apply subscript_Raise in H as [Hnone ->]. by injection He as <-. }
  apply bind_Raise in H as [H|(out & s2 & _ & H)].
  { subst e. by apply generate_files_raise with (k := k) in H. }
  apply bind_Raise in H as [H|(l & s3 & _ & H)].
  { apply subscript_Raise in H as [_ ->]. done. }
  apply bind_Raise in H as [H|([] & s4 & _ & H)]; [done|].
  apply bind_Raise in H as [H|(s5 & s6 & _ & H)]; [done|].
  apply bind_Raise in H as [H|(inputs & s7 & _ & H)].
  { eapply resolve_parents_raise; [|exact H|exact He]. apply IH. }
  apply bind_Raise in H as [H|([] & s8 & _ & H)].
  { subst e. by apply link_inputs_raise with (k := k) in H. }
  apply bind_Raise in H as [H|(extra & s9 & _ & H)]; [|done].
  subst e. by apply generate_files_raise with (k := k) in H.
Qed.

(** C6, as the code has it.  [_generate_task] with a category that is not a
    key of the recipe table raises [KeyError] (a [LookupError]) for it, and
    so does [_generate_task_files] on a task of such a category unless the
    name of the task is in the memo: then the cached list is returned
    without the table being consulted.  When the category is a key, neither
    raises that error: [_generate_task] returns the task or raises
    [IndexError] on the task id, and every [KeyError] on the recipe table
    that [_generate_task_files] lets through names a category absent from
    the table (that of an ancestor). *)
Theorem unknown_category_is_key_error task_name task_id fuel task s :
  (_workflow_recipe !! task_name = None →
     _generate_task generate_rvs _workflow_recipe task_name task_id s =
       Raise (KeyError RecipeTable task_name) ∧
     is_LookupError (KeyError RecipeTable task_name) = true) ∧
  (_workflow_recipe !! Task.category task = None →
     tasks_output_files s !! Task.name task = None →
     gen_task_files (S fuel) task s =
       Raise (KeyError RecipeTable (Task.category task))) ∧
  (∀ cached, tasks_output_files s !! Task.name task = Some cached →
     gen_task_files (S fuel) task s = Ok cached s) ∧
  (is_Some (_workflow_recipe !! task_name) →
     (∃ t s', _generate_task generate_rvs _workflow_recipe task_name task_id s =
                Ok t s') ∨
     _generate_task generate_rvs _workflow_recipe task_name task_id s =
       Raise IndexError) ∧
  (is_Some (_workflow_recipe !! Task.category task) →
     ∀ fuel', gen_task_files fuel' task s ≠
                Raise (KeyError RecipeTable (Task.category task))).
Proof.
  split_and!.
  - intros H. split; [by apply generate_task_unknown_category|done].
  - intros Hc Hm. by apply generate_task_files_unknown_category.
  - intros cached Hm. by apply generate_task_files_hit.
  - intros [r Hr].
    destruct (PyStr.split "_0" task_id !! 1%nat) as [rest|] eqn:Hs.
    + left. destruct (generate_task_ok generate_rvs _ _ _ s _ _ Hr Hs)
        as (t & s' & Hrun & _). eauto.
    + right. by eapply generate_task_index_error.
  - intros [r Hr] fuel' H.
    apply generate_task_files_raise with (k := Task.category task) in H;
      [congruence|done].
Qed.

End Errors.

(** ** What the memo records *)

Section MemoClaims.

Variable generate_rvs : nat → string → Q → Q → Q.
Variable uuid4 : nat → string.
Variable _workflow_recipe : gmap string Recipe.t.

Abbreviation gen_task_files :=
  (_generate_task_files generate_rvs uuid4 _workflow_recipe).

(** For a task whose name is in the memo (a task that a child resolved as
    its parent), calling [_generate_task_files] twice returns the cached
    list both times and leaves the whole engine state as it was, whatever
    the state. *)
Lemma generate_task_files_twice_cached fuel1 fuel2 task s cached :
  tasks_output_files s !! Task.name task = Some cached →
  (first <- gen_task_files (S fuel1) task ;;
   second <- gen_task_files (S fuel2) task ;;
   ret (first, second)) s = Ok (cached, cached) s.
Proof.
  intros Hm. unfold bind.
  rewrite (generate_task_files_hit _ _ _ fuel1 _ _ _ Hm).
  by rewrite (generate_task_files_hit _ _ _ fuel2 _ _ _ Hm).
Qed.

(** C3, as the code has it.  When a call on a registered task that is not
    in the memo returns, the task is still not in the memo (its outputs are
    recorded by the loop of a child that resolves it as a parent, not by its
    own call); every parent listed for it is in the memo, and a later call
    on a parent takes the memo-hit path and returns the cached list; the
    entries the memo had keep their values. *)
Theorem generate_task_files_records_parents fuel task s r s' :
  names_agree s → memo_closed s → registered s task →
  tasks_output_files s !! Task.name task = None →
  gen_task_files fuel task s = Ok r s' →
  tasks_output_files s' !! Task.name task = None ∧
  (∀ p, p ∈ parents_of s (Task.name task) →
     ∃ out, tasks_output_files s' !! p = Some out ∧
       ∀ fuel' pt, Task.name pt = p →
         gen_task_files (S fuel') pt s' = Ok out s') ∧
  (∀ k v, tasks_output_files s !! k = Some v →
          tasks_output_files s' !! k = Some v).
Proof.
  intros Hna Hc Hreg Hm H. split_and!.
  - by eapply generate_task_files_not_self.
  - intros p Hp.
    destruct (generate_task_files_closed _ _ _ _ _ _ _ _ H Hna Hc) as [_ Hps].
    destruct (Hps p Hp) as [out Hout]. exists out. split; [done|].
    intros fuel' pt <-. by apply generate_task_files_hit.
  - intros k v. by eapply generate_task_files_memo_stable.
Qed.

End MemoClaims.

(** ** The invariant is kept by every state change *)

Lemma files_of_Some s k l fs :
  tasks_files s !! k = Some l → lists s !! l = Some fs → files_of s k = fs.
Proof. intros Hl Hfs. unfold files_of. rewrite Hl. by apply read_list_Some. Qed.

Lemma elem_of_files_of_in_heap uuid4 s k f :
  engine_inv uuid4 s → f ∈ files_of s k → in_heap s f.
Proof.
  intros Hinv. unfold files_of.
  destruct (tasks_files s !! k) as [l|] eqn:Hl; [|by intros ?%elem_of_nil].
  destruct (inv_sync _ _ Hinv _ _ Hl) as (fs & Hfs & _).
  rewrite (read_list_Some _ _ _ Hfs). intros Hf. by exists l, fs.
Qed.

Lemma inv_memo_closed uuid4 s : engine_inv uuid4 s → memo_closed s.
Proof.
  intros Hinv k p [out Hout] Hp.
  destruct (inv_memo _ _ Hinv _ _ Hout) as (t & l & _ & _ & _ & _ & Hps).
  destruct (Hps p Hp) as (pout & -> & _). eauto.
Qed.

Lemma elem_of_outputs s k f :
  f ∈ outputs s k ↔ File.link f = OUTPUT ∧ f ∈ files_of s k.
Proof.
  unfold outputs, has_link. rewrite list_elem_of_filter, bool_decide_eq_true.
  done.
Qed.

(** The outputs recorded for a task are OUTPUT files of its list. *)
Lemma resolved_outputs uuid4 s k out f :
  resolved uuid4 s k out → f ∈ out → File.link f = OUTPUT ∧ f ∈ files_of s k.
Proof. intros (t & l & _ & _ & _ & -> & _). by apply elem_of_outputs. Qed.

(** A list that grows keeps its members. *)
Lemma files_of_grows s s' k f :
  grows s s' → (∀ l, tasks_files s !! k = Some l → is_Some (lists s !! l)) →
  f ∈ files_of s k → f ∈ files_of s' k.
Proof.
  intros Hg Hdom. unfold files_of. rewrite (grows_tasks_files _ _ Hg).
  destruct (tasks_files s !! k) as [l|] eqn:Hl; [|done].
  destruct (Hdom l eq_refl) as [fs Hfs].
  destruct (grows_lists _ _ Hg _ _ Hfs) as [more Hmore].
  rewrite (read_list_Some _ _ _ Hfs), (read_list_Some _ _ _ Hmore).
  intros Hf. apply elem_of_app. by left.
Qed.

Section Invariant.

Variable uuid4 : nat → string.

Lemma step_grows s s' : step uuid4 s s' → grows s s'.
Proof.
  destruct 1.
  - etrans; [apply (grows_draws (S (uuid_drawn s)) b); lia|].
    by apply grows_add_file.
  - by apply grows_add_file.
  - apply grows_set_slots.
  - apply grows_set_memo.
Qed.

(** A name built on the next token is the name of no file in the store. *)
Lemma fresh_name_not_in_heap s ext f :
  tokens_fresh uuid4 →
  engine_inv uuid4 s → in_heap s f →
  File.name f ≠ uuid4 (uuid_drawn s) +:+ ext.
Proof.
  intros uuid4_fresh Hinv Hf Heq.
  destruct (inv_tok _ _ Hinv _ Hf) as (i & e & Hi & Hn).
  rewrite Hn in Heq. apply uuid4_fresh in Heq. lia.
Qed.

Lemma files_of_add_file s0 s k l ns f k1 :
  engine_inv uuid4 s0 → tasks_files s = tasks_files s0 → lists s = lists s0 →
  tasks_files s0 !! k = Some l →
  files_of (add_file k l ns f s) k1 =
    if decide (k1 = k) then files_of s0 k1 ++ [f] else files_of s0 k1.
Proof.
  intros Hinv Htf Hlists Hl.
  destruct (inv_sync _ _ Hinv _ _ Hl) as (fs & Hfs & _).
  assert (Hread : read_list l s = fs).
  { apply read_list_Some. by rewrite Hlists. }
  unfold files_of. simpl. rewrite Htf.
  destruct (tasks_files s0 !! k1) as [l1|] eqn:Hl1; cycle 1.
  { case_decide; [congruence|done]. }
  unfold read_list at 1. simpl. fold (read_list l s). rewrite Hread, Hlists.
  destruct (decide (l = l1)) as [<-|Hne].
  - assert (k1 = k) as -> by (by eapply (inv_inj _ _ Hinv)).
    rewrite lookup_insert_eq, decide_True by done. simpl.
    by rewrite (read_list_Some _ _ _ Hfs).
  - rewrite lookup_insert_ne by done. unfold read_list.
    case_decide; [congruence|done].
Qed.

(** Appending a file to the list of a task.  For the clauses that rest on
    distinct names, the name of the file is new to that list, and the file
    agrees in size with the files of the same name. *)
Lemma engine_inv_add_file s0 s k l ns f :
  engine_inv uuid4 s0 → grows s0 s →
  lists s = lists s0 → tasks_files_names s = tasks_files_names s0 →
  slots s = slots s0 → tasks_output_files s = tasks_output_files s0 →
  (uuid_drawn s0 ≤ uuid_drawn s)%nat →
  tasks_files s0 !! k = Some l → tasks_files_names s0 !! k = Some ns →
  (tokens_fresh uuid4 → File.name f ∉ ns) →
  (∃ i ext, (i < uuid_drawn s)%nat ∧ File.name f = uuid4 i +:+ ext) →
  (tokens_fresh uuid4 →
   ∀ g, in_heap s0 g → File.name f = File.name g →
        File.size f = File.size g ∧ File.link f = INPUT) →
  (File.link f = OUTPUT → tasks_output_files s0 !! k = None) →
  engine_inv uuid4 (add_file k l ns f s).
Proof.
  intros Hinv Hg Hlists Hnames Hslots Hmemo Hu Hl Hns Hnew Htok Hsame Hfresh.
  destruct (inv_sync _ _ Hinv _ _ Hl) as (fs & Hfs & Hns').
  assert (ns = File.name <$> fs) as -> by congruence.
  assert (Hread : read_list l s = fs).
  { apply read_list_Some. by rewrite Hlists. }
  assert (Hheap : ∀ g, in_heap (add_file k l (File.name <$> fs) f s) g ↔
                       g = f ∨ in_heap s0 g).
  { intros g. unfold in_heap. simpl. rewrite Hread, Hlists. split.
    - intros (l1 & fs1 & H1 & Hg1).
      destruct (decide (l = l1)) as [<-|Hne].
      + rewrite lookup_insert_eq in H1. injection H1 as <-.
        apply elem_of_app in Hg1 as [Hg1|Hg1%list_elem_of_singleton];
          [right; by exists l, fs|by left].
      + rewrite lookup_insert_ne in H1 by done. right. by exists l1, fs1.
    - intros [->|(l1 & fs1 & H1 & Hg1)].
      + exists l, (fs ++ [f]). rewrite lookup_insert_eq. split; [done|].
        apply elem_of_app. right. by apply list_elem_of_singleton.
      + destruct (decide (l = l1)) as [<-|Hne].
        * exists l, (fs ++ [f]). rewrite lookup_insert_eq. split; [done|].
          apply elem_of_app. left. congruence.
        * exists l1, fs1. by rewrite lookup_insert_ne. }
  assert (Hfiles_eq : ∀ k1,
            files_of (add_file k l (File.name <$> fs) f s) k1 =
            if decide (k1 = k) then files_of s0 k1 ++ [f] else files_of s0 k1).
  { intros k1. apply files_of_add_file; try done.
    apply (grows_tasks_files _ _ Hg). }
  assert (Hfiles : ∀ k1 g, g ∈ files_of (add_file k l (File.name <$> fs) f s) k1 ↔
                           (k1 = k ∧ g = f) ∨ g ∈ files_of s0 k1).
  { intros k1 g. rewrite Hfiles_eq. case_decide as Hk.
    - rewrite elem_of_app, list_elem_of_singleton.
      split; [intros [?|?]; [by right|by left]|].
      intros [[_ ?]|?]; [by right|by left].
    - split; [by right|]. by intros [[? _]|?]. }
  split.
  - intros k1 t1. simpl. rewrite (grows_tasks_map _ _ Hg).
    apply (inv_names_agree _ _ Hinv).
  - intros k1 l1. simpl. rewrite (grows_tasks_files _ _ Hg), Hread, Hlists, Hnames.
    intros Hl1. destruct (decide (k1 = k)) as [->|Hne].
    + assert (l1 = l) as -> by congruence.
      exists (fs ++ [f]). rewrite !lookup_insert_eq. by rewrite fmap_app.
    + assert (l ≠ l1).
      { intros <-. apply Hne. by eapply (inv_inj _ _ Hinv). }
      rewrite !lookup_insert_ne by done. by apply (inv_sync _ _ Hinv).
  - intros k1 k2 l1. simpl. rewrite (grows_tasks_files _ _ Hg).
    apply (inv_inj _ _ Hinv).
  - intros Hfr l1 fs1. simpl. rewrite Hread, Hlists.
    destruct (decide (l = l1)) as [<-|Hne].
    + rewrite lookup_insert_eq. intros [= <-].
      rewrite fmap_app. apply NoDup_app. split_and!.
      * by apply (inv_nodup _ _ Hinv Hfr l).
      * intros x Hx ->%list_elem_of_singleton. by apply Hnew.
      * apply NoDup_singleton.
    + rewrite lookup_insert_ne by done. apply (inv_nodup _ _ Hinv Hfr).
  - intros g [->|Hg0]%Hheap; simpl; [done|].
    destruct (inv_tok _ _ Hinv _ Hg0) as (i & e & Hi & Hn).
    exists i, e. split; [lia|done].
  - intros Hfr g1 g2 [->|H1]%Hheap [->|H2]%Hheap Hn; [done| | |].
    + by apply Hsame.
    + symmetry. by apply Hsame.
    + by apply (inv_size _ _ Hinv).
  - intros Hfr k1 k2 g1 g2 [[-> ->]|H1]%Hfiles [[-> ->]|H2]%Hfiles Ho1 Ho2 Hn;
      [done| | |].
    + destruct (Hsame Hfr g2) as [_ Hin];
        [by eapply elem_of_files_of_in_heap|done|].
      congruence.
    + destruct (Hsame Hfr g1) as [_ Hin];
        [by eapply elem_of_files_of_in_heap|done|].
      congruence.
    + by eapply (inv_own _ _ Hinv).
  - intros k1 k2 t1 t2. simpl. rewrite (grows_tasks_map _ _ Hg).
    apply (inv_slots _ _ Hinv).
  - intros k1 t1. simpl. rewrite (grows_tasks_map _ _ Hg), Hslots.
    apply (inv_slot_dom _ _ Hinv).
  - intros k1 out. simpl. rewrite Hmemo. intros Hout.
    destruct (inv_memo _ _ Hinv _ _ Hout) as (t1 & l1 & Ht1 & Hl1 & Hs1 & Ho & Hp).
    exists t1, l1. simpl.
    rewrite (grows_tasks_map _ _ Hg), (grows_tasks_files _ _ Hg), Hslots, Hmemo.
    split_and!; try done.
    + rewrite Ho. unfold outputs. rewrite Hfiles_eq.
      case_decide as Hk; [|done]. subst k1.
      rewrite filter_app.
      destruct (File.link f) eqn:Hlf.
      * rewrite (filter_cons_False _ f); [by rewrite filter_nil, app_nil_r|].
        unfold has_link. rewrite Hlf. by rewrite bool_decide_eq_false_2.
      * rewrite Hfresh in Hout; done.
    + intros p. unfold parents_of. simpl.
      rewrite (grows_tasks_parents _ _ Hg). intros Hpp.
      destruct (Hp p Hpp) as (pout & Hpout & Hlinks). exists pout.
      split; [done|]. intros g Hgo. destruct (Hlinks g Hgo) as (g' & Hg' & ?).
      exists g'. split; [|done]. apply Hfiles. by right.
Qed.

Lemma engine_inv_set_slots s t l :
  engine_inv uuid4 s → registered s t → tasks_files s !! Task.name t = Some l →
  engine_inv uuid4 (set_slots (<[Task.files t := l]> (slots s)) s).
Proof.
  intros Hinv Hreg Hl. split; try apply Hinv.
  - intros k1 t1 Ht1. simpl. apply lookup_insert_is_Some.
    destruct (decide (Task.files t = Task.files t1)); [by left|right].
    split; [done|]. by apply (inv_slot_dom _ _ Hinv k1).
  - intros k1 out Hout.
    destruct (inv_memo _ _ Hinv _ _ Hout) as (t1 & l1 & Ht1 & Hl1 & Hs1 & Ho & Hp).
    exists t1, l1. split_and!; try done. simpl.
    destruct (decide (Task.files t = Task.files t1)) as [Heq|Hne];
      [|by rewrite lookup_insert_ne].
    rewrite Heq, lookup_insert_eq.
    assert (Task.name t = k1) as <- by (by eapply (inv_slots _ _ Hinv)).
    congruence.
Qed.

Lemma engine_inv_set_memo s p out :
  engine_inv uuid4 s → resolved uuid4 s p out →
  (∀ c, tasks_output_files s !! p = Some c → out = c) →
  engine_inv uuid4
    (set_tasks_output_files (<[p := out]> (tasks_output_files s)) s).
Proof.
  intros Hinv Hres Hsame. split; try apply Hinv.
  intros k1 out1. simpl. intros Hout1.
  assert (Hres1 : resolved uuid4 s k1 out1).
  { destruct (decide (p = k1)) as [<-|Hne].
    - rewrite lookup_insert_eq in Hout1. by injection Hout1 as <-.
    - rewrite lookup_insert_ne in Hout1 by done. by apply (inv_memo _ _ Hinv). }
  destruct Hres1 as (t1 & l1 & Ht1 & Hl1 & Hs1 & Ho & Hp).
  exists t1, l1. split_and!; try done.
  intros q Hq. destruct (Hp q Hq) as (pout & Hpout & Hlinks).
  exists pout. split; [|done]. simpl.
  destruct (decide (p = q)) as [<-|Hne]; [|by rewrite lookup_insert_ne].
  rewrite lookup_insert_eq. f_equal. by apply Hsame.
Qed.

Lemma step_inv s s' : engine_inv uuid4 s → step uuid4 s s' → engine_inv uuid4 s'.
Proof.
  intros Hinv Hstep. destruct Hstep as [s k l ns ext lk sz b Hl Hns Hlk
    |s k l ns f Hl Hns Hnew Hf|s t l Hreg Hl|s p out Hres Hsame].
  - destruct (inv_sync _ _ Hinv _ _ Hl) as (fs & Hfs & Hns').
    assert (ns = File.name <$> fs) as -> by congruence.
    apply (engine_inv_add_file s); try done.
    + apply grows_draws. lia.
    + simpl. lia.
    + simpl. intros Hfr (g & Hn & Hg)%list_elem_of_fmap.
      eapply (fresh_name_not_in_heap s ext g); [done|done| |done].
      by exists l, fs.
    + simpl. exists (uuid_drawn s), ext. split; [lia|done].
    + simpl. intros Hfr g Hg Hn. exfalso.
      by eapply (fresh_name_not_in_heap s ext g).
  - apply (engine_inv_add_file s); try done.
    + simpl. destruct (inv_tok _ _ Hinv _ Hf) as (i & e & Hi & Hn).
      exists i, e. split; [lia|done].
    + simpl. intros Hfr g Hg Hn. split; [|done].
      by apply (inv_size _ _ Hinv).
  - by apply engine_inv_set_slots.
  - by apply engine_inv_set_memo.
Qed.

Lemma steps_inv s s' :
  engine_inv uuid4 s → rtc (step uuid4) s s' → engine_inv uuid4 s'.
Proof. intros Hinv Hsteps. induction Hsteps; eauto using step_inv. Qed.

Lemma steps_grows s s' : rtc (step uuid4) s s' → grows s s'.
Proof.
  induction 1 as [|s1 s2 s3 H _ IH]; [reflexivity|].
  etrans; [by apply step_grows|done].
Qed.

(** No state change rewrites an entry of the memo. *)
Lemma steps_memo s s' k v :
  rtc (step uuid4) s s' →
  tasks_output_files s !! k = Some v → tasks_output_files s' !! k = Some v.
Proof.
  induction 1 as [|s1 s2 s3 H _ IH]; [done|]. intros Hk. apply IH.
  destruct H as [| | |s p out Hres Hsame]; try done. simpl.
  destruct (decide (p = k)) as [->|Hne]; [|by rewrite lookup_insert_ne].
  rewrite lookup_insert_eq. f_equal. by apply Hsame.
Qed.

End Invariant.

(** ** A call is a sequence of state changes that keep the invariant *)

Lemma in_heap_grows s s' f : grows s s' → in_heap s f → in_heap s' f.
Proof.
  intros Hg (l & fs & Hfs & Hf).
  destruct (grows_lists _ _ Hg _ _ Hfs) as [more Hmore].
  exists l, (fs ++ more). split; [done|]. apply elem_of_app. by left.
Qed.

Section Main.

Variable generate_rvs : nat → string → Q → Q → Q.
Variable uuid4 : nat → string.
Variable _workflow_recipe : gmap string Recipe.t.

Abbreviation gen_missing := (generate_missing generate_rvs uuid4).
Abbreviation gen_files := (_generate_files generate_rvs uuid4).
Abbreviation gen_task_files :=
  (_generate_task_files generate_rvs uuid4 _workflow_recipe).
Abbreviation steps := (rtc (step uuid4)).

Lemma files_of_steps s s' k f :
  engine_inv uuid4 s → steps s s' → f ∈ files_of s k → f ∈ files_of s' k.
Proof.
  intros Hinv Hsteps. apply files_of_grows; [by apply (steps_grows uuid4)|].
  intros l Hl. destruct (inv_sync _ _ Hinv _ _ Hl) as (fs & -> & _). eauto.
Qed.

Lemma filter_all {A} (P : A → Prop) `{∀ x, Decision (P x)} (l : list A) :
  (∀ x, x ∈ l → P x) → filter P l = l.
Proof.
  induction l as [|x l IH]; intros Hall; [done|].
  rewrite filter_cons_True by (apply Hall; left).
  f_equal. apply IH. intros y Hy. apply Hall. by right.
Qed.

Lemma filter_none {A} (P : A → Prop) `{∀ x, Decision (P x)} (l : list A) :
  (∀ x, x ∈ l → ¬ P x) → filter P l = [].
Proof.
  induction l as [|x l IH]; intros Hall; [done|].
  rewrite filter_cons_False by (apply Hall; left).
  apply IH. intros y Hy. apply Hall. by right.
Qed.

Lemma has_link_true link f : has_link link f = true ↔ File.link f = link.
Proof. unfold has_link. by rewrite bool_decide_eq_true. Qed.

Lemma outputs_app_inputs (fs new : list File.t) :
  (∀ f, f ∈ new → File.link f = INPUT) →
  filter (λ f, has_link OUTPUT f = true) (fs ++ new) =
  filter (λ f, has_link OUTPUT f = true) fs.
Proof.
  intros Hnew. rewrite filter_app, (filter_none _ new), app_nil_r; [done|].
  intros f Hf Hout%has_link_true. rewrite (Hnew f Hf) in Hout. done.
Qed.

Lemma generate_missing_steps task_id recipe link exts todo : ∀ s new s',
  engine_inv uuid4 s →
  (link = OUTPUT → tasks_output_files s !! task_id = None) →
  gen_missing task_id recipe link exts todo s = Ok new s' →
  steps s s' ∧
  (∀ f, f ∈ new → File.link f = link) ∧
  files_of s' task_id = files_of s task_id ++ new ∧
  (∀ k, k ≠ task_id → files_of s' k = files_of s k).
Proof.
  induction todo as [|ext rest IH]; intros s new s' Hinv Hlk H.
  - injection H as <- <-.
    split_and!; [done|by intros f ?%elem_of_nil|by rewrite app_nil_r|done].
  - apply generate_missing_cons in H
      as [[_ H]|[_ (d & l & ns & more & Hd & Hl & Hns & H & ->)]]; [eauto|].
    set (f := {| File.name := uuid4 (uuid_drawn s) +:+ ext; File.link := link;
                 File.size := int_of_float (size_factor s link *
                                next_sample generate_rvs s d) |}) in *.
    set (s0 := set_uuid_drawn (S (uuid_drawn s))
                 (set_rvs_drawn (S (rvs_drawn s)) s)) in *.
    assert (Hstep : step uuid4 s (add_file task_id l ns f s0)).
    { by apply step_generate. }
    pose proof (step_inv _ _ _ Hinv Hstep) as Hinv1.
    assert (Hfo : ∀ k1, files_of (add_file task_id l ns f s0) k1 =
              if decide (k1 = task_id) then files_of s k1 ++ [f]
              else files_of s k1).
    { intros k1. by apply (files_of_add_file uuid4 s). }
    destruct (IH _ _ _ Hinv1 Hlk H) as (Hsteps & Hnew & Hsame & Hother).
    split_and!.
    + by eapply rtc_l.
    + intros g [->|Hg]%elem_of_cons; [done|by apply Hnew].
    + rewrite Hsame, Hfo, decide_True by done. by rewrite <- app_assoc.
    + intros k Hk. rewrite (Hother k Hk), Hfo. by rewrite decide_False.
Qed.

Lemma generate_files_steps task_id recipe link s r s' :
  engine_inv uuid4 s →
  (link = OUTPUT → tasks_output_files s !! task_id = None) →
  gen_files task_id recipe link s = Ok r s' →
  steps s s' ∧
  r = filter (λ f, has_link link f = true) (files_of s' task_id) ∧
  (∀ k, k ≠ task_id → files_of s' k = files_of s k) ∧
  (link = INPUT → ∀ k, outputs s' k = outputs s k).
Proof.
  intros Hinv Hlk (l & new & Hl & H & ->)%generate_files_Ok.
  destruct (generate_missing_steps _ _ _ _ _ _ _ _ Hinv Hlk H)
    as (Hsteps & Hnew & Hsame & Hother).
  assert (Hfo : files_of s task_id = read_list l s).
  { unfold files_of. by rewrite Hl. }
  split_and!; [done| |done|].
  - rewrite Hsame, filter_app, Hfo. f_equal. symmetry. apply filter_all.
    intros f Hf. apply has_link_true. by apply Hnew.
  - intros -> k. unfold outputs.
    destruct (decide (k = task_id)) as [->|Hne]; [|by rewrite Hother].
    rewrite Hsame. by apply outputs_app_inputs.
Qed.

(** After the linking loop every candidate has a file of its name in the
    list of the task: an input appended by the loop, or a file that was
    there before.  The loop appends inputs only. *)
Lemma link_inputs_steps task_name inputs : ∀ s s',
  engine_inv uuid4 s → (∀ f, f ∈ inputs → in_heap s f) →
  is_Some (tasks_files s !! task_name) →
  link_inputs task_name inputs s = Ok tt s' →
  steps s s' ∧
  (∀ f, f ∈ inputs →
     ∃ g, g ∈ files_of s' task_name ∧ File.name g = File.name f ∧
          (File.link g = INPUT ∨ g ∈ files_of s task_name)) ∧
  (∀ k, outputs s' k = outputs s k).
Proof.
  induction inputs as [|f fs IH]; intros s s' Hinv Hheap [l0 Hl0] H.
  - injection H as <-. split_and!; [done|by intros f ?%elem_of_nil|done].
  - apply link_inputs_cons in H
      as (ns & Hns & [[Hin H]|[Hin (l & Hl & H)]]).
    + destruct (IH s s' Hinv) as (Hsteps & Hpost & Hout);
        [intros g Hg; apply Hheap; by right|by eauto|exact H|].
      split_and!; [done| |done].
      intros g [->|Hg]%elem_of_cons; [|by apply Hpost].
      destruct (inv_sync _ _ Hinv _ _ Hl0) as (fs0 & Hfs0 & Hns0).
      assert (ns = File.name <$> fs0) as -> by congruence.
      apply list_elem_of_fmap in Hin as (g0 & Hn & Hg0).
      assert (Hg0' : g0 ∈ files_of s task_name).
      { by rewrite (files_of_Some _ _ _ _ Hl0 Hfs0). }
      exists g0. split_and!; [|done|by right].
      by eapply files_of_steps.
    + set (g := {| File.name := File.name f; File.link := INPUT;
                   File.size := File.size f |}) in *.
      assert (Hstep : step uuid4 s (add_file task_name l ns g s)).
      { apply (step_input uuid4 s task_name l ns f); try done.
        apply Hheap. by left. }
      pose proof (step_inv _ _ _ Hinv Hstep) as Hinv1.
      pose proof (step_grows _ _ _ Hstep) as Hg1.
      assert (Hfo : ∀ k1, files_of (add_file task_name l ns g s) k1 =
                if decide (k1 = task_name) then files_of s k1 ++ [g]
                else files_of s k1).
      { intros k1. by apply (files_of_add_file uuid4 s). }
      destruct (IH _ s' Hinv1) as (Hsteps & Hpost & Hout);
        [|simpl; by eauto|exact H|].
      { intros g' Hg'. eapply in_heap_grows; [exact Hg1|]. apply Hheap. by right. }
      split_and!; [by eapply rtc_l| |].
      * intros g' [->|Hg']%elem_of_cons.
        -- exists g. split_and!; [|done|by left].
           eapply files_of_steps; [exact Hinv1|exact Hsteps|].
           rewrite Hfo, decide_True by done. apply elem_of_app. right.
           by apply list_elem_of_singleton.
        -- destruct (Hpost g' Hg') as (g0 & Hg0 & Hn0 & Hor).
           exists g0. split_and!; [done|done|].
           destruct Hor as [?|Hold]; [by left|].
           rewrite Hfo, decide_True in Hold by done.
           apply elem_of_app in Hold as [Hold|Hold%list_elem_of_singleton];
             [by right|left; by subst g0].
      * intros k. rewrite Hout. unfold outputs. rewrite Hfo.
        case_decide; [|done]. apply outputs_app_inputs.
        by intros g' ->%list_elem_of_singleton.
Qed.

Lemma registered_grows s s' t : grows s s' → registered s t → registered s' t.
Proof. intros Hg. unfold registered. by rewrite (grows_tasks_map _ _ Hg). Qed.

(** Once the [files] attribute of a registered task is the list tracked
    for it, it stays so. *)
Lemma steps_slot s s' t l :
  engine_inv uuid4 s → steps s s' → registered s t →
  tasks_files s !! Task.name t = Some l →
  slots s !! Task.files t = Some l → slots s' !! Task.files t = Some l.
Proof.
  intros Hinv Hsteps. revert Hinv.
  induction Hsteps as [|s1 s2 s3 Hstep _ IH]; intros Hinv Hreg Hl Hs; [done|].
  pose proof (step_grows _ _ _ Hstep) as Hg.
  apply IH.
  - by eapply step_inv.
  - by eapply registered_grows.
  - by rewrite (grows_tasks_files _ _ Hg).
  - destruct Hstep as [| |s t' l' Hreg' Hl'|]; try done. simpl.
    destruct (decide (Task.files t' = Task.files t)) as [Heq|Hne];
      [|by rewrite lookup_insert_ne].
    rewrite Heq, lookup_insert_eq.
    assert (Task.name t' = Task.name t) as Hn
      by (by eapply (inv_slots _ _ Hinv)).
    congruence.
Qed.

Lemma memo_None_grows s s' k :
  grows s s' → tasks_output_files s' !! k = None →
  tasks_output_files s !! k = None.
Proof.
  intros Hg Hnone. destruct (tasks_output_files s !! k) eqn:Hk; [|done].
  destruct (grows_memo _ _ Hg k) as [v Hv]; [by rewrite Hk|]. congruence.
Qed.

Lemma resolve_parents_steps fuel :
  (∀ pt s r s', engine_inv uuid4 s → registered s pt →
     gen_task_files fuel pt s = Ok r s' →
     steps s s' ∧ resolved uuid4 s' (Task.name pt) r ∧
     ∀ k, k ≠ Task.name pt → tasks_output_files s' !! k = None →
          outputs s' k = outputs s k) →
  ∀ ps s r s',
    engine_inv uuid4 s →
    resolve_parents (gen_task_files fuel) ps s = Ok r s' →
    steps s s' ∧
    (∀ p, p ∈ ps →
       ∃ pout, tasks_output_files s' !! p = Some pout ∧ ∀ f, f ∈ pout → f ∈ r) ∧
    (∀ f, f ∈ r →
       ∃ p pout, p ∈ ps ∧ tasks_output_files s' !! p = Some pout ∧ f ∈ pout) ∧
    (∀ k, tasks_output_files s' !! k = None → outputs s' k = outputs s k).
Proof.
  intros IHf ps. induction ps as [|p ps IH]; intros s r s' Hinv H.
  - apply resolve_parents_nil in H as [-> ->].
    split_and!;
      [done|by intros p ?%elem_of_nil|by intros f ?%elem_of_nil|done].
  - apply resolve_parents_cons in H
      as (pt & out & s1 & more & Hpt & Hout & Hmore & ->).
    pose proof (inv_names_agree _ _ Hinv) as Hna.
    pose proof (inv_memo_closed _ _ Hinv) as Hc.
    assert (Hn : Task.name pt = p) by (by apply Hna).
    assert (Hreg : registered s pt) by (unfold registered; by rewrite Hn).
    destruct (IHf _ _ _ _ Hinv Hreg Hout) as (Hsteps1 & Hres1 & Hkeep1).
    rewrite Hn in Hres1, Hkeep1.
    pose proof (steps_inv _ _ _ Hinv Hsteps1) as Hinv1.
    assert (Hsame : ∀ c, tasks_output_files s1 !! p = Some c → out = c).
    { intros c Hc1.
      destruct (tasks_output_files s !! p) as [c0|] eqn:Hc0.
      - destruct fuel as [|fuel]; [done|]. rewrite <- Hn in Hc0.
        rewrite (generate_task_files_hit _ _ _ _ _ _ _ Hc0) in Hout.
        injection Hout as <- <-. rewrite Hn in Hc0. congruence.
      - rewrite <- Hn in Hc0, Hc1.
        pose proof (generate_task_files_not_self _ _ _ _ _ _ _ _
                      Hna Hc Hreg Hc0 Hout) as Hnone.
        congruence. }
    set (s1' := set_tasks_output_files (<[p:=out]> (tasks_output_files s1)) s1)
      in *.
    assert (Hstep : step uuid4 s1 s1') by (by apply step_memo).
    pose proof (step_inv _ _ _ Hinv1 Hstep) as Hinv1'.
    destruct (IH _ _ _ Hinv1' Hmore) as (Hsteps2 & Hps & Hfs & Hkeep2).
    assert (Hp' : tasks_output_files s' !! p = Some out).
    { eapply steps_memo; [exact Hsteps2|]. simpl. by rewrite lookup_insert_eq. }
    split_and!.
    + etrans; [exact Hsteps1|]. by eapply rtc_l.
    + intros q [->|Hq]%elem_of_cons.
      * exists out. split; [done|]. intros f Hf. apply elem_of_app. by left.
      * destruct (Hps q Hq) as (pout & Hpout & Hsub). exists pout.
        split; [done|]. intros f Hf. apply elem_of_app. right. by apply Hsub.
    + intros f [Hf|Hf]%elem_of_app.
      * exists p, out. split_and!; [left|done|done].
      * destruct (Hfs f Hf) as (q & pout & Hq & Hpout & Hin).
        exists q, pout. split_and!; [by right|done|done].
    + intros k Hk. rewrite (Hkeep2 k Hk).
      change (outputs s1' k) with (outputs s1 k).
      apply Hkeep1; [congruence|].
      eapply (memo_None_grows s1 s'); [|done].
      etrans; [by apply (step_grows uuid4)|by apply (steps_grows uuid4)].
Qed.

(** The main lemma: a call that returns went through state changes that
    keep the invariant, its task ends up resolved, and the outputs of the
    tasks it did not enter in the memo are as before (those of its own task
    apart). *)
Lemma generate_task_files_steps fuel : ∀ task s r s',
  engine_inv uuid4 s → registered s task →
  gen_task_files fuel task s = Ok r s' →
  steps s s' ∧ resolved uuid4 s' (Task.name task) r ∧
  ∀ k, k ≠ Task.name task → tasks_output_files s' !! k = None →
       outputs s' k = outputs s k.
Proof.
  induction fuel as [|fuel IH]; intros task s r s' Hinv Hreg Hrun; [done|].
  destruct (tasks_output_files s !! Task.name task) as [c|] eqn:Hm.
  { rewrite (generate_task_files_hit _ _ _ _ _ _ _ Hm) in Hrun.
    injection Hrun as <- <-.
    split_and!; [done|by apply (inv_memo _ _ Hinv)|done]. }
  pose proof (inv_names_agree _ _ Hinv) as Hna.
  pose proof (inv_memo_closed _ _ Hinv) as Hc.
  pose proof (generate_task_files_not_self _ _ _ _ _ _ _ _
                Hna Hc Hreg Hm Hrun) as Hself.
  pose proof Hrun as H.
  apply generate_task_files_fresh_Ok in H
    as (task_recipe & l & s1 & inputs & s2 & s3 & extra &
        Hr & Hout & Hl & Hres & Hlink & Hextra); [|done].
  set (k := Task.name task) in *.
  destruct (generate_files_steps _ _ _ _ _ _ Hinv (λ _, Hm) Hout)
    as (St1 & Hr1 & Hoth1 & _).
  pose proof (steps_inv _ _ _ Hinv St1) as Hinv1.
  pose proof (steps_grows _ _ _ St1) as Hg1.
  set (s1' := set_slots (<[Task.files task:=l]> (slots s1)) s1) in *.
  assert (Hstep2 : step uuid4 s1 s1').
  { apply step_slot; [|done]. by eapply registered_grows. }
  pose proof (step_inv _ _ _ Hinv1 Hstep2) as Hinv1'.
  change (tasks_parents s1' !! k) with (tasks_parents s1 !! k) in Hres.
  fold (parents_of s1 k) in Hres.
  rewrite (parents_of_grows _ _ _ Hg1) in Hres.
  destruct (resolve_parents_steps fuel IH _ _ _ _ Hinv1' Hres)
    as (St3 & Post3 & Post3' & Keep3).
  pose proof (steps_inv _ _ _ Hinv1' St3) as Hinv2.
  pose proof (steps_grows _ _ _ St3) as Hg3.
  assert (Hheap : ∀ f, f ∈ inputs → in_heap s2 f).
  { intros f Hf. destruct (Post3' f Hf) as (p & pout & _ & Hpout & Hin).
    eapply elem_of_files_of_in_heap; [exact Hinv2|].
    eapply resolved_outputs; [|exact Hin]. by apply (inv_memo _ _ Hinv2). }
  assert (Hl2 : tasks_files s2 !! k = Some l).
  { rewrite (grows_tasks_files _ _ Hg3). done. }
  destruct (link_inputs_steps _ _ _ _ Hinv2 Hheap (mk_is_Some _ _ Hl2) Hlink)
    as (St4 & Post4 & Keep4).
  pose proof (steps_inv _ _ _ Hinv2 St4) as Hinv3.
  pose proof (steps_grows _ _ _ St4) as Hg4.
  assert (Hin_lk : INPUT = OUTPUT → tasks_output_files s3 !! k = None) by done.
  destruct (generate_files_steps _ _ _ _ _ _ Hinv3 Hin_lk Hextra)
    as (St5 & _ & _ & Keep5).
  specialize (Keep5 eq_refl).
  pose proof (steps_grows _ _ _ St5) as Hg5.
  assert (Hall : steps s1' s').
  { etrans; [exact St3|]. etrans; [exact St4|exact St5]. }
  pose proof (steps_grows _ _ _ Hall) as Hgall.
  assert (Hkeep : ∀ k1, tasks_output_files s' !! k1 = None →
            outputs s' k1 = outputs s1 k1).
  { intros k1 Hk1. rewrite Keep5, Keep4. apply Keep3.
    eapply (memo_None_grows s2 s'); [|done]. by etrans. }
  split_and!.
  { etrans; [exact St1|]. by eapply rtc_l. }
  - exists task, l. split_and!.
    + rewrite (grows_tasks_map _ _ Hgall). simpl.
      rewrite (grows_tasks_map _ _ Hg1). exact Hreg.
    + by rewrite (grows_tasks_files _ _ Hgall).
    + eapply steps_slot; [exact Hinv1'|exact Hall| |done|].
      * apply (registered_grows s); [|done].
        etrans; [exact Hg1|apply grows_set_slots].
      * simpl. by rewrite lookup_insert_eq.
    + rewrite (Hkeep k Hself). exact Hr1.
    + intros p. rewrite (parents_of_grows _ _ _ Hgall).
      change (parents_of s1' p) with (parents_of s1 p).
      unfold k. intros Hp.
      change (parents_of s1' (Task.name task))
        with (parents_of s1 (Task.name task)) in Hp.
      rewrite (parents_of_grows _ _ _ Hg1) in Hp.
      destruct (Post3 p Hp) as (pout & Hpout & Hsub). exists pout. split.
      { eapply steps_memo; [|exact Hpout]. etrans; [exact St4|exact St5]. }
      intros f Hf.
      destruct (Post4 f (Hsub f Hf)) as (g & Hg & Hn & Hor).
      destruct (resolved_outputs _ _ _ _ f (inv_memo _ _ Hinv2 _ _ Hpout) Hf)
        as [Hfo Hfin].
      exists g. split; [by eapply files_of_steps|]. split; [done|].
      intros uuid4_fresh. split_and!; [|done|].
      * destruct Hor as [?|Hold]; [done|].
        destruct (File.link g) eqn:Hlg; [done|]. exfalso.
        assert (k = p) as Hkp by (by eapply (inv_own _ _ Hinv2)).
        eapply (generate_task_files_no_cycle generate_rvs uuid4
                  _workflow_recipe (S fuel) task s r s'); try done.
        apply tc_once. unfold k in Hkp. rewrite <- Hkp in Hp. exact Hp.
      * apply (inv_size _ _ Hinv3 uuid4_fresh); [| |done].
        -- eapply elem_of_files_of_in_heap; [exact Hinv3|exact Hg].
        -- eapply in_heap_grows; [exact Hg4|].
           by eapply elem_of_files_of_in_heap.
  - intros k1 Hne Hk1. rewrite (Hkeep k1 Hk1). unfold outputs.
    by rewrite Hoth1.
Qed.

End Main.

(** ** The invariant holds in every reachable state *)

Lemma generate_task_state generate_rvs _workflow_recipe task_name task_id s t s' :
  _generate_task generate_rvs _workflow_recipe task_name task_id s = Ok t s' →
  ∃ l fl c,
    (l ∉ dom (lists s)) ∧ (fl ∉ dom (lists s)) ∧ fl ≠ l ∧
    (c ∉ dom (slots s)) ∧
    Task.name t = task_id ∧ Task.files t = c ∧
    Task.category t = task_name ∧
    tasks_files s' = <[task_id := l]> (tasks_files s) ∧
    tasks_files_names s' = <[task_id := []]> (tasks_files_names s) ∧
    lists s' = <[fl := []]> (<[l := []]> (lists s)) ∧
    slots s' = <[c := fl]> (slots s) ∧
    tasks_map s' = <[task_id := t]> (tasks_map s) ∧
    tasks_output_files s' = tasks_output_files s ∧
    tasks_parents s' = tasks_parents s ∧
    uuid_drawn s' = uuid_drawn s.
Proof.
  unfold _generate_task, bind, subscript.
  destruct (_workflow_recipe !! task_name) as [r|]; [|done]. simpl.
  destruct (PyStr.split "_0" task_id !! 1%nat) as [rest|]; [|done]. simpl.
  intros [= <- <-].
  set (l := fresh (dom (lists s))).
  set (fl := fresh (dom (<[l := []]> (lists s)))).
  set (c := fresh (dom (slots s))).
  assert (Hl : l ∉ dom (lists s)) by apply is_fresh.
  assert (Hfl : fl ∉ dom (<[l := []]> (lists s))) by apply is_fresh.
  assert (Hc : c ∉ dom (slots s)) by apply is_fresh.
  rewrite dom_insert_L in Hfl.
  exists l, fl, c. simpl. split_and!; try done; set_solver.
Qed.

Section Reachable.

Variable generate_rvs : nat → string → Q → Q → Q.
Variable uuid4 : nat → string.
Variable _workflow_recipe : gmap string Recipe.t.

Lemma engine_inv_init name df nt rf inf outf e :
  __init__ name df nt rf inf outf = inr e → engine_inv uuid4 e.
Proof.
  unfold __init__.
  destruct (Qle_bool rf 0); [done|]. destruct (Qle_bool inf 0); [done|].
  destruct (Qle_bool outf 0); [done|]. intros [= <-].
  split.
  - intros k t Hk. simpl in Hk. by rewrite lookup_empty in Hk.
  - intros k l Hk. simpl in Hk. by rewrite lookup_empty in Hk.
  - intros k k' l Hk. simpl in Hk. by rewrite lookup_empty in Hk.
  - intros _ l fs Hl. simpl in Hl. by rewrite lookup_empty in Hl.
  - intros f (l & fs & Hl & _). simpl in Hl. by rewrite lookup_empty in Hl.
  - intros _ f g (l & fs & Hl & _). simpl in Hl. by rewrite lookup_empty in Hl.
  - intros _ k k' f g Hf. unfold files_of in Hf. simpl in Hf.
    rewrite lookup_empty in Hf. by apply elem_of_nil in Hf.
  - intros k k' t t' Hk. simpl in Hk. by rewrite lookup_empty in Hk.
  - intros k t Hk. simpl in Hk. by rewrite lookup_empty in Hk.
  - intros k out Hk. simpl in Hk. by rewrite lookup_empty in Hk.
Qed.

Lemma engine_inv_set_counter c s :
  engine_inv uuid4 s → engine_inv uuid4 (set_task_id_counter c s).
Proof. intros []. by split. Qed.

Lemma engine_inv_set_children m s :
  engine_inv uuid4 s → engine_inv uuid4 (set_tasks_children m s).
Proof. intros []. by split. Qed.

Lemma engine_inv_set_parents m s :
  engine_inv uuid4 s →
  (∀ k, is_Some (tasks_output_files s !! k) → m !! k = tasks_parents s !! k) →
  engine_inv uuid4 (set_tasks_parents m s).
Proof.
  intros Hinv Hm. split; try apply Hinv.
  intros k out Hout. simpl in Hout.
  destruct (inv_memo _ _ Hinv _ _ Hout) as (t & l & Ht & Hl & Hs & Ho & Hp).
  exists t, l. split_and!; try done.
  intros p. unfold parents_of. simpl. rewrite Hm by (by rewrite Hout).
  apply Hp.
Qed.

Lemma engine_inv_generate_task task_name task_id s t s' :
  engine_inv uuid4 s → tasks_files s !! task_id = None →
  _generate_task generate_rvs _workflow_recipe task_name task_id s = Ok t s' →
  engine_inv uuid4 s'.
Proof.
  intros Hinv Hnew Hrun.
  destruct (generate_task_state _ _ _ _ _ _ _ Hrun)
    as (l & fl & c & Hl & Hfl & Hne & Hc & Hn & Hf & _ &
        Htf & Hnames & Hlists & Hslots & Hmap & Hmemo & Hpar & Hu).
  assert (Hold : ∀ k1 l1, tasks_files s !! k1 = Some l1 →
            k1 ≠ task_id ∧ l1 ≠ l ∧ l1 ≠ fl).
  { intros k1 l1 H1. destruct (inv_sync _ _ Hinv _ _ H1) as (fs & Hfs & _).
    assert (l1 ∈ dom (lists s)) by (apply elem_of_dom; eauto).
    split_and!; congruence. }
  assert (Hlook : ∀ l1 fs, lists s' !! l1 = Some fs →
            fs = [] ∨ lists s !! l1 = Some fs).
  { intros l1 fs. rewrite Hlists.
    destruct (decide (fl = l1)) as [<-|?].
    { rewrite lookup_insert_eq. intros [= <-]. by left. }
    rewrite lookup_insert_ne by done.
    destruct (decide (l = l1)) as [<-|?].
    { rewrite lookup_insert_eq. intros [= <-]. by left. }
    rewrite lookup_insert_ne by done. by right. }
  assert (Hheap : ∀ f, in_heap s' f → in_heap s f).
  { intros f (l1 & fs & H1 & Hin).
    destruct (Hlook _ _ H1) as [->|H2]; [by apply elem_of_nil in Hin|].
    by exists l1, fs. }
  assert (Hfiles : ∀ k1, files_of s' k1 =
            if decide (k1 = task_id) then [] else files_of s k1).
  { intros k1. unfold files_of. rewrite Htf.
    destruct (decide (k1 = task_id)) as [->|Hk].
    - rewrite lookup_insert_eq. unfold read_list. rewrite Hlists.
      rewrite lookup_insert_ne by done. by rewrite lookup_insert_eq.
    - rewrite lookup_insert_ne by done.
      destruct (tasks_files s !! k1) as [l1|] eqn:H1; [|done].
      destruct (Hold _ _ H1) as (_ & ? & ?).
      unfold read_list. rewrite Hlists. by rewrite !lookup_insert_ne. }
  assert (Hfiles_in : ∀ k1 f, f ∈ files_of s' k1 → f ∈ files_of s k1).
  { intros k1 f. rewrite Hfiles. case_decide; [by intros ?%elem_of_nil|done]. }
  split.
  - intros k1 t1. rewrite Hmap.
    destruct (decide (task_id = k1)) as [<-|?].
    + rewrite lookup_insert_eq. by intros [= <-].
    + rewrite lookup_insert_ne by done. apply (inv_names_agree _ _ Hinv).
  - intros k1 l1. rewrite Htf, Hnames, Hlists.
    destruct (decide (task_id = k1)) as [<-|?].
    + rewrite !lookup_insert_eq. intros [= <-]. exists [].
      rewrite lookup_insert_ne by done. by rewrite lookup_insert_eq.
    + rewrite !(lookup_insert_ne _ task_id) by done. intros H1.
      destruct (Hold _ _ H1) as (_ & ? & ?).
      rewrite !lookup_insert_ne by done. by apply (inv_sync _ _ Hinv).
  - intros k1 k2 l1. rewrite Htf.
    destruct (decide (task_id = k1)) as [<-|?];
      destruct (decide (task_id = k2)) as [<-|?]; try done.
    + rewrite lookup_insert_eq, lookup_insert_ne by done.
      intros [= <-] H2. by destruct (Hold _ _ H2) as (_ & ? & _).
    + rewrite lookup_insert_eq, lookup_insert_ne by done.
      intros H1 [= <-]. by destruct (Hold _ _ H1) as (_ & ? & _).
    + rewrite !lookup_insert_ne by done. apply (inv_inj _ _ Hinv).
  - intros Hfr l1 fs H1. destruct (Hlook _ _ H1) as [->|H2]; [constructor|].
    by apply (inv_nodup _ _ Hinv Hfr l1).
  - intros f0 Hf0%Hheap. rewrite Hu. by apply (inv_tok _ _ Hinv).
  - intros Hfr f0 g0 Hf0%Hheap Hg0%Hheap. by apply (inv_size _ _ Hinv).
  - intros Hfr k1 k2 f0 g0 Hf0%Hfiles_in Hg0%Hfiles_in.
    by apply (inv_own _ _ Hinv).
  - assert (Hdom : ∀ k1 t1, tasks_map s !! k1 = Some t1 → Task.files t1 ≠ c).
    { intros k1 t1 H1 Heq. apply Hc. rewrite <- Heq. apply elem_of_dom.
      by apply (inv_slot_dom _ _ Hinv k1). }
    intros k1 k2 t1 t2. rewrite Hmap.
    destruct (decide (task_id = k1)) as [<-|?];
      destruct (decide (task_id = k2)) as [<-|?]; try done.
    + rewrite lookup_insert_eq, lookup_insert_ne by done.
      intros [= <-] H2 Heq. destruct (Hdom _ _ H2). congruence.
    + rewrite lookup_insert_eq, lookup_insert_ne by done.
      intros H1 [= <-] Heq. destruct (Hdom _ _ H1). congruence.
    + rewrite !lookup_insert_ne by done. apply (inv_slots _ _ Hinv).
  - intros k1 t1. rewrite Hmap, Hslots.
    destruct (decide (task_id = k1)) as [<-|?].
    + rewrite lookup_insert_eq. intros [= <-]. rewrite Hf.
      by rewrite lookup_insert_eq.
    + rewrite lookup_insert_ne by done. intros H1.
      apply lookup_insert_is_Some. destruct (decide (c = Task.files t1));
        [by left|right]. split; [done|]. by apply (inv_slot_dom _ _ Hinv k1).
  - intros k1 out. rewrite Hmemo. intros Hout.
    destruct (inv_memo _ _ Hinv _ _ Hout) as (t1 & l1 & Ht1 & Hl1 & Hs1 & Ho & Hp).
    destruct (Hold _ _ Hl1) as (Hk1 & _ & _).
    assert (Hfk : files_of s' k1 = files_of s k1).
    { rewrite Hfiles. by rewrite decide_False. }
    exists t1, l1. split_and!.
    + rewrite Hmap, lookup_insert_ne by done. done.
    + rewrite Htf, lookup_insert_ne by done. done.
    + rewrite Hslots, lookup_insert_ne; [done|]. intros Heq. apply Hc.
      rewrite Heq. apply elem_of_dom. eauto.
    + rewrite Ho. unfold outputs. by rewrite Hfk.
    + intros p. unfold parents_of. rewrite Hpar. intros Hpp.
      destruct (Hp p Hpp) as (pout & Hpout & Hlinks). exists pout.
      rewrite Hmemo. split; [done|]. by rewrite Hfk.
Qed.

(** Every reachable state satisfies the invariant. *)
Lemma reachable_inv s :
  reachable generate_rvs uuid4 _workflow_recipe s → engine_inv uuid4 s.
Proof.
  induction 1 as [name df nt rf inf outf e He
    |s prefix n s' _ IH H|s task_name task_id t s' _ IH Hnew H
    |s m _ IH Hm|s m _ IH|s fuel t r s' _ IH Hreg H].
  - by eapply engine_inv_init.
  - rewrite generate_task_name_eq in H. injection H as <- <-.
    by apply engine_inv_set_counter.
  - by eapply engine_inv_generate_task.
  - by apply engine_inv_set_parents.
  - by apply engine_inv_set_children.
  - destruct (generate_task_files_steps generate_rvs uuid4 _workflow_recipe
                _ _ _ _ _ IH Hreg H) as [Hsteps _].
    by eapply steps_inv.
Qed.

End Reachable.

(** ** File sizes *)

Lemma sizes_nonneg_add_file task_id l ns f s :
  sizes_nonneg s → (0 ≤ File.size f)%Z →
  sizes_nonneg (add_file task_id l ns f s).
Proof.
  intros [Hl Hm] Hf. split; [|exact Hm].
  intros l1 fs g. simpl. destruct (decide (l = l1)) as [<-|Hne].
  - rewrite lookup_insert_eq. intros [= <-].
    intros [Hg|Hg%list_elem_of_singleton]%elem_of_app; [|by subst g].
    unfold read_list in Hg. destruct (lists s !! l) as [fs|] eqn:Hfs.
    + by eapply Hl.
    + by apply elem_of_nil in Hg.
  - rewrite lookup_insert_ne by done. apply Hl.
Qed.

Lemma factors_positive_grows s s' :
  grows s s' → factors_positive s → factors_positive s'.
Proof.
  intros Hg [Hi Ho]. unfold factors_positive.
  by rewrite (grows_input_factor _ _ Hg), (grows_output_factor _ _ Hg).
Qed.

Section Sizes.

Variable generate_rvs : nat → string → Q → Q → Q.
Variable uuid4 : nat → string.
Variable _workflow_recipe : gmap string Recipe.t.
Hypothesis sampler_nonneg : sampler_contract generate_rvs.

Abbreviation gen_file := (_generate_file generate_rvs uuid4).
Abbreviation gen_missing := (generate_missing generate_rvs uuid4).
Abbreviation gen_files := (_generate_files generate_rvs uuid4).
Abbreviation gen_task_files :=
  (_generate_task_files generate_rvs uuid4 _workflow_recipe).
Abbreviation reach := (reachable generate_rvs uuid4 _workflow_recipe).

Lemma scaled_sample_nonneg s link d :
  factors_positive s →
  (0 ≤ int_of_float (size_factor s link * next_sample generate_rvs s d))%Z.
Proof.
  intros [Hi Ho]. apply int_of_float_nonneg. apply Qmult_le_0_compat.
  - destruct link; simpl; by apply Qlt_le_weak.
  - apply sampler_nonneg.
Qed.

Lemma generate_file_nonneg extension recipe link s f s' :
  factors_positive s →
  gen_file extension recipe link s = Ok f s' → (0 ≤ File.size f)%Z.
Proof.
  intros Hpos Hrun.
  destruct (assoc recipe extension) as [d|] eqn:Hd; cycle 1.
  { unfold _generate_file, bind, get in Hrun. by rewrite Hd in Hrun. }
  rewrite (generate_file_eq _ _ _ _ _ _ _ Hd) in Hrun.
  injection Hrun as <- <-. by apply scaled_sample_nonneg.
Qed.

Lemma generate_missing_nonneg task_id recipe link exts todo : ∀ s new s',
  factors_positive s → sizes_nonneg s →
  gen_missing task_id recipe link exts todo s = Ok new s' →
  sizes_nonneg s' ∧ ∀ f, f ∈ new → (0 ≤ File.size f)%Z.
Proof.
  induction todo as [|ext rest IH]; intros s new s' Hpos Hs H.
  - injection H as <- <-. split; [done|]. by intros f ?%elem_of_nil.
  - apply generate_missing_cons in H
      as [[_ H]|[_ (d & l & ns & more & Hd & Hl & Hns & H & ->)]]; [eauto|].
    pose proof (scaled_sample_nonneg s link d Hpos) as Hsize.
    eapply IH in H as [Hs' Hnew]; [|exact Hpos|];
      [|apply sizes_nonneg_add_file; [exact Hs|exact Hsize]].
    split; [done|]. intros g [->|Hg]%elem_of_cons; [done|by apply Hnew].
Qed.

Lemma generate_files_nonneg task_id recipe link s r s' :
  factors_positive s → sizes_nonneg s →
  gen_files task_id recipe link s = Ok r s' →
  sizes_nonneg s' ∧ ∀ f, f ∈ r → (0 ≤ File.size f)%Z.
Proof.
  intros Hpos Hs (l & new & Hl & H & ->)%generate_files_Ok.
  destruct (generate_missing_nonneg _ _ _ _ _ _ _ _ Hpos Hs H) as [Hs' Hnew].
  split; [done|]. intros f [Hf|Hf]%elem_of_app; [|by apply Hnew].
  apply list_elem_of_filter in Hf as [_ Hf]. unfold read_list in Hf.
  destruct (lists s !! l) as [fs|] eqn:Hfs.
  - by eapply (proj1 Hs).
  - by apply elem_of_nil in Hf.
Qed.

Lemma link_inputs_nonneg task_name inputs : ∀ s s',
  sizes_nonneg s → (∀ f, f ∈ inputs → (0 ≤ File.size f)%Z) →
  link_inputs task_name inputs s = Ok tt s' → sizes_nonneg s'.
Proof.
  induction inputs as [|f fs IH]; intros s s' Hs Hin H.
  - by injection H as <-.
  - apply link_inputs_cons in H
      as (ns & Hns & [[_ H]|[_ (l & Hl & H)]]).
    + eapply IH; [done| |exact H]. intros g Hg. apply Hin. by right.
    + eapply IH; [| |exact H].
      * apply sizes_nonneg_add_file; [done|]. simpl. apply Hin. by left.
      * intros g Hg. apply Hin. by right.
Qed.

Lemma resolve_parents_nonneg (resolve : Task.t → M (list File.t)) :
  (∀ pt s r s', factors_positive s → sizes_nonneg s → resolve pt s = Ok r s' →
     grows s s' ∧ sizes_nonneg s' ∧ ∀ f, f ∈ r → (0 ≤ File.size f)%Z) →
  ∀ ps s r s',
    factors_positive s → sizes_nonneg s →
    resolve_parents resolve ps s = Ok r s' →
    sizes_nonneg s' ∧ ∀ f, f ∈ r → (0 ≤ File.size f)%Z.
Proof.
  intros Hres ps. induction ps as [|p ps IH]; intros s r s' Hpos Hs H.
  - apply resolve_parents_nil in H as [-> ->].
    split; [done|]. by intros f ?%elem_of_nil.
  - apply resolve_parents_cons in H
      as (pt & out & s1 & more & Hpt & Hout & Hmore & ->).
    destruct (Hres _ _ _ _ Hpos Hs Hout) as (Hg & [Hl1 Hm1] & Hr1).
    assert (Hpos' : factors_positive
              (set_tasks_output_files (<[p:=out]> (tasks_output_files s1)) s1)).
    { eapply factors_positive_grows; [|exact Hpos].
      etrans; [exact Hg|apply grows_set_memo]. }
    assert (Hs1' : sizes_nonneg
              (set_tasks_output_files (<[p:=out]> (tasks_output_files s1)) s1)).
    { split; [exact Hl1|]. intros k out1 f. simpl.
      destruct (decide (p = k)) as [<-|Hne].
      - rewrite lookup_insert_eq. intros [= <-]. apply Hr1.
      - rewrite lookup_insert_ne by done. apply Hm1. }
    destruct (IH _ _ _ Hpos' Hs1' Hmore) as [Hs' Hmore'].
    split; [done|].
    intros f [Hf|Hf]%elem_of_app; [by apply Hr1|by apply Hmore'].
Qed.

Lemma generate_task_files_nonneg fuel : ∀ task s r s',
  factors_positive s → sizes_nonneg s →
  gen_task_files fuel task s = Ok r s' →
  grows s s' ∧ sizes_nonneg s' ∧ ∀ f, f ∈ r → (0 ≤ File.size f)%Z.
Proof.
  induction fuel as [|fuel IH]; intros task s r s' Hpos Hs Hrun; [done|].
  split; [by eapply generate_task_files_grows|].
  destruct (tasks_output_files s !! Task.name task) as [c|] eqn:Hm.
  { rewrite (generate_task_files_hit _ _ _ _ _ _ _ Hm) in Hrun.
    injection Hrun as <- <-. split; [done|]. intros f.
    by apply (proj2 Hs (Task.name task) c). }
  apply generate_task_files_fresh_Ok in Hrun
    as (task_recipe & l & s1 & inputs & s2 & s3 & extra &
        Hr & Hout & Hl & Hres & Hlink & Hextra); [|done].
  destruct (generate_files_nonneg _ _ _ _ _ _ Hpos Hs Hout) as [Hs1 Hr1].
  pose proof (generate_files_grows _ _ _ _ _ _ _ _ Hout) as Hg1.
  set (s1' := set_slots (<[Task.files task:=l]> (slots s1)) s1) in *.
  assert (Hpos1 : factors_positive s1').
  { eapply factors_positive_grows; [|exact Hpos].
    etrans; [exact Hg1|apply grows_set_slots]. }
  destruct (resolve_parents_nonneg _ IH _ _ _ _ Hpos1 Hs1 Hres) as [Hs2 Hin].
  pose proof (resolve_parents_grows _
     (generate_task_files_grows generate_rvs uuid4 _workflow_recipe fuel)
     _ _ _ _ Hres) as Hg2.
  pose proof (link_inputs_nonneg _ _ _ _ Hs2 Hin Hlink) as Hs3.
  pose proof (link_inputs_grows _ _ _ _ Hlink) as Hg3.
  assert (Hpos3 : factors_positive s3).
  { eapply factors_positive_grows; [|exact Hpos1]. by etrans. }
  destruct (generate_files_nonneg _ _ _ _ _ _ Hpos3 Hs3 Hextra) as [Hs4 _].
  done.
Qed.

Lemma reachable_sizes s : reach s → factors_positive s ∧ sizes_nonneg s.
Proof.
  induction 1 as [name df nt rf inf outf e He
    |s prefix n s' _ IH H|s task_name task_id t s' _ IH Hnew H
    |s m _ IH Hm|s m _ IH|s fuel t r s' _ IH Hreg H].
  - unfold __init__ in He.
    destruct (Qle_bool rf 0) eqn:E1; [done|].
    destruct (Qle_bool inf 0) eqn:E2; [done|].
    destruct (Qle_bool outf 0) eqn:E3; [done|].
    apply Qle_bool_false_lt in E2, E3. injection He as <-.
    split; [by split|]. split; simpl; intros ? ? ? Hk; by rewrite lookup_empty in Hk.
  - rewrite generate_task_name_eq in H. by injection H as <- <-.
  - destruct IH as [[Hi Ho] [Hl Hm]].
    destruct (generate_task_state _ _ _ _ _ _ _ H)
      as (l & fl & c & _ & _ & _ & _ & _ & _ & _ &
          _ & _ & Hlists & _ & _ & Hmemo & _ & _).
    split.
    + unfold _generate_task, bind, subscript in H.
      destruct (_workflow_recipe !! task_name); [|done]. simpl in H.
      destruct (PyStr.split "_0" task_id !! 1%nat); [|done]. simpl in H.
      by injection H as <- <-.
    + split.
      * intros l1 fs f. rewrite Hlists.
        destruct (decide (fl = l1)) as [<-|?].
        { rewrite lookup_insert_eq. by intros [= <-] ?%elem_of_nil. }
        rewrite lookup_insert_ne by done.
        destruct (decide (l = l1)) as [<-|?].
        { rewrite lookup_insert_eq. by intros [= <-] ?%elem_of_nil. }
        rewrite lookup_insert_ne by done. apply Hl.
      * rewrite Hmemo. apply Hm.
  - done.
  - done.
  - destruct IH as [Hpos Hs].
    destruct (generate_task_files_nonneg _ _ _ _ _ Hpos Hs H) as (Hg & Hs' & _).
    split; [by eapply factors_positive_grows|done].
Qed.

(** C8. With a sampler that keeps its contract, every file the engine
    creates has a size that is not negative: in every reachable state, the
    file that [_generate_file] returns, and every file object of the store
    (the inputs copied from the outputs of the parents included). *)
Theorem file_sizes_nonneg s :
  reach s →
  (∀ extension recipe link f s',
     gen_file extension recipe link s = Ok f s' → (0 ≤ File.size f)%Z) ∧
  (∀ f, in_heap s f → (0 ≤ File.size f)%Z).
Proof.
  intros Hreach. destruct (reachable_sizes s Hreach) as [Hpos [Hl Hm]]. split.
  - intros extension recipe link f s'. by apply generate_file_nonneg.
  - intros f (l & fs & Hfs & Hf). by eapply Hl.
Qed.

End Sizes.

(** ** The outputs of a task answer for its recipe *)

Section Answers.

Variable generate_rvs : nat → string → Q → Q → Q.
Variable uuid4 : nat → string.
Variable _workflow_recipe : gmap string Recipe.t.

Abbreviation gen_missing := (generate_missing generate_rvs uuid4).
Abbreviation gen_files := (_generate_files generate_rvs uuid4).
Abbreviation gen_task_files :=
  (_generate_task_files generate_rvs uuid4 _workflow_recipe).







End Answers.

(** ** Inputs and outputs along the edges of the workflow *)



(** The linking loop appends to the list of the task the inputs of the
    candidates that the first-seen rule keeps, in that order. *)
Lemma link_inputs_first_seen task_name l candidates : ∀ ns s,
  tasks_files s !! task_name = Some l →
  tasks_files_names s !! task_name = Some ns →
  ∃ s',
    link_inputs task_name candidates s = Ok tt s' ∧
    read_list l s' = read_list l s ++ (to_input <$> first_seen ns candidates) ∧
    tasks_files_names s' !! task_name =
      Some (ns ++ (File.name <$> first_seen ns candidates)).
Proof.
  induction candidates as [|f rest IH]; intros ns s Hl Hns.
  - exists s. simpl. by rewrite !app_nil_r.
  - simpl first_seen. case_bool_decide as Hin.
    + destruct (IH ns s Hl Hns) as (s' & Hrun & Hlist & Hnames).
      exists s'. split; [|done]. apply link_inputs_cons. exists ns.
      split; [done|]. by left.
    + destruct (IH (ns ++ [File.name f]) (add_file task_name l ns (to_input f) s))
        as (s' & Hrun & Hlist & Hnames).
      { done. }
      { simpl. by rewrite lookup_insert_eq. }
      exists s'. split_and!.
      * apply link_inputs_cons. exists ns. split; [done|]. right.
        split; [done|]. by exists l.
      * rewrite Hlist. unfold read_list at 1. simpl.
        rewrite lookup_insert_eq. simpl. by rewrite <- app_assoc.
      * rewrite Hnames. simpl. by rewrite <- app_assoc.
Qed.



(** Tokens that are pairwise distinct and of one length, as the 36
    characters of a UUID are, give names that never coincide. *)
Lemma string_app_inj_length (a b e e' : string) :
  String.length a = String.length b → a +:+ e = b +:+ e' → a = b.
Proof.
  revert b. induction a as [|x a IH]; intros [|y b] Hlen H; try done.
  injection H as -> H. f_equal. apply IH; [|done]. by injection Hlen.
Qed.

Lemma tokens_fresh_fixed_length (uuid4 : nat → string) (n : nat) :
  (∀ i, String.length (uuid4 i) = n) →
  (∀ i j, uuid4 i = uuid4 j → i = j) →
  tokens_fresh uuid4.
Proof.
  intros Hlen Hinj i j e e' H. apply Hinj.
  apply (string_app_inj_length _ _ e e'); [|done].
  by rewrite !Hlen.
Qed.

Section FilesClaims.

Variable generate_rvs : nat → string → Q → Q → Q.
Variable uuid4 : nat → string.
Variable _workflow_recipe : gmap string Recipe.t.

Abbreviation gen_task_files :=
  (_generate_task_files generate_rvs uuid4 _workflow_recipe).
Abbreviation reach := (reachable generate_rvs uuid4 _workflow_recipe).



End FilesClaims.

(** ** On a well-formed workflow the call returns *)

Lemma tracked_grows table s s' : grows s s' → tracked table s → tracked table s'.
Proof.
  intros Hg [Hn Hc Hf Hl]. split.
  - by eapply names_agree_grows.
  - intros k t. rewrite (grows_tasks_map _ _ Hg). apply Hc.
  - intros k t. rewrite (grows_tasks_map _ _ Hg), (grows_tasks_files _ _ Hg).
    apply Hf.
  - intros k t. rewrite (grows_tasks_map _ _ Hg). intros Ht.
    destruct (Hl k t Ht) as [ns Hns].
    destruct (grows_names _ _ Hg _ _ Hns) as [more ->]. eauto.
Qed.

Lemma parents_registered_grows s s' :
  grows s s' → parents_registered s → parents_registered s'.
Proof.
  intros Hg H k p. rewrite (parents_of_grows _ _ _ Hg), (grows_tasks_map _ _ Hg).
  apply H.
Qed.


Section Totality.

Variable generate_rvs : nat → string → Q → Q → Q.
Variable uuid4 : nat → string.
Variable _workflow_recipe : gmap string Recipe.t.

Abbreviation gen_missing := (generate_missing generate_rvs uuid4).
Abbreviation gen_files := (_generate_files generate_rvs uuid4).
Abbreviation gen_task_files :=
  (_generate_task_files generate_rvs uuid4 _workflow_recipe).
Abbreviation reach := (reachable generate_rvs uuid4 _workflow_recipe).

Lemma generate_missing_total task_id recipe link exts todo : ∀ s,
  (∀ ext, ext ∈ todo → is_Some (assoc recipe ext)) →
  is_Some (tasks_files s !! task_id) →
  is_Some (tasks_files_names s !! task_id) →
  ∃ new s', gen_missing task_id recipe link exts todo s = Ok new s'.
Proof.
  induction todo as [|ext rest IH]; intros s Hall [l Hl] [ns Hns].
  - by exists [], s.
  - destruct (decide (ext ∈ exts)) as [Hin|Hin].
    + destruct (IH s) as (new & s' & Hrun); [|by eauto|by eauto|].
      { intros e He. apply Hall. by right. }
      exists new, s'. apply generate_missing_cons. by left.
    + destruct (Hall ext) as [d Hd]; [left|].
      set (f := File.mk (uuid4 (uuid_drawn s) +:+ ext) link
                  (int_of_float (size_factor s link *
                                 next_sample generate_rvs s d))).
      destruct (IH (add_file task_id l ns f
                      (set_uuid_drawn (S (uuid_drawn s))
                         (set_rvs_drawn (S (rvs_drawn s)) s))))
        as (more & s' & Hrun).
      { intros e He. apply Hall. by right. }
      { simpl. eauto. }
      { simpl. rewrite lookup_insert_eq. eauto. }
      exists (f :: more), s'. apply generate_missing_cons. right.
      split; [done|]. by exists d, l, ns, more.
Qed.

Lemma generate_files_total task_id recipe link s :
  is_Some (tasks_files s !! task_id) →
  is_Some (tasks_files_names s !! task_id) →
  ∃ r s', gen_files task_id recipe link s = Ok r s'.
Proof.
  intros [l Hl] Hns.
  destruct (generate_missing_total task_id recipe link
              (file_extension <$>
                 filter (λ f, has_link link f = true) (read_list l s))
              (recipe.*1) s) as (new & s' & Hrun); [|by eauto|done|].
  { intros ext. apply assoc_fst. }
  eexists _, s'. apply generate_files_Ok. by exists l, new.
Qed.



(** Every reachable state tracks its tasks. *)
Lemma reachable_tracked s : reach s → tracked _workflow_recipe s.
Proof.
  induction 1 as [name df nt rf inf outf e He
    |s prefix n s' _ IH H|s task_name task_id t s' _ IH Hnew H
    |s m _ IH Hm|s m _ IH|s fuel t r s' _ IH Hreg H].
  - unfold __init__ in He.
    destruct (Qle_bool rf 0); [done|]. destruct (Qle_bool inf 0); [done|].
    destruct (Qle_bool outf 0); [done|]. injection He as <-.
    split; intros k t Hk; simpl in Hk; by rewrite lookup_empty in Hk.
  - rewrite generate_task_name_eq in H. injection H as <- <-.
    destruct IH. by split.
  - destruct IH as [Hn Hc Hf Hl].
    assert (Hcat : is_Some (_workflow_recipe !! task_name)).
    { unfold _generate_task, bind, subscript in H.
      destruct (_workflow_recipe !! task_name); [eauto|done]. }
    destruct (generate_task_state _ _ _ _ _ _ _ H)
      as (l & fl & c & _ & _ & _ & _ & Hname & _ & Hcategory &
          Htf & Hnames & _ & _ & Hmap & _ & _ & _).
    split.
    + intros k1 t1. rewrite Hmap.
      destruct (decide (task_id = k1)) as [<-|?].
      * rewrite lookup_insert_eq. by intros [= <-].
      * rewrite lookup_insert_ne by done. apply Hn.
    + intros k1 t1. rewrite Hmap.
      destruct (decide (task_id = k1)) as [<-|?].
      * rewrite lookup_insert_eq. intros [= <-]. by rewrite Hcategory.
      * rewrite lookup_insert_ne by done. apply Hc.
    + intros k1 t1. rewrite Hmap, Htf.
      destruct (decide (task_id = k1)) as [<-|?].
      * rewrite !lookup_insert_eq. eauto.
      * rewrite !lookup_insert_ne by done. apply Hf.
    + intros k1 t1. rewrite Hmap, Hnames.
      destruct (decide (task_id = k1)) as [<-|?].
      * rewrite !lookup_insert_eq. eauto.
      * rewrite !lookup_insert_ne by done. apply Hl.
  - destruct IH. by split.
  - destruct IH. by split.
  - eapply tracked_grows; [|exact IH]. by eapply generate_task_files_grows.
Qed.

End Totality.

Section ParentFiles.

Variable generate_rvs : nat → string → Q → Q → Q.
Variable uuid4 : nat → string.
Variable _workflow_recipe : gmap string Recipe.t.

Abbreviation gen_task_files :=
  (_generate_task_files generate_rvs uuid4 _workflow_recipe).
Abbreviation reach := (reachable generate_rvs uuid4 _workflow_recipe).


End ParentFiles.

(** ** A second call on the same task *)

Lemma set_slots_id s c l :
  slots s !! c = Some l → set_slots (<[c := l]> (slots s)) s = s.
Proof. intros H. rewrite insert_id by done. by destruct s. Qed.

Lemma set_memo_id s p out :
  tasks_output_files s !! p = Some out →
  set_tasks_output_files (<[p := out]> (tasks_output_files s)) s = s.
Proof. intros H. rewrite insert_id by done. by destruct s. Qed.

Lemma covered_grows s s' k link recipe :
  grows s s' →
  (∀ l, tasks_files s !! k = Some l → is_Some (lists s !! l)) →
  covered s k link recipe → covered s' k link recipe.
Proof.
  intros Hg Hdom Hc ext He.
  pose proof (Hc ext He) as Hx.
  apply list_elem_of_fmap in Hx as (f & -> & Hf).
  apply list_elem_of_fmap. exists f. split; [done|].
  apply list_elem_of_filter in Hf as [Hlk Hf].
  apply list_elem_of_filter. split; [done|]. by eapply files_of_grows.
Qed.

Section Twice.

Variable generate_rvs : nat → string → Q → Q → Q.
Variable uuid4 : nat → string.
Variable _workflow_recipe : gmap string Recipe.t.

Abbreviation gen_missing := (generate_missing generate_rvs uuid4).
Abbreviation gen_files := (_generate_files generate_rvs uuid4).
Abbreviation gen_task_files :=
  (_generate_task_files generate_rvs uuid4 _workflow_recipe).
Abbreviation reach := (reachable generate_rvs uuid4 _workflow_recipe).

(** What the second loop of [_generate_files] leaves: the list of the task
    extended with the new files, which have the link asked for and among
    which each recognised extension that was missing is found. *)
Lemma generate_missing_list k recipe link exts todo : ∀ s new s' l,
  tasks_files s !! k = Some l →
  gen_missing k recipe link exts todo s = Ok new s' →
  read_list l s' = read_list l s ++ new ∧
  (∀ f, f ∈ new → File.link f = link) ∧
  (∀ ext, ext ∈ todo → recognised uuid4 ext →
          ext ∈ exts ∨ ext ∈ file_extension <$> new).
Proof.
  induction todo as [|ext rest IH]; intros s new s' l Hl H.
  - injection H as <- <-.
    split_and!; [by rewrite app_nil_r|by intros f ?%elem_of_nil|].
    by intros e ?%elem_of_nil.
  - apply generate_missing_cons in H
      as [[Hin H]|[Hin (d & l' & ns & more & Hd & Hl' & Hns & H & ->)]].
    + destruct (IH _ _ _ _ Hl H) as (Hlist & Hlk & Hcov).
      split_and!; [done|done|].
      intros e [->|He]%elem_of_cons Hrec; [by left|by apply Hcov].
    + assert (l' = l) as -> by congruence.
      set (f := {| File.name := uuid4 (uuid_drawn s) +:+ ext;
                   File.link := link;
                   File.size := int_of_float (size_factor s link *
                                  next_sample generate_rvs s d) |}) in *.
      apply (IH _ _ _ l) in H as (Hlist & Hlk & Hcov); [|exact Hl].
      assert (Hfirst : read_list l
                (add_file k l ns f
                   (set_uuid_drawn (S (uuid_drawn s))
                      (set_rvs_drawn (S (rvs_drawn s)) s))) =
              read_list l s ++ [f]).
      { unfold read_list, add_file. simpl. by rewrite lookup_insert_eq. }
      split_and!.
      * by rewrite Hlist, Hfirst, <- app_assoc.
      * intros g [->|Hg]%elem_of_cons; [done|by apply Hlk].
      * intros e [->|He]%elem_of_cons Hrec.
        -- right. rewrite fmap_cons. apply elem_of_cons. left.
           symmetry. apply Hrec.
        -- destruct (Hcov e He Hrec) as [?|?]; [by left|right].
           rewrite fmap_cons. apply elem_of_cons. by right.
Qed.

Lemma generate_files_covers k recipe link s r s' :
  (∀ ext, ext ∈ recipe.*1 → recognised uuid4 ext) →
  gen_files k recipe link s = Ok r s' →
  covered s' k link recipe.
Proof.
  intros Hrec Hrun.
  pose proof (generate_files_grows _ _ _ _ _ _ _ _ Hrun) as Hg.
  apply generate_files_Ok in Hrun as (l & new & Hl & H & ->).
  destruct (generate_missing_list _ _ _ _ _ _ _ _ l Hl H)
    as (Hlist & Hlk & Hcov).
  intros ext He. unfold files_of.
  rewrite (grows_tasks_files _ _ Hg), Hl, Hlist, filter_app, fmap_app.
  rewrite (filter_all _ new)
    by (intros f Hf; apply has_link_true; by apply Hlk).
  apply elem_of_app.
  destruct (Hcov ext He (Hrec ext He)); [by left|by right].
Qed.

Lemma generate_missing_covered k recipe link exts todo s :
  (∀ ext, ext ∈ todo → ext ∈ exts) →
  gen_missing k recipe link exts todo s = Ok [] s.
Proof.
  induction todo as [|ext rest IH]; intros H; [done|].
  apply generate_missing_cons. left. split; [apply H; left|].
  apply IH. intros e He. apply H. by right.
Qed.

Lemma generate_files_covered k recipe link l s :
  tasks_files s !! k = Some l → covered s k link recipe →
  gen_files k recipe link s =
    Ok (filter (λ f, has_link link f = true) (files_of s k)) s.
Proof.
  intros Hl Hc. apply generate_files_Ok. exists l, []. split; [done|].
  unfold covered, files_of in *. rewrite Hl in *.
  split; [|by rewrite app_nil_r]. by apply generate_missing_covered.
Qed.

(** The loop over the parents when all of them are in the memo. *)
Lemma resolve_parents_hits n ps s :
  (∀ p, p ∈ ps → ∃ pt out,
     tasks_map s !! p = Some pt ∧ Task.name pt = p ∧
     tasks_output_files s !! p = Some out) →
  ∃ r, resolve_parents (gen_task_files (S n)) ps s = Ok r s ∧
       ∀ f, f ∈ r →
         ∃ p out, p ∈ ps ∧ tasks_output_files s !! p = Some out ∧ f ∈ out.
Proof.
  induction ps as [|p ps IH]; intros H.
  - exists []. split; [done|by intros f ?%elem_of_nil].
  - destruct (H p) as (pt & out & Hpt & Hn & Hout); [left|].
    destruct IH as (more & Hmore & Hin).
    { intros q Hq. apply H. by right. }
    exists (out ++ more). split.
    + apply resolve_parents_cons. exists pt, out, s, more.
      split_and!; [done| |by rewrite set_memo_id|done].
      apply generate_task_files_hit. by rewrite Hn.
    + intros f [Hf|Hf]%elem_of_app.
      * exists p, out. split_and!; [left|done|done].
      * destruct (Hin f Hf) as (q & o & Hq & Ho & Hfo).
        exists q, o. split_and!; [by right|done|done].
Qed.

(** The linking loop when every candidate name is recorded already. *)
Lemma link_inputs_all_seen k inputs s ns :
  tasks_files_names s !! k = Some ns →
  (∀ f, f ∈ inputs → File.name f ∈ ns) →
  link_inputs k inputs s = Ok tt s.
Proof.
  induction inputs as [|f fs IH]; intros Hns H; [done|].
  apply link_inputs_cons. exists ns. split; [done|]. left.
  split; [apply H; left|]. apply IH; [done|]. intros g Hg. apply H. by right.
Qed.

(** When the scan recognises the extensions of the recipe of a task, a
    second call on the task finds nothing to do. *)
Lemma generate_task_files_again fuel task s r s' :
  engine_inv uuid4 s → registered s task →
  (∀ task_recipe ext,
     _workflow_recipe !! Task.category task = Some task_recipe →
     ext ∈ (Recipe.output task_recipe).*1 ++ (Recipe.input task_recipe).*1 →
     recognised uuid4 ext) →
  gen_task_files fuel task s = Ok r s' →
  ∀ fuel', (fuel ≤ fuel')%nat → gen_task_files fuel' task s' = Ok r s'.
Proof.
  intros Hinv Hreg Hrec Hrun fuel' Hle.
  destruct fuel as [|n]; [done|]. destruct fuel' as [|n']; [lia|].
  destruct (generate_task_files_steps _ _ _ _ _ _ _ _
              Hinv Hreg Hrun) as (Hsteps & Hres & _).
  pose proof (steps_inv _ _ _ Hinv Hsteps) as Hinv'.
  pose proof (steps_grows _ _ _ Hsteps) as Hg.
  destruct Hres as (t & l & Ht & Hl & Hs & Hr & Hps).
  assert (t = task) as ->.
  { rewrite (grows_tasks_map _ _ Hg) in Ht. unfold registered in Hreg.
    congruence. }
  set (k := Task.name task) in *.
  destruct (tasks_output_files s' !! k) as [c|] eqn:Hm'.
  { rewrite (generate_task_files_hit _ _ _ _ _ _ _ Hm').
    destruct (inv_memo _ _ Hinv' _ _ Hm') as (t2 & l2 & _ & _ & _ & Hc & _).
    congruence. }
  assert (Hm : tasks_output_files s !! k = None).
  { destruct (tasks_output_files s !! k) as [c|] eqn:E; [|done].
    destruct (grows_memo _ _ Hg k) as [c' Hc']; [eauto|congruence]. }
  apply generate_task_files_fresh_Ok in Hrun
    as (task_recipe & l1 & s1 & inputs & s2 & s3 & extra &
        Hrc & Hout & Hl1 & Hresv & Hlink & Hextra); [|done].
  fold k in Hout, Hl1, Hresv, Hlink, Hextra.
  pose proof (generate_files_grows _ _ _ _ _ _ _ _ Hout) as Hg1.
  pose proof (resolve_parents_grows _
     (generate_task_files_grows generate_rvs uuid4 _workflow_recipe n)
     _ _ _ _ Hresv) as Hg2.
  pose proof (link_inputs_grows _ _ _ _ Hlink) as Hg3.
  pose proof (generate_files_grows _ _ _ _ _ _ _ _ Hextra) as Hg4.
  assert (Hg1' : grows s1 s').
  { etrans; [apply (grows_set_slots (<[Task.files task:=l1]> (slots s1)))|].
    etrans; [exact Hg2|]. by etrans. }
  assert (Hcov_out : covered s' k OUTPUT (Recipe.output task_recipe)).
  { apply (covered_grows s1); [done| |].
    - intros l0 Hl0. rewrite (grows_tasks_files _ _ Hg1) in Hl0.
      destruct (inv_sync _ _ Hinv _ _ Hl0) as (fs & Hfs & _).
      destruct (grows_lists _ _ Hg1 _ _ Hfs) as [more ->]. eauto.
    - eapply generate_files_covers; [|exact Hout].
      intros ext He. apply (Hrec task_recipe); [done|].
      apply elem_of_app. by left. }
  assert (Hcov_in : covered s' k INPUT (Recipe.input task_recipe)).
  { eapply generate_files_covers; [|exact Hextra].
    intros ext He. apply (Hrec task_recipe); [done|].
    apply elem_of_app. by right. }
  assert (Hparents : ∀ p, p ∈ parents_of s' k → ∃ pt out,
            tasks_map s' !! p = Some pt ∧ Task.name pt = p ∧
            tasks_output_files s' !! p = Some out).
  { intros p Hp. destruct (Hps p Hp) as (pout & Hpout & _).
    destruct (inv_memo _ _ Hinv' _ _ Hpout) as (pt & lp & Hpt & _).
    exists pt, pout. split_and!; [done| |done].
    by apply (inv_names_agree _ _ Hinv'). }
  assert (Hrp : ∃ inputs2,
            resolve_parents (gen_task_files n') (parents_of s' k) s' =
              Ok inputs2 s' ∧
            ∀ f, f ∈ inputs2 → ∃ p out,
              p ∈ parents_of s' k ∧
              tasks_output_files s' !! p = Some out ∧ f ∈ out).
  { destruct (parents_of s' k) as [|p ps] eqn:Hpar.
    - exists []. split; [done|by intros f ?%elem_of_nil].
    - assert (Hpar1 : default [] (tasks_parents s1 !! k) = p :: ps).
      { fold (parents_of s1 k). by rewrite <- (parents_of_grows _ _ _ Hg1'). }
      rewrite Hpar1 in Hresv.
      apply resolve_parents_cons in Hresv as (pt & out & s0 & more & _ & Hcall & _).
      destruct n as [|n0]; [done|]. destruct n' as [|n0']; [lia|].
      by apply resolve_parents_hits. }
  destruct Hrp as (inputs2 & Hres2 & Hin2).
  destruct (inv_sync _ _ Hinv' _ _ Hl) as (fs & Hfs & Hns).
  apply generate_task_files_fresh_Ok; [done|].
  exists task_recipe, l, s', inputs2, s', s',
    (filter (λ f, has_link INPUT f = true) (files_of s' k)).
  fold k. split_and!.
  - done.
  - rewrite Hr. by eapply generate_files_covered.
  - done.
  - rewrite set_slots_id by done. exact Hres2.
  - apply (link_inputs_all_seen _ _ _ _ Hns). intros f Hf.
    destruct (Hin2 f Hf) as (p & out & Hp & Hout2 & Hfout).
    destruct (Hps p Hp) as (pout & Hpout & Hlinks).
    assert (pout = out) as -> by congruence.
    destruct (Hlinks f Hfout) as (g & Hg' & Hname & _).
    rewrite (files_of_Some _ _ _ _ Hl Hfs) in Hg'.
    rewrite <- Hname. apply list_elem_of_fmap. by exists g.
  - by eapply generate_files_covered.
Qed.

(** C2, as the code has it.  In a reachable state, a second call of
    [_generate_task_files] on a registered task, made in the state the
    first one left, returns the list the first one returned and leaves the
    whole engine state as it is (no list grows, no file is created, no draw
    is made), when the name of the task is in the memo, or when the tokens
    are plain and every extension of the recipe of the task is a simple
    one, which the extension scan of [_generate_files] recognises. *)
Theorem generate_task_files_twice fuel task s r s' :
  reach s → registered s task →
  is_Some (tasks_output_files s !! Task.name task) ∨
    ((∀ i, plain_token (uuid4 i) = true) ∧
     ∀ task_recipe ext,
       _workflow_recipe !! Task.category task = Some task_recipe →
       ext ∈ (Recipe.output task_recipe).*1 ++ (Recipe.input task_recipe).*1 →
       simple_extension ext = true) →
  gen_task_files fuel task s = Ok r s' →
  ∀ fuel', (fuel ≤ fuel')%nat → gen_task_files fuel' task s' = Ok r s'.
Proof.
  intros Hreach Hreg [[c Hc]|[Htok Hext]] Hrun fuel' Hle.
  - destruct fuel as [|n]; [done|]. destruct fuel' as [|n']; [lia|].
    rewrite (generate_task_files_hit _ _ _ _ _ _ _ Hc) in Hrun.
    injection Hrun as <- <-. by apply generate_task_files_hit.
  - eapply generate_task_files_again; [|done| |exact Hrun|done].
    + by apply (reachable_inv generate_rvs uuid4 _workflow_recipe).
    + intros task_recipe ext Hr He.
      apply simple_extension_recognised; [done|]. by eapply Hext.
Qed.

End Twice.

(** ** What holds in every reachable state *)

Section ReachableFacts.

Variable generate_rvs : nat → string → Q → Q → Q.
Variable uuid4 : nat → string.
Variable _workflow_recipe : gmap string Recipe.t.

Abbreviation gen_task_files :=
  (_generate_task_files generate_rvs uuid4 _workflow_recipe).
Abbreviation get_files := _get_files_by_task_and_link.
Abbreviation reach := (reachable generate_rvs uuid4 _workflow_recipe).




(** X4. What a call of [_get_files_by_task_and_link] made after
    [_generate_task_files] returns: for OUTPUT the list the generation
    returned, for INPUT the INPUT files of the [files] attribute of the
    task object, which is by then the list tracked for the task. *)
Theorem get_files_after_generation fuel task s r s' :
  reach s → registered s task →
  gen_task_files fuel task s = Ok r s' →
  get_files (Task.name task) OUTPUT s' = Ok r s' ∧
  get_files (Task.name task) INPUT s' = Ok (inputs_of s' task) s' ∧
  task_files s' task = files_of s' (Task.name task).
Proof.
  intros Hreach Hreg Hrun.
  pose proof (reachable_inv _ _ _ _ Hreach) as Hinv.
  destruct (generate_task_files_steps _ _ _ _ _ _ _ _
              Hinv Hreg Hrun) as (Hsteps & (t & l & Ht & Hl & Hs & Hr & _) & _).
  pose proof (steps_grows _ _ _ Hsteps) as Hg.
  assert (t = task) as ->.
  { rewrite (grows_tasks_map _ _ Hg) in Ht. unfold registered in Hreg.
    congruence. }
  assert (Hfiles : task_files s' task = files_of s' (Task.name task)).
  { unfold task_files, files_of. by rewrite Hs, Hl. }
  unfold _get_files_by_task_and_link, bind, subscript, get, ret.
  rewrite Hl. split_and!; [|by unfold inputs_of, task_files; rewrite Hs|done].
  rewrite Hr. unfold outputs, files_of. by rewrite Hl.
Qed.

End ReachableFacts.

Section GetFiles.

(** X5. [_get_files_by_task_and_link] raises [KeyError] for a task that
    has no tracking list and otherwise changes nothing; the lists it
    returns for the two links split the files of the task: each file is in
    the one of its link, in its place, and the two lengths add up to the
    number of files. *)
Theorem get_files_splits task_id s :
  (tasks_files s !! task_id = None →
   ∀ link, _get_files_by_task_and_link task_id link s =
             Raise (KeyError TasksFiles task_id)) ∧
  (is_Some (tasks_files s !! task_id) →
   ∃ ins outs,
     _get_files_by_task_and_link task_id INPUT s = Ok ins s ∧
     _get_files_by_task_and_link task_id OUTPUT s = Ok outs s ∧
     (∀ f, f ∈ files_of s task_id ↔ f ∈ ins ∨ f ∈ outs) ∧
     (∀ f, f ∈ ins → File.link f = INPUT) ∧
     (∀ f, f ∈ outs → File.link f = OUTPUT) ∧
     ins `sublist_of` files_of s task_id ∧
     outs `sublist_of` files_of s task_id ∧
     (length ins + length outs = length (files_of s task_id))%nat).
Proof.
  unfold _get_files_by_task_and_link, bind, subscript, get, ret, files_of.
  split; [by intros ->|]. intros [l ->].
  eexists _, _. split_and!; [done|done| | | | | |].
  - intros f. rewrite !list_elem_of_filter, !has_link_true.
    split; [|by intros [[_ ?]|[_ ?]]].
    intros Hf. destruct (File.link f) eqn:E; [left|right]; done.
  - by intros f [?%has_link_true _]%list_elem_of_filter.
  - by intros f [?%has_link_true _]%list_elem_of_filter.
  - apply sublist_filter.
  - apply sublist_filter.
  - induction (read_list l s) as [|f fs IH]; [done|].
    destruct (File.link f) eqn:E.
    + rewrite (filter_cons_True (λ f, has_link INPUT f = true))
        by (by apply has_link_true).
      rewrite (filter_cons_False (λ f, has_link OUTPUT f = true))
        by (rewrite has_link_true; congruence).
      simpl in *. lia.
    + rewrite (filter_cons_False (λ f, has_link INPUT f = true))
        by (rewrite has_link_true; congruence).
      rewrite (filter_cons_True (λ f, has_link OUTPUT f = true))
        by (by apply has_link_true).
      simpl in *. lia.
Qed.

End GetFiles.

(** ** What a call of [_generate_task_files] can and cannot do *)

Section CallOutcomes.

Variable generate_rvs : nat → string → Q → Q → Q.
Variable uuid4 : nat → string.
Variable _workflow_recipe : gmap string Recipe.t.

Abbreviation gen_files := (_generate_files generate_rvs uuid4).
Abbreviation gen_task_files :=
  (_generate_task_files generate_rvs uuid4 _workflow_recipe).
Abbreviation reach := (reachable generate_rvs uuid4 _workflow_recipe).

(** X6. A call of [_generate_task_files] that returns has touched neither
    the task registry, nor the adjacency maps, nor the task counter, nor the
    size factors, nor the list assigned to any task; every list object and
    every name list has only been appended to, and no key has left the
    memo. *)
Theorem generate_task_files_frame fuel task s r s' :
  _generate_task_files generate_rvs uuid4 _workflow_recipe fuel task s =
    Ok r s' →
  tasks_map s' = tasks_map s ∧ tasks_files s' = tasks_files s ∧
  tasks_parents s' = tasks_parents s ∧ tasks_children s' = tasks_children s ∧
  task_id_counter s' = task_id_counter s ∧
  input_file_size_factor s' = input_file_size_factor s ∧
  output_file_size_factor s' = output_file_size_factor s ∧
  (∀ l fs, lists s !! l = Some fs → ∃ more, lists s' !! l = Some (fs ++ more)) ∧
  (∀ k ns, tasks_files_names s !! k = Some ns →
           ∃ more, tasks_files_names s' !! k = Some (ns ++ more)) ∧
  (∀ k, is_Some (tasks_output_files s !! k) →
        is_Some (tasks_output_files s' !! k)).
Proof.
  intros Hrun.
  destruct (generate_task_files_grows _ _ _ _ _ _ _ _ Hrun).
  by split_and!.
Qed.

(** The loop over the parents, when only the recursive call can raise. *)
Lemma resolve_parents_raise_recursion fuel :
  (∀ task s e, tracked _workflow_recipe s → parents_registered s →
     registered s task → gen_task_files fuel task s = Raise e →
     e = RecursionError) →
  ∀ ps s e,
    tracked _workflow_recipe s → parents_registered s →
    (∀ p, p ∈ ps → is_Some (tasks_map s !! p)) →
    resolve_parents (gen_task_files fuel) ps s = Raise e →
    e = RecursionError.
Proof.
  intros IHf ps. induction ps as [|p ps IH]; intros s e Htr Hpr Hps H; [done|].
  cbn [resolve_parents] in H.
  apply bind_Raise in H as [H|(pt & s1 & Hpt & H)].
  { apply subscript_Raise in H as [Hnone _].
    destruct (Hps p) as [? Hsome]; [left|congruence]. }
  apply subscript_Ok in Hpt as [Hpt ->].
  assert (Hn : Task.name pt = p) by (by apply (tracked_names _ _ Htr)).
  apply bind_Raise in H as [H|(out & s2 & Hout & H)].
  { eapply IHf; [done|done| |exact H]. unfold registered. by rewrite Hn. }
  pose proof (generate_task_files_grows _ _ _ _ _ _ _ _ Hout) as Hg.
  apply bind_Raise in H as [H|([] & s3 & [= <-] & H)]; [done|].
  apply bind_Raise in H as [H|(more & s4 & _ & H)]; [|done].
  assert (Hg' : grows s
            (set_tasks_output_files (<[p:=out]> (tasks_output_files s2)) s2))
    by (etrans; [exact Hg|apply grows_set_memo]).
  eapply IH; [| | |exact H].
  - by eapply tracked_grows.
  - by eapply parents_registered_grows.
  - intros q Hq. rewrite (grows_tasks_map _ _ Hg'). apply Hps. by right.
Qed.

(** With every task tracked and every listed parent registered, nothing
    but the recursion limit stops a call. *)
Lemma generate_task_files_raise_recursion fuel : ∀ task s e,
  tracked _workflow_recipe s → parents_registered s → registered s task →
  gen_task_files fuel task s = Raise e → e = RecursionError.
Proof.
  induction fuel as [|fuel IH]; intros task s e Htr Hpr Hreg H.
  { by injection H as <-. }
  destruct (tasks_output_files s !! Task.name task) as [c|] eqn:Hm.
  { by rewrite (generate_task_files_hit _ _ _ _ _ _ _ Hm) in H. }
  rewrite generate_task_files_fresh in H by done.
  set (k := Task.name task) in *.
  apply bind_Raise in H as [H|(task_recipe & s0 & Hr & H)].
  { apply subscript_Raise in H as [Hnone _].
    destruct (tracked_category _ _ Htr k task Hreg). congruence. }
  apply subscript_Ok in Hr as [Hr ->].
  apply bind_Raise in H as [H|(out & s1 & Hout & H)].
  { destruct (generate_files_total generate_rvs uuid4 k
                (Recipe.output task_recipe) OUTPUT s) as (r0 & s0 & Hok).
    - by apply (tracked_files _ _ Htr k task).
    - by apply (tracked_names_list _ _ Htr k task).
    - congruence. }
  pose proof (generate_files_grows _ _ _ _ _ _ _ _ Hout) as Hg1.
  apply bind_Raise in H as [H|(l & s1' & Hl & H)].
  { apply subscript_Raise in H as [Hnone _].
    rewrite (grows_tasks_files _ _ Hg1) in Hnone.
    destruct (tracked_files _ _ Htr k task Hreg). congruence. }
  apply subscript_Ok in Hl as [Hl ->].
  apply bind_Raise in H as [H|([] & s1' & [= <-] & H)]; [done|].
  apply bind_Raise in H as [H|(s1' & s1'' & [= <- <-] & H)]; [done|].
  set (s1' := set_slots (<[Task.files task:=l]> (slots s1)) s1) in *.
  assert (Hg1' : grows s s1') by (etrans; [exact Hg1|apply grows_set_slots]).
  apply bind_Raise in H as [H|(inputs & s2 & Hres & H)].
  { eapply (resolve_parents_raise_recursion fuel IH); [| | |exact H].
    - by eapply tracked_grows.
    - by eapply parents_registered_grows.
    - intros p Hp. rewrite (grows_tasks_map _ _ Hg1').
      apply (Hpr k). unfold parents_of.
      by rewrite <- (grows_tasks_parents _ _ Hg1'). }
  pose proof (resolve_parents_grows _
     (generate_task_files_grows generate_rvs uuid4 _workflow_recipe fuel)
     _ _ _ _ Hres) as Hg2.
  assert (Hg02 : grows s s2) by (by etrans).
  pose proof (tracked_grows _ _ _ Hg02 Htr) as Htr2.
  assert (Hreg2 : tasks_map s2 !! k = Some task).
  { by rewrite (grows_tasks_map _ _ Hg02). }
  destruct (tracked_files _ _ Htr2 k task Hreg2) as [l2 Hl2].
  destruct (tracked_names_list _ _ Htr2 k task Hreg2) as [ns2 Hns2].
  destruct (link_inputs_first_seen k l2 inputs ns2 s2 Hl2 Hns2)
    as (s3 & Hlink & _ & _).
  apply bind_Raise in H as [H|([] & s3' & Hlink' & H)]; [congruence|].
  assert (s3' = s3) as -> by congruence.
  pose proof (link_inputs_grows _ _ _ _ Hlink) as Hg3.
  assert (Hg03 : grows s s3) by (by etrans).
  pose proof (tracked_grows _ _ _ Hg03 Htr) as Htr3.
  assert (Hreg3 : tasks_map s3 !! k = Some task).
  { by rewrite (grows_tasks_map _ _ Hg03). }
  apply bind_Raise in H as [H|(extra & s4 & _ & H)]; [|done].
  destruct (generate_files_total generate_rvs uuid4 k
              (Recipe.input task_recipe) INPUT s3) as (r0 & s0 & Hok).
  - by apply (tracked_files _ _ Htr3 k task).
  - by apply (tracked_names_list _ _ Htr3 k task).
  - congruence.
Qed.

(** X7. In a reachable state where every parent listed in the adjacency map
    is a registered task, a call of [_generate_task_files] on a registered
    task raises no [LookupError]: none of the dictionary lookups of the
    call fails, whatever else may stop it. *)
Theorem registered_parents_no_lookup_error fuel task s e :
  reach s → parents_registered s → registered s task →
  gen_task_files fuel task s = Raise e → is_LookupError e = false.
Proof.
  intros Hreach Hpr Hreg H.
  assert (e = RecursionError) as ->; [|reflexivity].
  eapply generate_task_files_raise_recursion; [|done|done|exact H].
  by apply (reachable_tracked generate_rvs uuid4).
Qed.

Section Cycles.




End Cycles.

End CallOutcomes.

(** ** The [files] attribute of the task objects *)

Lemma files_attribute_add_file s0 s k l ns f :
  tasks_map s0 = tasks_map s → slots s0 = slots s →
  tasks_files s0 = tasks_files s → lists s0 = lists s →
  tasks_files s !! k = Some l →
  files_attribute_ok s → files_attribute_ok (add_file k l ns f s0).
Proof.
  intros Hmap Hslots Htf Hlists Hl J k1 t1. unfold add_file. simpl.
  rewrite Hmap, Hslots, Htf. intros Ht1.
  destruct (J k1 t1 Ht1) as (c & Hc & [Hleft|[Hempty Hun]]).
  - exists c. split; [done|by left].
  - exists c. split; [done|]. right. split; [|done].
    rewrite lookup_insert_ne; [by rewrite Hlists|].
    intros ->. by apply (Hun k).
Qed.

Section FilesAttribute.

Variable generate_rvs : nat → string → Q → Q → Q.
Variable uuid4 : nat → string.
Variable _workflow_recipe : gmap string Recipe.t.

Abbreviation reach := (reachable generate_rvs uuid4 _workflow_recipe).

Lemma step_files_attribute s s' :
  engine_inv uuid4 s → files_attribute_ok s → step uuid4 s s' →
  files_attribute_ok s'.
Proof.
  intros Hinv J Hstep.
  destruct Hstep as [s k l ns ext lk sz b Hl Hns _|s k l ns f Hl Hns _ _
                    |s t0 l Hreg Hl|s p out _ _].
  - by apply (files_attribute_add_file _ s).
  - by apply (files_attribute_add_file _ s).
  - intros k1 t1. simpl. intros Ht1.
    destruct (decide (Task.files t1 = Task.files t0)) as [Heq|Hne].
    + assert (k1 = Task.name t0) as ->
        by (by eapply (inv_slots _ _ Hinv)).
      exists l. rewrite Heq, lookup_insert_eq. split; [done|by left].
    + rewrite lookup_insert_ne by done. by apply J.
  - intros k1 t1. simpl. apply J.
Qed.

Lemma steps_files_attribute s s' :
  engine_inv uuid4 s → files_attribute_ok s → rtc (step uuid4) s s' →
  files_attribute_ok s'.
Proof.
  intros Hinv J Hsteps. revert Hinv J.
  induction Hsteps as [|s1 s2 s3 Hstep _ IH]; intros Hinv J; [done|].
  apply IH; [by eapply step_inv|by eapply step_files_attribute].
Qed.

Lemma generate_task_files_attribute task_name task_id s t s' :
  engine_inv uuid4 s → files_attribute_ok s →
  _generate_task generate_rvs _workflow_recipe task_name task_id s = Ok t s' →
  files_attribute_ok s'.
Proof.
  intros Hinv J Hrun.
  destruct (generate_task_state _ _ _ _ _ _ _ Hrun)
    as (l & fl & c & Hl & Hfl & Hne & Hc & Hn & Hf & _ &
        Htf & Hnames & Hlists & Hslots & Hmap & _).
  assert (Hold : ∀ k1 l1, tasks_files s !! k1 = Some l1 → l1 ≠ l ∧ l1 ≠ fl).
  { intros k1 l1 H1. destruct (inv_sync _ _ Hinv _ _ H1) as (fs & Hfs & _).
    assert (l1 ∈ dom (lists s)) by (apply elem_of_dom; eauto).
    split; congruence. }
  intros k1 t1. rewrite Hmap, Hslots, Htf, Hlists.
  destruct (decide (k1 = task_id)) as [->|Hk].
  - rewrite lookup_insert_eq. intros Heq. injection Heq as Heq. subst t1.
    exists fl. rewrite Hf, lookup_insert_eq. split; [done|]. right.
    rewrite lookup_insert_eq. split; [done|]. intros k' Hk'.
    destruct (decide (k' = task_id)) as [->|Hne'].
    + rewrite lookup_insert_eq in Hk'. congruence.
    + rewrite lookup_insert_ne in Hk' by done.
      by destruct (Hold _ _ Hk').
  - rewrite lookup_insert_ne by done. intros Ht1.
    destruct (J k1 t1 Ht1) as (c0 & Hc0 & Hcase).
    exists c0. split.
    { rewrite lookup_insert_ne; [done|]. intros Heq.
      apply Hc. rewrite Heq. apply elem_of_dom. eauto. }
    destruct Hcase as [Hleft|[Hempty Hun]].
    + left. by rewrite lookup_insert_ne.
    + right.
      assert (Hdom : c0 ∈ dom (lists s)) by (apply elem_of_dom; eauto).
      split.
      * rewrite !lookup_insert_ne by congruence. done.
      * intros k' Hk'. destruct (decide (k' = task_id)) as [->|Hne'].
        -- rewrite lookup_insert_eq in Hk'. congruence.
        -- rewrite lookup_insert_ne in Hk' by done. by apply (Hun k').
Qed.

Lemma reachable_files_attribute s : reach s → files_attribute_ok s.
Proof.
  induction 1 as [name df nt rf inf outf e He
    |s prefix n s' Hreach IH H|s task_name task_id t s' Hreach IH Hnew H
    |s m Hreach IH Hm|s m Hreach IH|s fuel t r s' Hreach IH Hreg H].
  - unfold __init__ in He.
    destruct (Qle_bool rf 0); [done|]. destruct (Qle_bool inf 0); [done|].
    destruct (Qle_bool outf 0); [done|]. injection He as <-.
    intros k t Hk. simpl in Hk. by rewrite lookup_empty in Hk.
  - rewrite generate_task_name_eq in H. by injection H as <- <-.
  - eapply generate_task_files_attribute; [|done|exact H].
    by apply (reachable_inv generate_rvs uuid4 _workflow_recipe).
  - done.
  - done.
  - pose proof (reachable_inv _ _ _ _ Hreach) as Hinv.
    destruct (generate_task_files_steps generate_rvs uuid4 _workflow_recipe
                _ _ _ _ _ Hinv Hreg H) as [Hsteps _].
    by eapply steps_files_attribute.
Qed.

(** X16. The [files] attribute of a task object and the engine's tracking
    list.  In every reachable state the [files] attribute of a registered
    task is empty (the list the task was created with, which nothing
    appends to) or shows exactly the files tracked for the task (the same
    list object, from the first call of [_generate_task_files] on the task
    on); for a task that is in the memo it is the latter. *)
Theorem files_attribute_tracks s k t :
  reach s → tasks_map s !! k = Some t →
  (task_files s t = [] ∨ task_files s t = files_of s k) ∧
  (is_Some (tasks_output_files s !! k) → task_files s t = files_of s k).
Proof.
  intros Hreach Ht.
  pose proof (reachable_inv _ _ _ _ Hreach) as Hinv.
  split.
  - destruct (reachable_files_attribute s Hreach k t Ht)
      as (c & Hc & [Hleft|[Hempty _]]).
    + right. unfold task_files, files_of. by rewrite Hc, Hleft.
    + left. unfold task_files, read_list. by rewrite Hc, Hempty.
  - intros [out Hout].
    destruct (inv_memo _ _ Hinv _ _ Hout) as (t' & l & Ht' & Hl & Hs & _).
    assert (t' = t) as -> by congruence.
    unfold task_files, files_of. by rewrite Hs, Hl.
Qed.

End FilesAttribute.

(** ** The sysbench wrapper *)

Section BenchmarkFacts.

Import Benchmark.

Lemma prefix_drop (a : string) : ∀ s,
  String.prefix a s = true → s = a +:+ PyStr.drop (String.length a) s.
Proof.
  induction a as [|x a IH]; intros s H; [done|].
  destruct s as [|y s]; [done|]. cbn [String.prefix] in H.
  destruct (ascii_dec x y) as [->|]; [|done].
  cbn [String.length PyStr.drop].
  change (String y a +:+ PyStr.drop (String.length a) s)
    with (String y (a +:+ PyStr.drop (String.length a) s)).
  by rewrite <- IH.
Qed.

Lemma prefix_app (a r : string) : String.prefix a (a +:+ r) = true.
Proof.
  induction a as [|x a IH]; [by destruct r|].
  change (String x a +:+ r) with (String x (a +:+ r)).
  cbn [String.prefix]. by destruct (ascii_dec x x).
Qed.

Lemma drop_app (a r : string) : PyStr.drop (String.length a) (a +:+ r) = r.
Proof. induction a as [|x a IH]; [done|]. exact IH. Qed.

Lemma split_once_go_spec sep s : ∀ before b r,
  split_once_go sep before s = Some (b, r) →
  before +:+ s = b +:+ sep +:+ r.
Proof.
  induction s as [|c s IH]; intros before b r H; [done|].
  cbn [split_once_go] in H.
  destruct (String.prefix sep (String c s)) eqn:Hp.
  - injection H as <- <-. f_equal. by apply prefix_drop.
  - apply IH in H. rewrite <- H. by rewrite string_app_assoc.
Qed.

Lemma contains_split_once s : ∀ before,
  contains "test_file" s = true →
  is_Some (split_once_go "test_file" before s).
Proof.
  induction s as [|c s IH]; intros before H; [done|].
  cbn [contains split_once_go] in *.
  destruct (String.prefix "test_file" (String c s)); [eauto|].
  by apply IH.
Qed.

Lemma strip_names_renames names : ∀ acts e,
  strip_names names = (acts, e) →
  popens acts = [] ∧ (e = None → length acts = length names).
Proof.
  induction names as [|n rest IH]; intros acts e H.
  - by injection H as <- <-.
  - cbn [strip_names] in H.
    destruct (split_once "test_file" n) as [[b r]|]; [|by injection H as <- <-].
    destruct (strip_names rest) as [acts' e'].
    injection H as <- <-. destruct (IH _ _ eq_refl) as [Hp Hlen].
    split; [done|]. intros He. simpl. by rewrite Hlen.
Qed.

Lemma strip_names_total names :
  (∀ n, n ∈ names → contains "test_file" n = true) →
  ∃ acts, strip_names names = (acts, None).
Proof.
  induction names as [|n rest IH]; intros Hall; [by exists []|].
  cbn [strip_names].
  destruct (contains_split_once n "") as [[b r] Hs]; [apply Hall; left|].
  unfold split_once. rewrite Hs.
  destruct IH as [acts ->]; [intros m Hm; apply Hall; by right|].
  eauto.
Qed.

Lemma popens_app (a b : list action) : popens (a ++ b) = popens a ++ popens b.
Proof. apply omap_app. Qed.

Lemma popens_save_names save_dir name names :
  popens (save_names save_dir name names) = [].
Proof. induction names as [|n rest IH]; [done|exact IH]. Qed.

Lemma remove_first_filter_head (P : string → Prop) `{∀ x, Decision (P x)}
    (l : list string) : ∀ r rest,
  filter P l = r :: rest →
  ∃ before after,
    l = before ++ r :: after ∧ P r ∧ (∀ x, x ∈ before → ¬ P x) ∧
    remove_first r l = Some (before ++ after).
Proof.
  induction l as [|y l IH]; intros r rest Hf; [done|].
  assert (Hr : P r).
  { assert (r ∈ filter P (y :: l)) by (rewrite Hf; left).
    by apply list_elem_of_filter in H0 as [? _]. }
  destruct (decide (P y)) as [Hy|Hy].
  - rewrite filter_cons_True in Hf by done. injection Hf as -> _.
    exists [], l. split_and!; [done|done|by intros x ?%elem_of_nil|].
    cbn [remove_first]. by rewrite decide_True.
  - rewrite filter_cons_False in Hf by done.
    destruct (IH _ _ Hf) as (before & after & -> & _ & Hb & Hrm).
    exists (y :: before), after. split_and!; [done|done| |].
    + intros x [->|Hx]%elem_of_cons; [done|by apply Hb].
    + cbn [remove_first]. rewrite decide_False by (by intros ->).
      by rewrite Hrm.
Qed.

(** The split is at the first occurrence: the separator starts at no
    earlier position. *)
Lemma split_once_go_first sep s : ∀ before b r,
  split_once_go sep before s = Some (b, r) →
  ∃ mid, b = before +:+ mid ∧ s = mid +:+ sep +:+ r ∧
         ∀ i, (i < String.length mid)%nat →
              String.prefix sep (PyStr.drop i s) = false.
Proof.
  induction s as [|c s IH]; intros before b r H; [done|].
  cbn [split_once_go] in H.
  destruct (String.prefix sep (String c s)) eqn:Hp.
  - injection H as <- <-. exists "". split_and!.
    + by rewrite string_app_nil_r.
    + by apply prefix_drop.
    + intros i Hi. simpl in Hi. lia.
  - apply IH in H as (mid & -> & -> & Hfirst).
    exists (String c mid). split_and!.
    + by rewrite string_app_assoc.
    + reflexivity.
    + intros [|i] Hi; [exact Hp|]. cbn [PyStr.drop]. apply Hfirst.
      simpl in Hi. lia.
Qed.

Lemma length_app_string (a b : string) :
  String.length (a +:+ b) = (String.length a + String.length b)%nat.
Proof. induction a as [|x a IH]; [done|]. simpl. by rewrite IH. Qed.

Lemma split_once_first_occurrence sep n b r :
  split_once sep n = Some (b, r) →
  n = b +:+ sep +:+ r ∧
  ∀ b' r', n = b' +:+ sep +:+ r' →
           (String.length b ≤ String.length b')%nat.
Proof.
  intros H. apply split_once_go_first in H as (mid & Hb & Hn & Hfirst).
  change ("" +:+ mid) with mid in Hb. subst mid.
  split; [exact Hn|]. intros b' r' Hn'.
  destruct (decide (String.length b' < String.length b)%nat) as [Hlt|]; [|lia].
  specialize (Hfirst _ Hlt). rewrite Hn' in Hfirst at 1.
  rewrite drop_app, prefix_app in Hfirst. discriminate Hfirst.
Qed.

(** Without ['='] in it, [item.split('=')] is the one piece [item]. *)
Lemma split_go_no_equals (s : string) : ∀ cur : string,
  contains "=" s = false → PyStr.split_go "=" 0 cur s = [cur +:+ s].
Proof.
  induction s as [|c s IH]; intros cur Hno.
  - simpl. by rewrite string_app_nil_r.
  - cbn [contains] in Hno. apply orb_false_elim in Hno as [Hp Hno].
    cbn [PyStr.split_go]. rewrite Hp, IH by done.
    by rewrite string_app_assoc.
Qed.

Lemma filter_first (P : string → Prop) `{∀ x, Decision (P x)}
    (before after : list string) (item : string) :
  (∀ x, x ∈ before → ¬ P x) → P item →
  filter P (before ++ item :: after) = item :: filter P after.
Proof.
  intros Hb Hitem. rewrite filter_app, filter_cons_True by done.
  rewrite (filter_none P before); [done|].
  exact Hb.
Qed.

Variable path_str : string → string.

(** X17. When [main] of the sysbench wrapper runs to its end it has
    started five processes, in this order: [fileio run] and
    [fileio cleanup] with the [--file...] arguments of the command line
    but the first one that contains ['num'], then [cpu run] with the
    [--cpu...] arguments, [memory run] with the [--memory...] arguments and
    [fileio prepare] with all the [--file...] arguments; around them it has
    renamed each file the two listings yield, and done nothing else. *)
Theorem main_commands name other saved here acts :
  main path_str name other saved here = (acts, None) →
  ∃ before r after,
    filter (λ arg, String.prefix "--file" arg = true) other =
      before ++ r :: after ∧
    contains "num" r = true ∧
    (∀ x, x ∈ before → contains "num" x = false) ∧
    popens acts =
      [ (name +:+ "_fileio_run.txt",
         ["sysbench"; "fileio"] ++ (before ++ after) ++ ["run"]);
        (name +:+ "_fileio_cleanup.txt",
         ["sysbench"; "fileio"] ++ (before ++ after) ++ ["cleanup"]);
        (name +:+ "_cpu.txt",
         ["sysbench"; "cpu"; "run"] ++
         filter (λ arg, String.prefix "--cpu" arg = true) other);
        (name +:+ "_memory.txt",
         ["sysbench"; "memory"; "run"] ++
         filter (λ arg, String.prefix "--memory" arg = true) other);
        (name +:+ "_fileio_output.txt",
         ["sysbench"; "fileio"] ++ (before ++ r :: after) ++ ["prepare"]) ] ∧
    length acts = (length saved + 5 + length here)%nat.
Proof.
  unfold main. destruct (save_dir_of path_str other) as [e|save_dir]; [done|].
  destruct (strip_names saved) as [acts1 [e|]] eqn:Hstrip; [done|].
  destruct (strip_names_renames _ _ _ Hstrip) as [Hp1 Hlen1].
  unfold file_input_args.
  destruct (filter (λ item, contains "num" item = true)
              (filter (λ arg, String.prefix "--file" arg = true) other))
    as [|r rest] eqn:Hnum; [done|].
  destruct (remove_first_filter_head _ _ _ _ Hnum)
    as (before & after & Hsplit & Hr & Hb & Hrm).
  cbv zeta. rewrite Hrm. intros Heq.
  assert (acts = acts1 ++ commands name other (before ++ after) ++
                   save_names save_dir name here) as -> by congruence.
  clear Heq.
  exists before, r, after. split_and!; [done|done| | |].
  - intros x Hx. specialize (Hb x Hx). by destruct (contains "num" x).
  - rewrite !popens_app, Hp1, popens_save_names, app_nil_r.
    unfold commands. rewrite Hsplit. reflexivity.
  - rewrite !length_app. unfold save_names. rewrite length_fmap.
    rewrite Hlen1 by done. simpl. lia.
Qed.

(** X18. [main] checks nothing itself: what stops it at lines 21-22 is the
    [IndexError] of a subscript, raised before anything is done to the
    outside world.  It is raised when no extra argument contains ['save'],
    and when the first extra argument that contains ['save'] has no
    ['=']. *)
Theorem main_stops_on_index_error name other saved here :
  ((∀ item, item ∈ other → contains "save" item = false) →
   main path_str name other saved here = ([], Some IndexError)) ∧
  (∀ before item after,
     other = before ++ item :: after →
     (∀ x, x ∈ before → contains "save" x = false) →
     contains "save" item = true →
     contains "=" item = false →
     main path_str name other saved here = ([], Some IndexError)).
Proof.
  split.
  - intros Hno. unfold main, save_dir_of.
    rewrite (filter_none _ other); [done|].
    intros item Hitem. rewrite (Hno item Hitem). done.
  - intros before item after -> Hbefore Hsave Heq.
    unfold main, save_dir_of.
    rewrite (filter_first (λ item, contains "save" item = true));
      [|intros x Hx; by rewrite (Hbefore x Hx)|done].
    unfold PyStr.split. rewrite split_go_no_equals by done. reflexivity.
Qed.

(** X19. The first loop renames a file to what its name is from the first
    ['test_file'] on: the name is cut where ['test_file'] first occurs, no
    occurrence starting further left.  A name that starts with
    ['test_file'] is left as it is: run on the renamed files, the loop
    renames each to its own name. *)
Theorem strip_names_fixed_point n t rest acts e :
  strip_names (n :: rest) = (Rename n t :: acts, e) →
  (∃ b r, n = b +:+ "test_file" +:+ r ∧ t = "test_file" +:+ r ∧
     ∀ b' r', n = b' +:+ "test_file" +:+ r' →
              (String.length b ≤ String.length b')%nat) ∧
  String.prefix "test_file" t = true ∧
  ∃ acts', strip_names [t] = ([Rename t t], None) ∧
           strip_names rest = (acts', e).
Proof.
  cbn [strip_names].
  destruct (split_once "test_file" n) as [[b r]|] eqn:Hs; [|done].
  destruct (strip_names rest) as [acts' e'] eqn:Hrest.
  intros [= <- <- <-].
  apply split_once_first_occurrence in Hs as [Hn Hfirst].
  split_and!; [by exists b, r|apply prefix_app|].
  exists acts'. split; [|done].
  unfold split_once.
  change ("test_file" +:+ r)
    with (String "t"%char ("est_file" +:+ r)).
  cbn [split_once_go].
  change (String "t"%char ("est_file" +:+ r)) with ("test_file" +:+ r).
  rewrite prefix_app, drop_app. reflexivity.
Qed.

End BenchmarkFacts.

(** ** The files [_generate_files] creates *)

Lemma assoc_NoDup (recipe : list (string * Dist.t)) ext d :
  NoDup recipe.*1 → (ext, d) ∈ recipe → assoc recipe ext = Some d.
Proof.
  induction recipe as [|[k' d'] r IH]; intros Hnd Hin.
  { by apply elem_of_nil in Hin. }
  rewrite fmap_cons in Hnd. apply NoDup_cons in Hnd as [Hk Hnd].
  cbn [assoc]. apply elem_of_cons in Hin as [[= -> ->]|Hin].
  - by rewrite decide_True.
  - rewrite decide_False; [by apply IH|].
    intros ->. apply Hk. apply list_elem_of_fmap. by exists (ext, d).
Qed.

Lemma fresh_files_link generate_rvs uuid4 factor link recipe : ∀ r u f,
  f ∈ fresh_files generate_rvs uuid4 factor link r u recipe →
  File.link f = link.
Proof.
  induction recipe as [|[ext d] rest IH]; intros r u f Hf.
  { by apply elem_of_nil in Hf. }
  cbn [fresh_files] in Hf. apply elem_of_cons in Hf as [->|Hf]; [done|].
  by eapply IH.
Qed.

Lemma length_fresh_files generate_rvs uuid4 factor link recipe : ∀ r u,
  length (fresh_files generate_rvs uuid4 factor link r u recipe) =
    length recipe.
Proof.
  induction recipe as [|[ext d] rest IH]; intros r u; [done|].
  cbn [fresh_files length]. by rewrite IH.
Qed.

Lemma fresh_files_names generate_rvs uuid4 factor link recipe : ∀ r u,
  File.name <$> fresh_files generate_rvs uuid4 factor link r u recipe =
    fresh_names uuid4 u recipe.
Proof.
  induction recipe as [|[ext d] rest IH]; intros r u; [done|].
  cbn [fresh_files fresh_names fmap list_fmap]. f_equal. apply IH.
Qed.

Section FilesGenerated.

Variable generate_rvs : nat → string → Q → Q → Q.
Variable uuid4 : nat → string.
Variable _workflow_recipe : gmap string Recipe.t.

Abbreviation gen_missing := (generate_missing generate_rvs uuid4).
Abbreviation gen_files := (_generate_files generate_rvs uuid4).
Abbreviation gen_task_files :=
  (_generate_task_files generate_rvs uuid4 _workflow_recipe).

(** The second loop of [_generate_files] on extensions that are all
    missing. *)
Lemma generate_missing_fresh k recipe link exts : ∀ todo s l ns,
  (∀ ext d, (ext, d) ∈ todo → assoc recipe ext = Some d ∧ ext ∉ exts) →
  tasks_files s !! k = Some l → tasks_files_names s !! k = Some ns →
  let new := fresh_files generate_rvs uuid4 (size_factor s link) link
               (rvs_drawn s) (uuid_drawn s) todo in
  ∃ s', gen_missing k recipe link exts (todo.*1) s = Ok new s' ∧
        read_list l s' = read_list l s ++ new ∧
        tasks_files_names s' !! k = Some (ns ++ (File.name <$> new)) ∧
        rvs_drawn s' = (rvs_drawn s + length todo)%nat ∧
        uuid_drawn s' = (uuid_drawn s + length todo)%nat ∧
        slots s' = slots s.
Proof.
  induction todo as [|[ext d] rest IH]; intros s l ns Hall Hl Hns new.
  - exists s. subst new. cbn [fresh_files fmap list_fmap length].
    rewrite !app_nil_r, !Nat.add_0_r. by split_and!.
  - destruct (Hall ext d) as [Hd Hnot]; [left|].
    set (f := {| File.name := uuid4 (uuid_drawn s) +:+ ext; File.link := link;
                 File.size := int_of_float (size_factor s link *
                                next_sample generate_rvs s d) |}).
    set (s0 := add_file k l ns f
                 (set_uuid_drawn (S (uuid_drawn s))
                    (set_rvs_drawn (S (rvs_drawn s)) s))).
    destruct (IH s0 l (ns ++ [File.name f])) as (s' & Hrun & Hlist & Hnames &
                                                  Hr & Hu & Hsl).
    { intros e d' Hin. apply Hall. by right. }
    { done. }
    { subst s0. unfold add_file. simpl. by rewrite lookup_insert_eq. }
    assert (Hfac : size_factor s0 link = size_factor s link)
      by (by destruct link).
    rewrite Hfac in Hrun, Hlist, Hnames.
    change (rvs_drawn s0) with (S (rvs_drawn s)) in *.
    change (uuid_drawn s0) with (S (uuid_drawn s)) in *.
    assert (Hfirst : read_list l s0 = read_list l s ++ [f]).
    { subst s0. unfold read_list, add_file. simpl.
      by rewrite lookup_insert_eq. }
    exists s'. subst new. cbn [fresh_files fmap list_fmap length].
    fold f. split_and!.
    + apply generate_missing_cons. right. split; [done|].
      eexists d, l, ns, _. split_and!; [done|done|done|].
      cbv zeta. split; [exact Hrun|done].
    + by rewrite Hlist, Hfirst, <- app_assoc.
    + rewrite Hnames, <- app_assoc. done.
    + rewrite Hr. lia.
    + rewrite Hu. lia.
    + rewrite Hsl. done.
Qed.



(** On the idealised floats, where [int] never raises, the call on a task
    that is not in the memo, has no file yet and no parent listed generates
    one file per extension of the two recipes of its category. *)
Lemma root_task_files_run fuel task s task_recipe l :
  tasks_output_files s !! Task.name task = None →
  _workflow_recipe !! Task.category task = Some task_recipe →
  tasks_files s !! Task.name task = Some l →
  files_of s (Task.name task) = [] →
  is_Some (tasks_files_names s !! Task.name task) →
  parents_of s (Task.name task) = [] →
  NoDup (Recipe.output task_recipe).*1 →
  NoDup (Recipe.input task_recipe).*1 →
  let n := length (Recipe.output task_recipe) in
  let outs := fresh_files generate_rvs uuid4 (output_file_size_factor s)
                OUTPUT (rvs_drawn s) (uuid_drawn s)
                (Recipe.output task_recipe) in
  let ins := fresh_files generate_rvs uuid4 (input_file_size_factor s)
               INPUT (rvs_drawn s + n) (uuid_drawn s + n)
               (Recipe.input task_recipe) in
  ∃ s', gen_task_files (S fuel) task s = Ok outs s' ∧
        files_of s' (Task.name task) = outs ++ ins ∧
        task_files s' task = outs ++ ins ∧
        tasks_output_files s' = tasks_output_files s ∧
        uuid_drawn s' =
          (uuid_drawn s + n + length (Recipe.input task_recipe))%nat.
Proof.
  intros Hm Hr Hl Hempty [ns Hns] Hpar Hnd_out Hnd_in n outs ins.
  set (k := Task.name task) in *.
  assert (Hread : read_list l s = []).
  { unfold files_of in Hempty. by rewrite Hl in Hempty. }
  destruct (generate_missing_fresh k (Recipe.output task_recipe) OUTPUT []
              (Recipe.output task_recipe) s l ns)
    as (s1 & Hrun1 & Hlist1 & Hnames1 & Hr1 & Hu1 & Hsl1); [|done|done|].
  { intros ext d Hin. split; [by apply assoc_NoDup|by intros ?%elem_of_nil]. }
  cbn [size_factor] in Hrun1, Hlist1, Hnames1. fold outs in Hrun1, Hlist1, Hnames1.
  rewrite Hread, app_nil_l in Hlist1.
  assert (Hout : gen_files k (Recipe.output task_recipe) OUTPUT s = Ok outs s1).
  { apply generate_files_Ok. exists l, outs. split; [done|].
    cbv zeta. rewrite Hread. by split. }
  pose proof (generate_files_grows _ _ _ _ _ _ _ _ Hout) as Hg1.
  pose proof (generate_files_memo _ _ _ _ _ _ _ _ Hout) as Hm1.
  set (s1' := set_slots (<[Task.files task:=l]> (slots s1)) s1).
  assert (Hno_in : filter (λ f, has_link INPUT f = true) outs = []).
  { apply filter_none. intros f Hf Hlk%has_link_true.
    apply fresh_files_link in Hf. congruence. }
  assert (Hl1 : tasks_files s1 !! k = Some l)
    by (by rewrite (grows_tasks_files _ _ Hg1)).
  destruct (generate_missing_fresh k (Recipe.input task_recipe) INPUT []
              (Recipe.input task_recipe) s1' l (ns ++ (File.name <$> outs)))
    as (s4 & Hrun4 & Hlist4 & Hnames4 & Hr4 & Hu4 & Hsl4);
    [|exact Hl1|exact Hnames1|].
  { intros ext d Hin. split; [by apply assoc_NoDup|by intros ?%elem_of_nil]. }
  cbn [size_factor] in Hrun4, Hlist4, Hnames4.
  change (input_file_size_factor s1') with (input_file_size_factor s1) in *.
  change (rvs_drawn s1') with (rvs_drawn s1) in *.
  change (uuid_drawn s1') with (uuid_drawn s1) in *.
  change (read_list l s1') with (read_list l s1) in *.
  rewrite (grows_input_factor _ _ Hg1), Hr1, Hu1 in Hrun4, Hlist4, Hnames4.
  fold n ins in Hrun4, Hlist4, Hnames4. rewrite Hlist1 in Hlist4.
  assert (Hextra : gen_files k (Recipe.input task_recipe) INPUT s1' = Ok ins s4).
  { apply generate_files_Ok. exists l, ins. split; [done|].
    cbv zeta. change (read_list l s1') with (read_list l s1).
    rewrite Hlist1, Hno_in. by split. }
  pose proof (generate_files_grows _ _ _ _ _ _ _ _ Hextra) as Hg4.
  pose proof (generate_files_memo _ _ _ _ _ _ _ _ Hextra) as Hm4.
  exists s4. split_and!.
  - apply generate_task_files_fresh_Ok; [done|].
    exists task_recipe, l, s1, [], s1', s1', ins. fold k.
    split_and!; try done.
    fold (parents_of s1 k). by rewrite (parents_of_grows _ _ _ Hg1), Hpar.
  - unfold files_of. rewrite (grows_tasks_files _ _ Hg4).
    change (tasks_files s1') with (tasks_files s1). by rewrite Hl1.
  - unfold task_files. rewrite Hsl4. subst s1'. simpl.
    by rewrite lookup_insert_eq.
  - by rewrite Hm4, <- Hm1.
  - rewrite Hu4, Hu1. done.
Qed.

(** X11. The files of a task without parents.  When a call of
    [_generate_task_files] on a task that is not in the memo, has no file
    yet and no parent listed returns, it returns one new OUTPUT file per
    extension of the output recipe of its category, in the order of the
    recipe, and leaves the task with these followed by one new INPUT file
    per extension of the input recipe; the [i]-th file is named by the
    [i]-th next token followed by its extension.  The [files] attribute of
    the task object shows the same list, and the memo is not written. *)
Theorem root_task_files fuel task s task_recipe l r s' :
  tasks_output_files s !! Task.name task = None →
  _workflow_recipe !! Task.category task = Some task_recipe →
  tasks_files s !! Task.name task = Some l →
  files_of s (Task.name task) = [] →
  is_Some (tasks_files_names s !! Task.name task) →
  parents_of s (Task.name task) = [] →
  NoDup (Recipe.output task_recipe).*1 →
  NoDup (Recipe.input task_recipe).*1 →
  gen_task_files (S fuel) task s = Ok r s' →
  let n := length (Recipe.output task_recipe) in
  File.name <$> r =
    fresh_names uuid4 (uuid_drawn s) (Recipe.output task_recipe) ∧
  (∀ f, f ∈ r → File.link f = OUTPUT) ∧
  (∃ ins,
     files_of s' (Task.name task) = r ++ ins ∧
     task_files s' task = r ++ ins ∧
     File.name <$> ins =
       fresh_names uuid4 (uuid_drawn s + n) (Recipe.input task_recipe) ∧
     (∀ f, f ∈ ins → File.link f = INPUT)) ∧
  tasks_output_files s' = tasks_output_files s ∧
  uuid_drawn s' =
    (uuid_drawn s + n + length (Recipe.input task_recipe))%nat.
Proof.
  intros Hm Hr Hl Hempty Hns Hpar Hnd_out Hnd_in Hrun n.
  destruct (root_task_files_run fuel task s task_recipe l
              Hm Hr Hl Hempty Hns Hpar Hnd_out Hnd_in)
    as (s'' & Hrun' & Hfiles & Hattr & Hmemo & Hu).
  rewrite Hrun in Hrun'. injection Hrun' as -> <-.
  split_and!; [apply fresh_files_names| |
               |exact Hmemo|exact Hu].
  - intros f Hf. by eapply fresh_files_link.
  - eexists. split_and!; [exact Hfiles|exact Hattr|apply fresh_files_names|].
    intros f Hf. by eapply fresh_files_link.
Qed.

End FilesGenerated.

(** ** The files of a task already in the memo *)

Lemma read_list_add_file_other k l ns f s l' :
  l' ≠ l → read_list l' (add_file k l ns f s) = read_list l' s.
Proof.
  intros Hne. unfold read_list, add_file. simpl.
  by rewrite lookup_insert_ne.
Qed.

Section Frozen.

Variable generate_rvs : nat → string → Q → Q → Q.
Variable uuid4 : nat → string.
Variable _workflow_recipe : gmap string Recipe.t.

Abbreviation gen_missing := (generate_missing generate_rvs uuid4).
Abbreviation gen_files := (_generate_files generate_rvs uuid4).
Abbreviation gen_task_files :=
  (_generate_task_files generate_rvs uuid4 _workflow_recipe).
Abbreviation reach := (reachable generate_rvs uuid4 _workflow_recipe).

(** The loops of a call append to the list of their own task only. *)
Lemma generate_missing_other_lists k recipe link exts todo : ∀ s new s' l,
  tasks_files s !! k = Some l →
  gen_missing k recipe link exts todo s = Ok new s' →
  ∀ l', l' ≠ l → read_list l' s' = read_list l' s.
Proof.
  induction todo as [|ext rest IH]; intros s new s' l Hl H l' Hne.
  - by injection H as <- <-.
  - apply generate_missing_cons in H
      as [[_ H]|[_ (d & l0 & ns & more & Hd & Hl0 & Hns & H & ->)]];
      [by eapply IH|].
    assert (l0 = l) as -> by congruence.
    cbv zeta in H. pose proof (λ Hx, IH _ _ _ l Hx H l' Hne) as Hrest.
    rewrite Hrest by exact Hl. by rewrite read_list_add_file_other.
Qed.

Lemma generate_files_other_lists k recipe link s r s' l :
  tasks_files s !! k = Some l →
  gen_files k recipe link s = Ok r s' →
  ∀ l', l' ≠ l → read_list l' s' = read_list l' s.
Proof.
  intros Hl (l0 & new & Hl0 & H & _)%generate_files_Ok.
  by eapply generate_missing_other_lists.
Qed.

Lemma link_inputs_other_lists k inputs : ∀ s s' l,
  tasks_files s !! k = Some l →
  link_inputs k inputs s = Ok tt s' →
  ∀ l', l' ≠ l → read_list l' s' = read_list l' s.
Proof.
  induction inputs as [|f fs IH]; intros s s' l Hl H l' Hne.
  - by injection H as <-.
  - apply link_inputs_cons in H
      as (ns & Hns & [[_ H]|[_ (l0 & Hl0 & H)]]); [by eapply IH|].
    assert (l0 = l) as -> by congruence.
    pose proof (λ Hx, IH _ _ l Hx H l' Hne) as Hrest.
    rewrite Hrest by exact Hl. by rewrite read_list_add_file_other.
Qed.

(** The lists of the tasks that are in the memo when a call starts are the
    same when it returns. *)
Lemma generate_task_files_frozen fuel : ∀ task s r s',
  (∀ k k' l, tasks_files s !! k = Some l → tasks_files s !! k' = Some l →
             k = k') →
  gen_task_files fuel task s = Ok r s' →
  ∀ p l, is_Some (tasks_output_files s !! p) → tasks_files s !! p = Some l →
         read_list l s' = read_list l s.
Proof.
  induction fuel as [|fuel IH]; intros task s r s' Hinj Hrun p l Hp Hl;
    [done|].
  destruct (tasks_output_files s !! Task.name task) as [c|] eqn:Hm.
  { rewrite (generate_task_files_hit _ _ _ _ _ _ _ Hm) in Hrun.
    by injection Hrun as <- <-. }
  apply generate_task_files_fresh_Ok in Hrun
    as (task_recipe & lk & s1 & inputs & s2 & s3 & extra &
        Hr & Hout & Hlk & Hres & Hlink & Hextra); [|done].
  set (k := Task.name task) in *.
  pose proof (generate_files_grows _ _ _ _ _ _ _ _ Hout) as Hg1.
  rewrite (grows_tasks_files _ _ Hg1) in Hlk.
  assert (Hne : l ≠ lk).
  { intros ->. assert (p = k) as -> by (by eapply Hinj).
    destruct Hp as [? Hp]. congruence. }
  set (s1' := set_slots (<[Task.files task:=lk]> (slots s1)) s1) in *.
  assert (Hg1' : grows s s1') by (etrans; [exact Hg1|apply grows_set_slots]).
  assert (Hloop : ∀ ps st inputs' st',
            grows s st →
            resolve_parents (gen_task_files fuel) ps st = Ok inputs' st' →
            read_list l st' = read_list l st).
  { clear -IH Hinj Hp Hl. induction ps as [|q ps IHps];
      intros st inputs' st' Hg H.
    - by apply resolve_parents_nil in H as [_ ->].
    - apply resolve_parents_cons in H
        as (qt & out & st1 & more & Hqt & Hcall & Hmore & _).
      pose proof (generate_task_files_grows _ _ _ _ _ _ _ _ Hcall) as Hgc.
      assert (Hfrozen : read_list l st1 = read_list l st).
      { eapply (IH qt st out st1); [|exact Hcall| |].
        - intros k1 k2 l0. rewrite (grows_tasks_files _ _ Hg). apply Hinj.
        - by apply (grows_memo _ _ Hg).
        - by rewrite (grows_tasks_files _ _ Hg). }
      rewrite <- Hfrozen.
      apply (IHps _ _ _ (transitivity Hg
               (transitivity Hgc (grows_set_memo q out st1))) Hmore). }
  pose proof (resolve_parents_grows _
     (generate_task_files_grows generate_rvs uuid4 _workflow_recipe fuel)
     _ _ _ _ Hres) as Hg2.
  pose proof (link_inputs_grows _ _ _ _ Hlink) as Hg3.
  assert (Hg02 : grows s s2) by (by etrans).
  assert (Hg03 : grows s s3) by (by etrans).
  assert (Hlk2 : tasks_files s2 !! k = Some lk)
    by (by rewrite (grows_tasks_files _ _ Hg02)).
  assert (Hlk3 : tasks_files s3 !! k = Some lk)
    by (by rewrite (grows_tasks_files _ _ Hg03)).
  pose proof (generate_files_other_lists k _ INPUT s3 extra s' lk
                Hlk3 Hextra l Hne) as E4.
  pose proof (link_inputs_other_lists k inputs s2 s3 lk Hlk2 Hlink l Hne)
    as E3.
  pose proof (Hloop _ _ _ _ Hg1' Hres) as E2.
  pose proof (generate_files_other_lists k _ OUTPUT s r s1 lk
                Hlk Hout l Hne) as E1.
  rewrite E4, E3, E2. exact E1.
Qed.


(** X15. A task is generated once.  When a task is in the memo, no later
    call of [_generate_task_files], on whatever registered task, changes
    its files or its entry in the memo: the call on a child that lists it
    as a parent, or on the task itself, finds the entry and generates
    nothing for it. *)
Theorem memoized_files_frozen fuel task s r s' p out :
  reach s → registered s task →
  tasks_output_files s !! p = Some out →
  gen_task_files fuel task s = Ok r s' →
  files_of s' p = files_of s p ∧ tasks_output_files s' !! p = Some out ∧
  (Task.name task = p → r = out ∧ s' = s).
Proof.
  intros Hreach Hreg Hp Hrun.
  pose proof (reachable_inv _ _ _ _ Hreach) as Hinv.
  pose proof (generate_task_files_grows _ _ _ _ _ _ _ _ Hrun) as Hg.
  split_and!.
  - unfold files_of. rewrite (grows_tasks_files _ _ Hg).
    destruct (tasks_files s !! p) as [l|] eqn:Hl; [|done].
    eapply generate_task_files_frozen; [|exact Hrun| |done]; [|eauto].
    apply (inv_inj _ _ Hinv).
  - apply (generate_task_files_memo_stable generate_rvs uuid4
             _workflow_recipe fuel task s r s' p out Hrun); [| |done].
    + by apply (inv_names_agree _ _ Hinv).
    + by apply (inv_memo_closed _ _ Hinv).
  - intros Hn. destruct fuel as [|n]; [done|].
    rewrite (generate_task_files_hit _ _ _ _ _ _ out) in Hrun
      by (by rewrite Hn).
    by injection Hrun as <- <-.
Qed.

End Frozen.

(** ** Task names and the tasks generated on them *)

Section NameFacts.

Local Open Scope N_scope.

Lemma no_underscore_not_occurs s : no_underscore s → ¬ occurs "_0" s.
Proof.
  unfold no_underscore. intros H (x & y & ->).
  rewrite contains_char_app in H.
  change ("_0" +:+ y) with (String "_"%char (String "0"%char y)) in H.
  cbn [PyStr.contains_char] in H. rewrite Ascii.eqb_refl in H.
  by rewrite orb_true_r in H.
Qed.

Lemma not_occurs_app p : ∀ t,
  ¬ occurs "_0" p → ¬ occurs "_0" t → (∀ t', t ≠ String "0"%char t') →
  ¬ occurs "_0" (p +:+ t).
Proof.
  induction p as [|a p IH]; intros t Hp Ht Hhead; [done|].
  change (String a p +:+ t) with (String a (p +:+ t)).
  intros ([|c x] & y & Heq).
  - change ("" +:+ "_0" +:+ y) with (String "_"%char (String "0"%char y)) in Heq.
    injection Heq as -> Heq. destruct p as [|b p].
    + by apply (Hhead y).
    + change (String b p +:+ t) with (String b (p +:+ t)) in Heq.
      injection Heq as -> _. apply Hp. by exists "", p.
  - change (String c x +:+ "_0" +:+ y) with (String c (x +:+ "_0" +:+ y)) in Heq.
    injection Heq as -> Heq.
    apply (IH t); [|done|done|by exists x, y].
    intros H. apply Hp. by apply occurs_cons.
Qed.

Lemma digit_cases (d : N) :
  d < 10 →
  d = 0 ∨ d = 1 ∨ d = 2 ∨ d = 3 ∨ d = 4 ∨ d = 5 ∨ d = 6 ∨ d = 7 ∨ d = 8 ∨
  d = 9.
Proof. lia. Qed.

Lemma digit_char_not_underscore (d : N) :
  d < 10 → Ascii.eqb "_"%char (PyStr.digit_char d) = false.
Proof.
  intros H. destruct (digit_cases d H)
    as [->|[->|[->|[->|[->|[->|[->|[->|[->| ->]]]]]]]]]; reflexivity.
Qed.

Lemma digit_char_not_zero (d : N) :
  0 < d → d < 10 → PyStr.digit_char d ≠ "0"%char.
Proof.
  intros H0 H. destruct (digit_cases d H)
    as [->|[->|[->|[->|[->|[->|[->|[->|[->| ->]]]]]]]]]; [lia|done..].
Qed.

Lemma no_underscore_digits_go (f : nat) : ∀ (n : N) (acc : string),
  no_underscore acc → no_underscore (PyStr.digits_go f n acc).
Proof.
  unfold no_underscore.
  induction f as [|f IH]; intros n acc Hacc; [done|].
  cbn [PyStr.digits_go].
  assert (Hacc' : PyStr.contains_char "_"%char
                    (String (PyStr.digit_char (n mod 10)) acc) = false).
  { cbn [PyStr.contains_char].
    rewrite digit_char_not_underscore; [done|]. apply N.mod_lt. lia. }
  destruct (n <? 10)%N; [done|]. by apply IH.
Qed.

Lemma no_underscore_zeros_app (k : nat) (s : string) :
  no_underscore s → no_underscore (PyStr.zeros k +:+ s).
Proof.
  unfold no_underscore. intros H. induction k as [|k IH]; [done|].
  cbn [PyStr.zeros].
  change (String "0" (PyStr.zeros k) +:+ s)
    with (String "0"%char (PyStr.zeros k +:+ s)).
  cbn [PyStr.contains_char]. by rewrite IH.
Qed.

Lemma no_underscore_format_08d (n : Z) :
  (0 ≤ n)%Z → no_underscore (PyStr.format_08d n).
Proof.
  intros Hn. unfold PyStr.format_08d.
  destruct (Z.ltb_spec n 0) as [?|_]; [lia|].
  apply no_underscore_zeros_app. by apply no_underscore_digits_go.
Qed.

Lemma digits_go_head (f : nat) : ∀ (n : N) (acc : string),
  0 < n → n < 2 ^ N.of_nat f →
  ∃ c rest, PyStr.digits_go f n acc = String c rest ∧ c ≠ "0"%char.
Proof.
  induction f as [|f IH]; intros n acc Hpos Hn.
  - simpl in Hn. lia.
  - cbn [PyStr.digits_go]. destruct (N.ltb_spec n 10) as [Hlt|Hge].
    + eexists _, _. split; [done|].
      rewrite N.mod_small by done. by apply digit_char_not_zero.
    + apply IH.
      * apply N.div_str_pos. lia.
      * rewrite Nat2N.inj_succ, N.pow_succ_r' in Hn.
        apply N.Div0.div_lt_upper_bound. lia.
Qed.

(** Below [10^7] the suffix starts with a zero. *)
Lemma format_08d_small (n : Z) :
  (0 ≤ n < 10 ^ 7)%Z →
  ∃ m, PyStr.format_08d n = String "0"%char m ∧ no_underscore m.
Proof.
  intros [Hn Hlt]. unfold PyStr.format_08d.
  destruct (Z.ltb_spec n 0) as [?|_]; [lia|].
  assert (Hlen : (String.length (PyStr.digits (Z.to_N n)) ≤ 7)%nat).
  { apply (length_digits_le 6). change (10 ^ 7)%Z with 10000000%Z in Hlt.
    change (10 ^ N.of_nat 7) with 10000000. lia. }
  destruct (8 - String.length (PyStr.digits (Z.to_N n)))%nat as [|j] eqn:E;
    [lia|].
  exists (PyStr.zeros j +:+ PyStr.digits (Z.to_N n)). split; [done|].
  apply no_underscore_zeros_app. by apply no_underscore_digits_go.
Qed.

(** From [10^7] on it starts with another digit. *)
Lemma format_08d_large (n : Z) :
  (10 ^ 7 ≤ n)%Z →
  ∃ c rest, PyStr.format_08d n = String c rest ∧ c ≠ "0"%char ∧
            no_underscore (String c rest).
Proof.
  intros Hge. change (10 ^ 7)%Z with 10000000%Z in Hge.
  pose proof (no_underscore_format_08d n ltac:(lia)) as Hno.
  unfold PyStr.format_08d in *.
  destruct (Z.ltb_spec n 0) as [?|_]; [lia|].
  assert (Hlen : (8 ≤ String.length (PyStr.digits (Z.to_N n)))%nat).
  { apply (length_digits_ge 7). change (10 ^ N.of_nat 7) with 10000000. lia. }
  replace (8 - String.length (PyStr.digits (Z.to_N n)))%nat with 0%nat
    in * by lia.
  change (PyStr.zeros 0 +:+ PyStr.digits (Z.to_N n))
    with (PyStr.digits (Z.to_N n)) in *.
  destruct (digits_go_head (S (N.to_nat (N.log2 (Z.to_N n)))) (Z.to_N n) "")
    as (c & rest & Heq & Hc); [lia|apply lt_pow2_succ_log2|].
  unfold PyStr.digits in *. rewrite Heq in *. by exists c, rest.
Qed.

End NameFacts.

Section NamedTasks.

Variable generate_rvs : nat → string → Q → Q → Q.
Variable _workflow_recipe : gmap string Recipe.t.

(** X12. A task generated on a name of [_generate_task_name].  With a
    prefix in which ['_0'] does not occur and a category of the table, the
    task is created while the counter is below [10^7], under the name
    returned, and its [task_id] field is the eight-digit suffix of the
    name; from the [10^7]-th name on the suffix no longer starts with a
    zero, ['_0'] does not occur in the name and [_generate_task] raises
    [IndexError]. *)
Theorem named_task_limit prefix category s task_recipe :
  _workflow_recipe !! category = Some task_recipe →
  ¬ occurs "_0" prefix → (0 ≤ task_id_counter s)%Z →
  let suffix := PyStr.format_08d (task_id_counter s) in
  ((task_id_counter s < 10 ^ 7)%Z →
   ∃ t s',
     generate_named_task generate_rvs _workflow_recipe prefix category s =
       Ok t s' ∧
     Task.name t = prefix +:+ "_" +:+ suffix ∧ Task.task_id t = suffix ∧
     String.length suffix = 8%nat ∧
     tasks_map s' !! (prefix +:+ "_" +:+ suffix) = Some t ∧
     task_id_counter s' = (task_id_counter s + 1)%Z) ∧
  ((10 ^ 7 ≤ task_id_counter s)%Z →
   generate_named_task generate_rvs _workflow_recipe prefix category s =
     Raise IndexError).
Proof.
  intros Hr Hprefix Hc suffix. unfold generate_named_task, bind.
  rewrite generate_task_name_eq. fold suffix. split.
  - intros Hlt.
    destruct (format_08d_small (task_id_counter s)) as (m & Hm & Hno); [lia|].
    fold suffix in Hm.
    assert (Hsplit : PyStr.split "_0" (prefix +:+ "_" +:+ suffix) !! 1%nat =
                     Some m).
    { rewrite Hm.
      change ("_" +:+ String "0" m) with ("_0" +:+ m).
      rewrite <- (string_app_nil_r m) at 1.
      apply split_second_piece; [done|by apply no_underscore_not_occurs|].
      by left. }
    destruct (generate_task_ok generate_rvs _workflow_recipe category
                (prefix +:+ "_" +:+ suffix)
                (set_task_id_counter (task_id_counter s + 1) s)
                task_recipe m Hr Hsplit)
      as (t & s' & Hrun & Hname & Hid & _ & Hmap).
    exists t, s'. split_and!; [done|done|by rewrite Hid, Hm| |done|].
    + destruct (format_08d_nonneg (task_id_counter s) Hc) as (_ & H8 & _).
      apply H8. change (10 ^ 8)%Z with 100000000%Z.
      change (10 ^ 7)%Z with 10000000%Z in Hlt. lia.
    + unfold _generate_task, bind, subscript in Hrun. rewrite Hr in Hrun.
      simpl in Hrun. rewrite Hsplit in Hrun. simpl in Hrun.
      by injection Hrun as <- <-.
  - intros Hge.
    destruct (format_08d_large (task_id_counter s) Hge)
      as (c & rest & Heq & Hc0 & Hno).
    fold suffix in Heq.
    eapply generate_task_index_error; [done|].
    apply split_no_sep_single. rewrite Heq.
    apply not_occurs_app; [done| |done].
    change ("_" +:+ String c rest) with (String "_"%char (String c rest)).
    intros ([|a x] & y & Hxy).
    + change ("" +:+ "_0" +:+ y)
        with (String "_"%char (String "0"%char y)) in Hxy.
      by injection Hxy as ->.
    + change (String a x +:+ "_0" +:+ y)
        with (String a (x +:+ "_0" +:+ y)) in Hxy.
      injection Hxy as _ Hxy.
      apply (no_underscore_not_occurs _ Hno). by exists x, y.
Qed.

End NamedTasks.

(** ** The registration of a generated task *)

Section Registration.

Variable generate_rvs : nat → string → Q → Q → Q.
Variable _workflow_recipe : gmap string Recipe.t.

(** X14. What [_generate_task] registers.  The task is entered in
    [tasks_map] under the identifier, with the category as its category
    and program, one core and no argument; the identifier gets an empty
    tracking list and an empty name list, also when it was in use before
    (the identifier is not checked: the previous task and its files are
    replaced); the [files] attribute of the task is an empty list that is
    not the tracking list.  The entries and the files of the other
    identifiers, the memo, the adjacency maps and the counter stay as they
    are, and no token is drawn. *)
Theorem generate_task_registers task_name task_id s t s' :
  _generate_task generate_rvs _workflow_recipe task_name task_id s = Ok t s' →
  (Task.name t = task_id ∧ Task.category t = task_name ∧
   Task.program t = task_name ∧ Task.cores t = 1%Z ∧ Task.args t = []) ∧
  tasks_map s' !! task_id = Some t ∧
  files_of s' task_id = [] ∧ task_files s' t = [] ∧
  tasks_files_names s' !! task_id = Some [] ∧
  _get_files_by_task_and_link task_id OUTPUT s' = Ok [] s' ∧
  slots s' !! Task.files t ≠ tasks_files s' !! task_id ∧
  (∀ k, k ≠ task_id →
     tasks_map s' !! k = tasks_map s !! k ∧
     files_of s' k = files_of s k ∧
     tasks_files_names s' !! k = tasks_files_names s !! k) ∧
  tasks_output_files s' = tasks_output_files s ∧
  tasks_parents s' = tasks_parents s ∧
  tasks_children s' = tasks_children s ∧
  task_id_counter s' = task_id_counter s ∧
  uuid_drawn s' = uuid_drawn s.
Proof.
  intros Hrun.
  destruct (generate_task_state _ _ _ _ _ _ _ Hrun)
    as (l & fl & c & Hl & Hfl & Hne & Hc & Hname & Hfiles & Hcat &
        Htf & Hnames & Hlists & Hslots & Hmap & Hmemo & Hpar & Hu).
  assert (Hfo : files_of s' task_id = []).
  { unfold files_of, read_list. rewrite Htf, lookup_insert_eq, Hlists.
    rewrite lookup_insert_ne by done. by rewrite lookup_insert_eq. }
  assert (Htl : tasks_files s' !! task_id = Some l)
    by (by rewrite Htf, lookup_insert_eq).
  unfold _generate_task, bind, subscript in Hrun.
  destruct (_workflow_recipe !! task_name) as [task_recipe|]; [|done].
  simpl in Hrun.
  destruct (PyStr.split "_0" task_id !! 1%nat) as [rest|]; [|done].
  simpl in Hrun. injection Hrun as Ht Hs'.
  split; [by rewrite <- Ht|]. split_and!.
  - by rewrite Hmap, lookup_insert_eq.
  - done.
  - unfold task_files, read_list.
    rewrite Hfiles, Hslots, lookup_insert_eq, Hlists.
    by rewrite lookup_insert_eq.
  - by rewrite Hnames, lookup_insert_eq.
  - unfold _get_files_by_task_and_link, bind, subscript, get, ret.
    rewrite Htl. unfold files_of in Hfo. rewrite Htl in Hfo.
    by rewrite Hfo.
  - rewrite Hfiles, Hslots, lookup_insert_eq, Htl. congruence.
  - intros k Hk. rewrite Hmap, Hnames, !lookup_insert_ne by done.
    split_and!; [done| |done].
    unfold files_of. rewrite Htf, lookup_insert_ne by done.
    destruct (tasks_files s !! k) as [l0|]; [|done].
    unfold read_list. rewrite Hlists.
    destruct (decide (l0 = fl)) as [->|Hn1].
    { rewrite lookup_insert_eq. apply not_elem_of_dom in Hfl.
      by rewrite Hfl. }
    rewrite lookup_insert_ne by done.
    destruct (decide (l0 = l)) as [->|Hn2].
    { rewrite lookup_insert_eq. apply not_elem_of_dom in Hl.
      by rewrite Hl. }
    by rewrite lookup_insert_ne.
  - done.
  - done.
  - by rewrite <- Hs'.
  - by rewrite <- Hs'.
  - done.
Qed.

End Registration.

(** ** The engine at work on the small recipe *)


Example demo_parent_registered :
  tasks_map demo_tasks !! "p_01" = Some demo_parent.
Proof. vm_compute. reflexivity. Qed.

Example demo_child_registered :
  tasks_map demo_tasks !! "c_01" = Some demo_child.
Proof. vm_compute. reflexivity. Qed.

Lemma demo_tasks_reachable :
  reachable (const_rvs 5) demo_uuid4 demo_table demo_tasks.
Proof.
  unfold demo_tasks. apply reach_parents; [|by intros k [v Hv]].
  eapply (reach_task _ _ _ _ "A" "c_01" demo_child).
  - eapply (reach_task _ _ _ _ "A" "p_01" demo_parent).
    + by eapply (reach_init _ _ _ "demo" None None 1 1 1).
    + reflexivity.
    + vm_compute. reflexivity.
  - vm_compute. reflexivity.
  - vm_compute. reflexivity.
Qed.

Example demo_files_run :
  ∃ r, _generate_task_files (const_rvs 5) demo_uuid4 demo_table 2
         demo_child demo_tasks = Ok r demo_files.
Proof. eexists. vm_compute. reflexivity. Qed.

Lemma demo_files_reachable :
  reachable (const_rvs 5) demo_uuid4 demo_table demo_files.
Proof.
  destruct demo_files_run as [r Hr].
  eapply reach_files; [apply demo_tasks_reachable| |exact Hr].
  apply demo_child_registered.
Qed.

Example demo_child_files :
  File.name <$> task_files demo_files demo_child =
    ["-.tar.gz"; "0-.tar.gz"; "000-.txt"].
Proof. vm_compute. reflexivity. Qed.

Example demo_parent_files :
  File.name <$> task_files demo_files demo_parent =
    ["0-.tar.gz"; "00-.txt"].
Proof. vm_compute. reflexivity. Qed.

(** *** The theorems applied to the small recipe *)

Lemma demo_parents_of k p :
  p ∈ parents_of demo_tasks k → k = "c_01" ∧ p = "p_01".
Proof.
  unfold parents_of.
  change (tasks_parents demo_tasks) with ({[ "c_01" := ["p_01"] ]} : gmap string (list string)).
  destruct (decide (k = "c_01")) as [->|Hk].
  - rewrite lookup_singleton_eq. simpl. by intros ->%list_elem_of_singleton.
  - rewrite lookup_singleton_ne by done. simpl. by intros ?%elem_of_nil.
Qed.

Lemma demo_parents_registered : parents_registered demo_tasks.
Proof.
  intros k p [_ ->]%demo_parents_of. rewrite demo_parent_registered. eauto.
Qed.



Example demo_parent_twice_cached :
  let cached := [ {| File.name := "0-.tar.gz"; File.link := OUTPUT;
                     File.size := 5 |} ] in
  tasks_output_files demo_files !! Task.name demo_parent = Some cached ∧
  (first <- _generate_task_files (const_rvs 5) demo_uuid4 demo_table 1
              demo_parent ;;
   second <- _generate_task_files (const_rvs 5) demo_uuid4 demo_table 1
               demo_parent ;;
   ret (first, second)) demo_files = Ok (cached, cached) demo_files.
Proof.
  intros cached.
  assert (H : tasks_output_files demo_files !! Task.name demo_parent =
              Some cached) by (vm_compute; reflexivity).
  split; [exact H|].
  exact (generate_task_files_twice_cached (const_rvs 5) demo_uuid4 demo_table
           0 0 demo_parent demo_files cached H).
Qed.

Lemma demo_uuid4_no_char c i :
  c ≠ "0"%char → c ≠ "-"%char →
  PyStr.contains_char c (demo_uuid4 i) = false.
Proof.
  intros H0 Hd. unfold demo_uuid4.
  induction i as [|i IH]; cbn [PyStr.zeros].
  - change ("" +:+ "-") with "-". cbn [PyStr.contains_char].
    by destruct (Ascii.eqb_spec c "-"%char).
  - change (String "0" (PyStr.zeros i) +:+ "-")
      with (String "0"%char (PyStr.zeros i +:+ "-")).
    cbn [PyStr.contains_char]. rewrite IH.
    by destruct (Ascii.eqb_spec c "0"%char).
Qed.

Lemma demo_uuid4_plain i : plain_token (demo_uuid4 i) = true.
Proof.
  unfold plain_token.
  rewrite !demo_uuid4_no_char by discriminate.
  unfold demo_uuid4. by destruct i.
Qed.

Lemma plain_tasks_reachable :
  reachable (const_rvs 5) demo_uuid4 plain_table plain_tasks.
Proof.
  unfold plain_tasks. apply reach_parents; [|by intros k [v Hv]].
  eapply (reach_task _ _ _ _ "B" "d_01" plain_child).
  - eapply (reach_task _ _ _ _ "B" "q_01" plain_parent).
    + by eapply (reach_init _ _ _ "demo" None None 1 1 1).
    + reflexivity.
    + vm_compute. reflexivity.
  - vm_compute. reflexivity.
  - vm_compute. reflexivity.
Qed.

Example plain_child_registered :
  tasks_map plain_tasks !! "d_01" = Some plain_child.
Proof. vm_compute. reflexivity. Qed.

Example plain_files_run :
  ∃ r, _generate_task_files (const_rvs 5) demo_uuid4 plain_table 2
         plain_child plain_tasks = Ok r plain_files.
Proof. eexists. vm_compute. reflexivity. Qed.

Example plain_child_not_in_memo :
  tasks_output_files plain_files !! Task.name plain_child = None.
Proof. vm_compute. reflexivity. Qed.

Example plain_child_files :
  File.name <$> task_files plain_files plain_child =
    ["-.dat"; "0-.dat"; "000-.txt"].
Proof. vm_compute. reflexivity. Qed.

Lemma generate_task_files_twice_witness :
  ∃ r,
    _generate_task_files (const_rvs 5) demo_uuid4 plain_table 2 plain_child
      plain_tasks = Ok r plain_files ∧
    _generate_task_files (const_rvs 5) demo_uuid4 plain_table 2 plain_child
      plain_files = Ok r plain_files.
Proof.
  destruct plain_files_run as [r Hr]. exists r. split; [exact Hr|].
  apply (generate_task_files_twice (const_rvs 5) demo_uuid4 plain_table
           2 plain_child plain_tasks r plain_files
           plain_tasks_reachable plain_child_registered);
    [|exact Hr|lia].
  right. split; [exact demo_uuid4_plain|].
  intros task_recipe ext Hrecipe.
  change (Task.category plain_child) with "B" in Hrecipe.
  unfold plain_table in Hrecipe. rewrite lookup_singleton_eq in Hrecipe.
  injection Hrecipe as <-. simpl.
  intros [->|[->|[]%elem_of_nil]%elem_of_cons]%elem_of_cons; reflexivity.
Defined.

Lemma generate_task_files_records_parents_witness :
  ∃ r,
    _generate_task_files (const_rvs 5) demo_uuid4 demo_table 2 demo_child
      demo_tasks = Ok r demo_files ∧
    tasks_output_files demo_files !! Task.name demo_child = None ∧
    (∀ p, p ∈ parents_of demo_tasks (Task.name demo_child) →
       ∃ out, tasks_output_files demo_files !! p = Some out ∧
         ∀ fuel' pt, Task.name pt = p →
           _generate_task_files (const_rvs 5) demo_uuid4 demo_table (S fuel')
             pt demo_files = Ok out demo_files) ∧
    (∀ k v, tasks_output_files demo_tasks !! k = Some v →
            tasks_output_files demo_files !! k = Some v).
Proof.
  destruct demo_files_run as [r Hr]. exists r. split; [exact Hr|].
  pose proof (reachable_inv _ _ _ _ demo_tasks_reachable)
    as Hinv.
  apply (generate_task_files_records_parents (const_rvs 5) demo_uuid4
           demo_table 2 demo_child demo_tasks r demo_files).
  - apply (inv_names_agree _ _ Hinv).
  - exact (inv_memo_closed _ _ Hinv).
  - exact demo_child_registered.
  - reflexivity.
  - exact Hr.
Defined.





Example demo_child_slot :
  task_files demo_files demo_child = files_of demo_files "c_01".
Proof. vm_compute. reflexivity. Qed.

Lemma const_rvs_contract : sampler_contract (const_rvs 5).
Proof. intros i d mn mx. unfold const_rvs. discriminate. Qed.

Lemma file_sizes_nonneg_witness :
  (∃ f s',
     _generate_file (const_rvs 5) demo_uuid4 ".txt" [(".txt", demo_dist)]
       INPUT demo_files = Ok f s' ∧ (0 ≤ File.size f)%Z) ∧
  Forall (λ f, (0 ≤ File.size f)%Z) (task_files demo_files demo_child).
Proof.
  destruct (file_sizes_nonneg (const_rvs 5) demo_uuid4 demo_table
              const_rvs_contract demo_files demo_files_reachable)
    as [Hnew Hheap].
  split.
  - eexists _, _. split; [vm_compute; reflexivity|].
    eapply (Hnew ".txt" [(".txt", demo_dist)] INPUT). vm_compute. reflexivity.
  - apply Forall_forall. intros f Hf. apply Hheap.
    rewrite demo_child_slot in Hf.
    apply (elem_of_files_of_in_heap demo_uuid4 demo_files "c_01");
      [|exact Hf].
    exact (reachable_inv _ _ _ _ demo_files_reachable).
Defined.

(** The truncation is toward zero: a sample between [-1] and [0] gives an
    empty file. *)
Example generate_file_small_negative_sample :
  ∃ f s',
    _generate_file (const_rvs (- 1 # 3)) demo_uuid4 ".txt"
      [(".txt", demo_dist)] OUTPUT demo_engine = Ok f s' ∧
    File.size f = 0%Z.
Proof. eexists _, _. split; [vm_compute; reflexivity|reflexivity]. Qed.

(** The engine does not validate what the sampler returns: the size
    follows a sampler that breaks its contract. *)
Example negative_sample_negative_size :
  ∃ f s',
    _generate_file (const_rvs (-5)) demo_uuid4 ".txt" [(".txt", demo_dist)]
      INPUT demo_engine = Ok f s' ∧
    File.size f = (-5)%Z.
Proof. eexists _, _. split; [vm_compute; reflexivity|reflexivity]. Qed.

Lemma task_names_follow_counter_witness :
  ∃ e',
    generate_task_names ["task"; "task"; "job"] demo_engine =
      Ok ["task_00000001"; "task_00000002"; "job_00000003"] e' ∧
    task_id_counter e' = 4%Z.
Proof.
  destruct (task_names_follow_counter ["task"; "task"; "job"] demo_engine
              eq_refl) as (names & e' & Hrun & Hc & _).
  exists e'. split; [|exact Hc].
  rewrite Hrun. f_equal. rewrite generate_task_names_eq in Hrun.
  by injection Hrun as <- _.
Defined.

Lemma generate_task_id_field_witness :
  ∃ t s',
    _generate_task (const_rvs 5) demo_table "A" "p_01" demo_engine = Ok t s' ∧
    Task.task_id t = "01" ∧ Task.name t = "p_01" ∧
    tasks_map s' !! "p_01" = Some t.
Proof.
  assert (Hr : demo_table !! "A" = Some {| Recipe.runtime := demo_dist;
               Recipe.input := [(".txt", demo_dist)];
               Recipe.output := [(".tar.gz", demo_dist)] |})
    by reflexivity.
  refine (proj2 (generate_task_id_field (const_rvs 5) demo_table "A" "p_01"
                   demo_engine _ Hr) "p" "1" "" eq_refl _ _ (or_introl eq_refl)).
  - intros (x & y & H). by destruct x as [|? [|? ?]].
  - intros (x & y & H). by destruct x as [|? [|? ?]].
Defined.

(** *** Where the specification and the code part *)

(** C2: two direct calls on a task that no child has resolved.  The second
    one scans the files of the task, does not recognise [.tar.gz] in the
    name of the output it finds ([splitext] returns [.gz]) and generates
    another output. *)
Lemma direct_call_twice_differs :
  ∃ r1 s1 r2 s2,
    _generate_task_files (const_rvs 5) demo_uuid4 demo_table 1 demo_parent
      demo_tasks = Ok r1 s1 ∧
    _generate_task_files (const_rvs 5) demo_uuid4 demo_table 1 demo_parent
      s1 = Ok r2 s2 ∧
    File.name <$> r1 = ["-.tar.gz"] ∧
    File.name <$> r2 = ["-.tar.gz"; "00-.tar.gz"] ∧
    length (task_files s1 demo_parent) = 2%nat ∧
    length (task_files s2 demo_parent) = 3%nat.
Proof.
  eexists _, _, _, _. split_and!.
  - vm_compute. reflexivity.
  - vm_compute. reflexivity.
  - reflexivity.
  - reflexivity.
  - reflexivity.
  - reflexivity.
Qed.

(** C3: after a direct call on a task, its name is not a key of the
    memo. *)
Lemma direct_call_not_recorded :
  ∃ r s1,
    tasks_output_files demo_tasks !! Task.name demo_parent = None ∧
    _generate_task_files (const_rvs 5) demo_uuid4 demo_table 1 demo_parent
      demo_tasks = Ok r s1 ∧
    tasks_output_files s1 !! Task.name demo_parent = None.
Proof.
  eexists _, _. split_and!.
  - reflexivity.
  - vm_compute. reflexivity.
  - reflexivity.
Qed.

(** C6: a task object named as a task of the memo, of a category the
    table does not have. *)
Lemma cached_task_skips_recipe_lookup :
  let ghost := demo_task "p_01" "Z" 0 in
  demo_table !! Task.category ghost = None ∧
  ∃ cached,
    _generate_task_files (const_rvs 5) demo_uuid4 demo_table 1 ghost
      demo_files = Ok cached demo_files.
Proof.
  split; [reflexivity|]. eexists. vm_compute. reflexivity.
Qed.

(** C9: the hundred-millionth name has a suffix of nine digits. *)
Lemma task_name_nine_digits :
  ∃ names e',
    generate_task_names (replicate (Z.to_nat 100000000) "task") demo_engine =
      Ok names e' ∧
    names !! Z.to_nat 99999999 = Some "task_100000000" ∧
    ¬ ∃ suffix, "task_100000000" = "task" +:+ "_" +:+ suffix ∧
                String.length suffix = 8%nat.
Proof.
  eexists _, _. split; [apply generate_task_names_eq|]. split.
  - rewrite list_lookup_imap.
    rewrite lookup_replicate_2 by lia.
    change (task_id_counter demo_engine) with 1%Z.
    unfold fmap, option_fmap, option_map.
    rewrite Z2Nat.id by lia. reflexivity.
  - intros (suffix & Heq & Hlen).
    change ("task" +:+ "_" +:+ suffix)
      with (String "t" (String "a" (String "s" (String "k" (String "_" suffix)))))
      in Heq.
    injection Heq as <-. discriminate Hlen.
Qed.

(** C10: a task id in which ['_0'] occurs twice. *)
Lemma task_id_field_stops_at_second_separator :
  ∃ t s',
    _generate_task (const_rvs 5) demo_table "A" "a_0b_0c" demo_engine =
      Ok t s' ∧
    Task.task_id t = "0b" ∧ Task.task_id t ≠ "0" +:+ "b_0c".
Proof.
  eexists _, _. split_and!.
  - vm_compute. reflexivity.
  - reflexivity.
  - discriminate.
Qed.

(** *** A uuid source that repeats a token *)

Lemma same_uuid4_not_fresh : ¬ tokens_fresh same_uuid4.
Proof. intros H. by specialize (H 0%nat 1%nat "" "" eq_refl). Qed.








(** *** The further properties on the small recipe *)






Lemma get_files_after_generation_witness :
  ∃ r,
    _generate_task_files (const_rvs 5) demo_uuid4 demo_table 2 demo_child
      demo_tasks = Ok r demo_files ∧
    _get_files_by_task_and_link "c_01" OUTPUT demo_files = Ok r demo_files ∧
    _get_files_by_task_and_link "c_01" INPUT demo_files =
      Ok (inputs_of demo_files demo_child) demo_files.
Proof.
  destruct demo_files_run as [r Hr]. exists r. split; [exact Hr|].
  destruct (get_files_after_generation (const_rvs 5) demo_uuid4 demo_table
              2 demo_child demo_tasks r demo_files
              demo_tasks_reachable demo_child_registered Hr) as (Ho & Hi & _).
  by split.
Defined.

Lemma generate_task_files_frame_witness :
  tasks_map demo_files = tasks_map demo_tasks ∧
  tasks_parents demo_files = tasks_parents demo_tasks ∧
  task_id_counter demo_files = task_id_counter demo_tasks.
Proof.
  destruct demo_files_run as [r Hr].
  destruct (generate_task_files_frame (const_rvs 5) demo_uuid4 demo_table
              2 demo_child demo_tasks r demo_files Hr)
    as (H1 & _ & H2 & _ & H3 & _).
  by split_and!.
Defined.

Lemma registered_parents_no_lookup_error_witness :
  ∃ e, _generate_task_files (const_rvs 5) demo_uuid4 demo_table 1 demo_child
         demo_tasks = Raise e ∧ is_LookupError e = false.
Proof.
  destruct (_generate_task_files (const_rvs 5) demo_uuid4 demo_table 1
              demo_child demo_tasks) as [r s'|e] eqn:Hrun.
  - exfalso. vm_compute in Hrun. discriminate Hrun.
  - exists e. split; [reflexivity|].
    exact (registered_parents_no_lookup_error (const_rvs 5) demo_uuid4
             demo_table 1 demo_child demo_tasks e demo_tasks_reachable
             demo_parents_registered demo_child_registered Hrun).
Defined.






Lemma root_task_files_witness :
  ∃ r s',
    _generate_task_files (const_rvs 5) demo_uuid4 demo_table 1 demo_parent
      demo_tasks = Ok r s' ∧
    File.name <$> r = ["-.tar.gz"] ∧
    File.name <$> files_of s' "p_01" = ["-.tar.gz"; "0-.txt"] ∧
    File.link <$> files_of s' "p_01" = [OUTPUT; INPUT].
Proof.
  assert (Hr : demo_table !! Task.category demo_parent =
               Some {| Recipe.runtime := demo_dist;
                       Recipe.input := [(".txt", demo_dist)];
                       Recipe.output := [(".tar.gz", demo_dist)] |})
    by reflexivity.
  assert (Hl : tasks_files demo_tasks !! Task.name demo_parent = Some 0%nat)
    by (vm_compute; reflexivity).
  destruct (_generate_task_files (const_rvs 5) demo_uuid4 demo_table 1
              demo_parent demo_tasks) as [r s'|e] eqn:Hrun;
    [|vm_compute in Hrun; discriminate Hrun].
  destruct (root_task_files (const_rvs 5) demo_uuid4 demo_table 0 demo_parent
              demo_tasks _ 0%nat r s' eq_refl Hr Hl)
    as (Hnames & Hout & (ins & Hfiles & _ & Hins & Hin) & _); [..|exact Hrun|].
  - vm_compute. reflexivity.
  - exists []. vm_compute. reflexivity.
  - reflexivity.
  - apply NoDup_singleton.
  - apply NoDup_singleton.
  - exists r, s'. split; [reflexivity|]. split; [exact Hnames|].
    change (files_of s' "p_01") with (files_of s' (Task.name demo_parent)).
    rewrite Hfiles, !fmap_app, Hnames, Hins. split; [reflexivity|].
    destruct r as [|f [|? ?]]; try discriminate Hnames.
    destruct ins as [|g [|? ?]]; try discriminate Hins.
    simpl. rewrite (Hout f), (Hin g); [reflexivity|left|left].
Defined.

Lemma named_task_limit_witness :
  (∃ t s',
     generate_named_task (const_rvs 5) demo_table "task" "A" demo_engine =
       Ok t s' ∧
     Task.name t = "task_00000001" ∧ Task.task_id t = "00000001") ∧
  generate_named_task (const_rvs 5) demo_table "task" "A"
    (set_task_id_counter 10000000 demo_engine) = Raise IndexError.
Proof.
  assert (Hr : demo_table !! "A" =
               Some {| Recipe.runtime := demo_dist;
                       Recipe.input := [(".txt", demo_dist)];
                       Recipe.output := [(".tar.gz", demo_dist)] |})
    by reflexivity.
  assert (Hp : ¬ occurs "_0" "task").
  { intros (x & y & H). by destruct x as [|? [|? [|? [|? [|? ?]]]]]. }
  split.
  - destruct (proj1 (named_task_limit (const_rvs 5) demo_table "task" "A"
                       demo_engine _ Hr Hp ltac:(simpl; lia)))
      as (t & s' & Hrun & Hname & Hid & _); [simpl; lia|].
    exists t, s'. by split_and!.
  - apply (proj2 (named_task_limit (const_rvs 5) demo_table "task" "A"
                    (set_task_id_counter 10000000 demo_engine) _ Hr Hp
                    ltac:(simpl; lia))).
    simpl. lia.
Defined.

Lemma generate_task_registers_witness :
  ∃ t s',
    _generate_task (const_rvs 5) demo_table "A" "p_01" demo_engine = Ok t s' ∧
    tasks_map s' !! "p_01" = Some t ∧ files_of s' "p_01" = [] ∧
    task_files s' t = [].
Proof.
  destruct (_generate_task (const_rvs 5) demo_table "A" "p_01" demo_engine)
    as [t s'|e] eqn:Hrun.
  - exists t, s'. split; [done|].
    destruct (generate_task_registers (const_rvs 5) demo_table "A" "p_01"
                demo_engine t s' Hrun) as (_ & Hmap & Hfo & Htf & _).
    by split_and!.
  - exfalso. vm_compute in Hrun. discriminate Hrun.
Defined.

Example demo_files_again_run :
  ∃ r, _generate_task_files (const_rvs 5) demo_uuid4 demo_table 2
         demo_child demo_files = Ok r demo_files_again.
Proof. eexists. vm_compute. reflexivity. Qed.

Lemma memoized_files_frozen_witness :
  files_of demo_files_again "p_01" = files_of demo_files "p_01" ∧
  tasks_output_files demo_files_again !! "p_01" =
    Some [ {| File.name := "0-.tar.gz"; File.link := OUTPUT;
              File.size := 5 |} ].
Proof.
  destruct demo_files_again_run as [r Hr].
  assert (Hreg : registered demo_files demo_child)
    by (vm_compute; reflexivity).
  assert (Hp : tasks_output_files demo_files !! "p_01" =
               Some [ {| File.name := "0-.tar.gz"; File.link := OUTPUT;
                         File.size := 5 |} ]) by (vm_compute; reflexivity).
  destruct (memoized_files_frozen (const_rvs 5) demo_uuid4 demo_table
              2 demo_child demo_files r demo_files_again
              "p_01" _ demo_files_reachable Hreg Hp Hr) as (Hf & Hm & _).
  by split.
Defined.

Lemma files_attribute_tracks_witness :
  task_files demo_files demo_parent = files_of demo_files "p_01" ∧
  task_files demo_tasks demo_parent = [].
Proof.
  assert (Hreg : tasks_map demo_files !! "p_01" = Some demo_parent)
    by (vm_compute; reflexivity).
  split; [|vm_compute; reflexivity].
  apply (proj2 (files_attribute_tracks (const_rvs 5) demo_uuid4 demo_table
                  demo_files "p_01" demo_parent
                  demo_files_reachable Hreg)).
  eexists. vm_compute. reflexivity.
Defined.

(** *** The sysbench wrapper on a command line *)

Example benchmark_run :
  Benchmark.main id "t1" benchmark_other ["x_test_file.0"] ["test_file.1"] =
    (benchmark_trace, None).
Proof. vm_compute. reflexivity. Qed.

Lemma main_commands_witness :
  ∃ before r after,
    Benchmark.main id "t1" benchmark_other ["x_test_file.0"] ["test_file.1"] =
      (benchmark_trace, None) ∧
    ["--file-num=4"; "--file-total-size=1G"] = before ++ r :: after ∧
    Benchmark.contains "num" r = true ∧
    length (Benchmark.popens benchmark_trace) = 5%nat ∧
    length benchmark_trace = 7%nat.
Proof.
  destruct (main_commands id "t1" benchmark_other
              ["x_test_file.0"] ["test_file.1"] benchmark_trace benchmark_run)
    as (before & r & after & Hsplit & Hr & _ & Hp & Hlen).
  exists before, r, after.
  split_and!; [exact benchmark_run|exact Hsplit|exact Hr| |exact Hlen].
  rewrite Hp. reflexivity.
Defined.

Lemma strip_names_fixed_point_witness :
  Benchmark.strip_names ["a_test_file_test_file.0"] =
    ([Benchmark.Rename "a_test_file_test_file.0" "test_file_test_file.0"],
     None) ∧
  Benchmark.strip_names ["test_file_test_file.0"] =
    ([Benchmark.Rename "test_file_test_file.0" "test_file_test_file.0"],
     None).
Proof.
  assert (H : Benchmark.strip_names ["a_test_file_test_file.0"] =
              ([Benchmark.Rename "a_test_file_test_file.0"
                  "test_file_test_file.0"], None))
    by (vm_compute; reflexivity).
  split; [exact H|].
  destruct (strip_names_fixed_point "a_test_file_test_file.0"
              "test_file_test_file.0" [] [] None H)
    as (_ & _ & acts' & Hfix & _).
  exact Hfix.
Defined.

Lemma main_stops_on_index_error_witness :
  Benchmark.main id "t1" ["--file-num=4"] [] [] = ([], Some IndexError) ∧
  Benchmark.main id "t1" ["--file-num=4"; "--save-dir"; "--save=/tmp"]
    ["x_test_file.0"] [] = ([], Some IndexError).
Proof.
  destruct (main_stops_on_index_error id "t1" ["--file-num=4"] [] [])
    as [Hnone _].
  destruct (main_stops_on_index_error id "t1"
              ["--file-num=4"; "--save-dir"; "--save=/tmp"]
              ["x_test_file.0"] []) as [_ Hno_eq].
  split.
  - apply Hnone. intros item ->%list_elem_of_singleton. reflexivity.
  - apply (Hno_eq ["--file-num=4"] "--save-dir" ["--save=/tmp"]);
      [reflexivity| |reflexivity|reflexivity].
    intros x ->%list_elem_of_singleton. reflexivity.
Defined.
